(** * Ensha: versioned, encrypted backup engine with disaster recovery

    A shallow embedding of the backend of the repository
    (backend/db.py, backend/storage_client.py, backend/backup_manager.py,
    backend/restore_manager.py, backend/otp.py, backend/disaster_recovery.py)
    and the properties of its backup, restore, one-time-code and
    crash-recovery paths.

    The Entity Store is a record of tables, each table a list of rows in
    insertion order.  The file system (which also holds the primary Blob
    Store: storage_client is local-first and copies blobs under
    ./nas_storage) is an association list from paths to byte strings.
    Python code that commits to the database and may then raise is a
    computation [World -> Result A * World]: the world reached when an
    exception is raised is kept, as committed rows are. *)

From Stdlib Require Import List String Ascii ZArith Bool Lia.
From Stdlib Require Import DecimalString Permutation Sorted.
Import ListNotations.

Open Scope string_scope.
Open Scope Z_scope.

(* ================================================================== *)
(** ** Strings and paths *)

Definition bytes := list Byte.byte.

(** [str(n)] of a Python integer, as f-strings print it. *)
Definition str_of_Z (z : Z) : string := NilZero.string_of_int (Z.to_int z).

Definition str_of_bool (b : bool) : string := if b then "True" else "False".

(** [os.path.basename] (POSIX): what follows the last slash. *)
Fixpoint basename_aux (s acc : string) : string :=
  match s with
  | EmptyString => acc
  | String c rest =>
      if Ascii.eqb c "/"%char then basename_aux rest EmptyString
      else basename_aux rest (acc ++ String c EmptyString)
  end.

Definition basename (p : string) : string := basename_aux p EmptyString.

Definition starts_with_sep (s : string) : bool :=
  match s with
  | String c _ => Ascii.eqb c "/"%char
  | EmptyString => false
  end.

Fixpoint ends_with_sep (s : string) : bool :=
  match s with
  | EmptyString => false
  | String c EmptyString => Ascii.eqb c "/"%char
  | String _ rest => ends_with_sep rest
  end.

(** [os.path.join a b] (POSIX, two components). *)
Definition path_join (a b : string) : string :=
  if starts_with_sep b then b
  else if (String.eqb a "" || ends_with_sep a)%bool then a ++ b
  else a ++ "/" ++ b.

(** [s.replace(os.sep, "_")]. *)
Fixpoint replace_sep (s : string) : string :=
  match s with
  | EmptyString => EmptyString
  | String c rest =>
      String (if Ascii.eqb c "/"%char then "_"%char else c) (replace_sep rest)
  end.

(* ================================================================== *)
(** ** Entity Store rows (backend/db.py, Models) *)

Record User := mkUser {
  u_id : Z;
  u_email : string;
  u_password_hash : string;
  u_telegram_chat_id : option string
}.

Record FileEntry := mkFileEntry {
  fe_id : Z;
  fe_user_id : Z;
  fe_filename : string;
  fe_version : Z;
  fe_storage_path : string;
  fe_checksum : option string;
  fe_deleted : bool;
  fe_suspected_ransomware : bool;
  fe_corrupted : bool
}.

Record Snapshot := mkSnapshot {
  sn_id : Z;
  sn_user_id : Z;
  sn_name : option string;
  sn_description : option string
}.

Record SnapshotEntry := mkSnapshotEntry {
  se_id : Z;
  se_snapshot_id : Z;
  se_file_entry_id : Z
}.

Record OTP := mkOTP {
  otp_id : Z;
  otp_user_id : Z;
  otp_code : string;
  otp_expiry : Z;
  otp_used : bool
}.

Record LogEntry := mkLogEntry {
  lg_id : Z;
  lg_user_id : option Z;
  lg_action : string;
  lg_details : option string
}.

Record DREvent := mkDREvent {
  ev_id : Z;
  ev_user_id : option Z;
  ev_event_type : string;
  ev_details : option string;
  ev_handled : bool
}.

Record ReplicationQueue := mkReplicationQueue {
  rq_id : Z;
  rq_file_entry_id : Z;
  rq_storage_path : string;
  rq_attempted : Z;
  rq_replicated : bool
}.

Record UnsyncedFile := mkUnsyncedFile {
  uf_id : Z;
  uf_user_id : Z;
  uf_local_path : string;
  uf_filename : string;
  uf_attempts : Z
}.

(** What [alerts.send_alert] does at one call: it returns [True], returns
    [False], or raises. *)
Inductive alert_outcome := AlertSent | AlertNotSent | AlertRaises.

(** The tables, the file system and the environment the code reads:
    - [now] is the reading of [datetime.utcnow()], in seconds;
    - [unwritable p] says that creating or writing path [p] fails
      (permissions, full disk, unreachable share);
    - [alert_channel chat text] is the behaviour of the notification
      channel;
    - [tmp_counter] numbers the directories [tempfile.mkdtemp] creates;
    - [REQUIRE_OTP_FOR_SNAPSHOT_RESTORE] is the optional setting read by
      [restore_snapshot] (absent from config/settings.py, hence [true]
      by its [getattr] default);
    - [random_code] is the digit string the next run of the random code
      generator draws. *)
Record World := mkWorld {
  users : list User;
  files : list FileEntry;
  snapshots : list Snapshot;
  snapshot_entries : list SnapshotEntry;
  otps : list OTP;
  logs : list LogEntry;
  drevents : list DREvent;
  replication_queue : list ReplicationQueue;
  unsynced_files : list UnsyncedFile;
  fs : list (string * bytes);
  tmp_counter : Z;
  now : Z;
  unwritable : string -> bool;
  alert_channel : option string -> string -> alert_outcome;
  REQUIRE_OTP_FOR_SNAPSHOT_RESTORE : bool;
  random_code : string
}.

Definition set_files (x : list FileEntry) (w : World) : World :=
  mkWorld (users w) x (snapshots w) (snapshot_entries w) (otps w) (logs w)
    (drevents w) (replication_queue w) (unsynced_files w) (fs w)
    (tmp_counter w) (now w) (unwritable w) (alert_channel w)
    (REQUIRE_OTP_FOR_SNAPSHOT_RESTORE w) (random_code w).

Definition set_snapshots (x : list Snapshot) (w : World) : World :=
  mkWorld (users w) (files w) x (snapshot_entries w) (otps w) (logs w)
    (drevents w) (replication_queue w) (unsynced_files w) (fs w)
    (tmp_counter w) (now w) (unwritable w) (alert_channel w)
    (REQUIRE_OTP_FOR_SNAPSHOT_RESTORE w) (random_code w).

Definition set_snapshot_entries (x : list SnapshotEntry) (w : World) : World :=
  mkWorld (users w) (files w) (snapshots w) x (otps w) (logs w)
    (drevents w) (replication_queue w) (unsynced_files w) (fs w)
    (tmp_counter w) (now w) (unwritable w) (alert_channel w)
    (REQUIRE_OTP_FOR_SNAPSHOT_RESTORE w) (random_code w).

Definition set_otps (x : list OTP) (w : World) : World :=
  mkWorld (users w) (files w) (snapshots w) (snapshot_entries w) x (logs w)
    (drevents w) (replication_queue w) (unsynced_files w) (fs w)
    (tmp_counter w) (now w) (unwritable w) (alert_channel w)
    (REQUIRE_OTP_FOR_SNAPSHOT_RESTORE w) (random_code w).

Definition set_logs (x : list LogEntry) (w : World) : World :=
  mkWorld (users w) (files w) (snapshots w) (snapshot_entries w) (otps w) x
    (drevents w) (replication_queue w) (unsynced_files w) (fs w)
    (tmp_counter w) (now w) (unwritable w) (alert_channel w)
    (REQUIRE_OTP_FOR_SNAPSHOT_RESTORE w) (random_code w).

Definition set_drevents (x : list DREvent) (w : World) : World :=
  mkWorld (users w) (files w) (snapshots w) (snapshot_entries w) (otps w)
    (logs w) x (replication_queue w) (unsynced_files w) (fs w)
    (tmp_counter w) (now w) (unwritable w) (alert_channel w)
    (REQUIRE_OTP_FOR_SNAPSHOT_RESTORE w) (random_code w).

Definition set_replication_queue (x : list ReplicationQueue) (w : World) : World :=
  mkWorld (users w) (files w) (snapshots w) (snapshot_entries w) (otps w)
    (logs w) (drevents w) x (unsynced_files w) (fs w)
    (tmp_counter w) (now w) (unwritable w) (alert_channel w)
    (REQUIRE_OTP_FOR_SNAPSHOT_RESTORE w) (random_code w).

Definition set_unsynced_files (x : list UnsyncedFile) (w : World) : World :=
  mkWorld (users w) (files w) (snapshots w) (snapshot_entries w) (otps w)
    (logs w) (drevents w) (replication_queue w) x (fs w)
    (tmp_counter w) (now w) (unwritable w) (alert_channel w)
    (REQUIRE_OTP_FOR_SNAPSHOT_RESTORE w) (random_code w).

Definition set_fs (x : list (string * bytes)) (w : World) : World :=
  mkWorld (users w) (files w) (snapshots w) (snapshot_entries w) (otps w)
    (logs w) (drevents w) (replication_queue w) (unsynced_files w) x
    (tmp_counter w) (now w) (unwritable w) (alert_channel w)
    (REQUIRE_OTP_FOR_SNAPSHOT_RESTORE w) (random_code w).

Definition set_tmp_counter (x : Z) (w : World) : World :=
  mkWorld (users w) (files w) (snapshots w) (snapshot_entries w) (otps w)
    (logs w) (drevents w) (replication_queue w) (unsynced_files w) (fs w)
    x (now w) (unwritable w) (alert_channel w)
    (REQUIRE_OTP_FOR_SNAPSHOT_RESTORE w) (random_code w).

Definition set_now (x : Z) (w : World) : World :=
  mkWorld (users w) (files w) (snapshots w) (snapshot_entries w) (otps w)
    (logs w) (drevents w) (replication_queue w) (unsynced_files w) (fs w)
    (tmp_counter w) x (unwritable w) (alert_channel w)
    (REQUIRE_OTP_FOR_SNAPSHOT_RESTORE w) (random_code w).

(* ================================================================== *)
(** ** Computations that commit and may raise *)

Inductive exn :=
| ValueError (msg : string)
| FileNotFoundError (msg : string)
| OSError (msg : string)
| RuntimeError (msg : string)
| IntegrityError
| InvalidToken
| AlertError.

(** The text [str(e)] / [traceback.format_exc()] put into log and event
    details: the message of the exception. *)
Definition exn_text (e : exn) : string :=
  match e with
  | ValueError m | FileNotFoundError m | OSError m | RuntimeError m => m
  | IntegrityError => "IntegrityError"
  | InvalidToken => "InvalidToken"
  | AlertError => "AlertError"
  end.

Inductive Result (A : Type) :=
| Ok (a : A)
| Raise (e : exn).
Arguments Ok {A} a.
Arguments Raise {A} e.

Definition M (A : Type) : Type := World -> Result A * World.

Definition ret {A} (a : A) : M A := fun w => (Ok a, w).

Definition raise {A} (e : exn) : M A := fun w => (Raise e, w).

Definition bind {A B} (m : M A) (k : A -> M B) : M B :=
  fun w =>
    match m w with
    | (Ok a, w') => k a w'
    | (Raise e, w') => (Raise e, w')
    end.

(** [try: m except Exception as e: h e]. *)
Definition try_except {A} (m : M A) (h : exn -> M A) : M A :=
  fun w =>
    match m w with
    | (Ok a, w') => (Ok a, w')
    | (Raise e, w') => h e w'
    end.

(** [try: m finally: c], for a cleanup [c] that does not raise. *)
Definition try_finally {A} (m : M A) (c : World -> World) : M A :=
  fun w => let (r, w') := m w in (r, c w').

(** A statement that only changes the world. *)
Definition modify (f : World -> World) : M unit := fun w => (Ok tt, f w).

Definition gets {A} (f : World -> A) : M A := fun w => (Ok (f w), w).

Declare Scope py_scope.
Delimit Scope py_scope with py.
Notation "x <- m ;; k" := (bind m (fun x => k))
  (at level 100, m at next level, right associativity) : py_scope.
Notation "m ;; k" := (bind m (fun _ => k))
  (at level 100, right associativity) : py_scope.
Open Scope py_scope.

(** [for x in l: body x]. *)
Fixpoint for_each {A} (l : list A) (body : A -> M unit) : M unit :=
  match l with
  | [] => ret tt
  | x :: rest => body x ;; for_each rest body
  end.

(* ================================================================== *)
(** ** File system *)

Fixpoint fs_lookup (p : string) (l : list (string * bytes)) : option bytes :=
  match l with
  | [] => None
  | (q, b) :: rest => if String.eqb q p then Some b else fs_lookup p rest
  end.

Definition fs_remove (p : string) (l : list (string * bytes)) : list (string * bytes) :=
  filter (fun kv => negb (String.eqb (fst kv) p)) l.

Definition fs_put (p : string) (b : bytes) (l : list (string * bytes)) : list (string * bytes) :=
  (p, b) :: fs_remove p l.

Definition is_some {A} (o : option A) : bool :=
  match o with Some _ => true | None => false end.

(** [os.path.exists(p)] *)
Definition path_exists (p : string) : M bool :=
  gets (fun w => is_some (fs_lookup p (fs w))).

(** [open(p, "rb").read()] *)
Definition read_file (p : string) : M bytes :=
  fun w =>
    match fs_lookup p (fs w) with
    | Some b => (Ok b, w)
    | None => (Raise (FileNotFoundError ("No such file: " ++ p)), w)
    end.

(** [open(p, "wb").write(b)] *)
Definition write_file (p : string) (b : bytes) : M unit :=
  fun w =>
    if unwritable w p then (Raise (OSError ("Cannot write: " ++ p)), w)
    else (Ok tt, set_fs (fs_put p b (fs w)) w).

(** [shutil.copy2(src, dst)] *)
Definition copy2 (src dst : string) : M unit :=
  b <- read_file src ;; write_file dst b.

(** [tempfile.mkdtemp(prefix=...)]: a directory not used before. *)
Definition mkdtemp (prefix : string) : M string :=
  fun w =>
    (Ok ("/tmp/" ++ prefix ++ str_of_Z (tmp_counter w)),
     set_tmp_counter (tmp_counter w + 1) w).

(** [shutil.rmtree(d)], and the remove-each-file-then-rmdir loops of the
    restore paths: every file under [d] goes. *)
Definition rmtree (d : string) (w : World) : World :=
  set_fs (filter (fun kv => negb (String.prefix (d ++ "/") (fst kv))) (fs w)) w.

(* ================================================================== *)
(** ** backend/db.py: helpers *)

(** Integer primary keys: the next key is one more than the largest in
    the table (SQLite rowid, the default [DB_URL]). *)
Definition next_id (ids : list Z) : Z := 1 + fold_right Z.max 0 ids.

Definition get_user (user_id : Z) : M (option User) :=
  gets (fun w => find (fun u => u_id u =? user_id) (users w)).

Definition add_log (user_id : option Z) (action : string) (details : option string) : M LogEntry :=
  fun w =>
    let entry := mkLogEntry (next_id (map lg_id (logs w))) user_id action details in
    (Ok entry, set_logs (logs w ++ [entry]) w).

(** Rows of one [(user, filename)] that are not flagged deleted. *)
Definition live_match (user_id : Z) (filename : string) (e : FileEntry) : bool :=
  (fe_user_id e =? user_id) && String.eqb (fe_filename e) filename && negb (fe_deleted e).

(** The unique constraint [uq_user_filename_version]. *)
Definition same_key (user_id : Z) (filename : string) (version : Z) (e : FileEntry) : bool :=
  (fe_user_id e =? user_id) && String.eqb (fe_filename e) filename && (fe_version e =? version).

Definition add_file_entry (user_id : Z) (filename : string) (version : Z)
    (storage_path : string) (checksum : option string) : M FileEntry :=
  fun w =>
    if existsb (same_key user_id filename version) (files w)
    then (Raise IntegrityError, w)
    else
      let fe := mkFileEntry (next_id (map fe_id (files w))) user_id filename
                  version storage_path checksum false false false in
      (Ok fe, set_files (files w ++ [fe]) w).

(** [order_by]: a stable insertion sort. *)
Fixpoint insert_by {A} (le : A -> A -> bool) (x : A) (l : list A) : list A :=
  match l with
  | [] => [x]
  | y :: rest => if le x y then x :: l else y :: insert_by le x rest
  end.

Definition sort_by {A} (le : A -> A -> bool) (l : list A) : list A :=
  fold_right (insert_by le) [] l.

(** [FileEntry.version.desc()] *)
Definition version_desc (a b : FileEntry) : bool := fe_version b <=? fe_version a.

(** The order [version.desc()] lists rows in. *)
Definition newer_or_same (a b : FileEntry) : Prop := fe_version b <= fe_version a.

(** [FileEntry.filename, FileEntry.version.desc()] *)
Definition filename_then_version_desc (a b : FileEntry) : bool :=
  match String.compare (fe_filename a) (fe_filename b) with
  | Lt => true
  | Eq => version_desc a b
  | Gt => false
  end.

(** [if filename:] is false for [None] and for the empty string. *)
Definition truthy (s : option string) : bool :=
  match s with
  | Some s => negb (String.eqb s "")
  | None => false
  end.

Definition get_file_entries (user_id : Z) (filename : option string) : M (list FileEntry) :=
  gets (fun w =>
    let q := filter (fun e => (fe_user_id e =? user_id) && negb (fe_deleted e)) (files w) in
    let q := match filename with
             | Some f => if truthy filename
                         then filter (fun e => String.eqb (fe_filename e) f) q else q
             | None => q
             end in
    sort_by filename_then_version_desc q).

Definition get_file_entry (user_id : Z) (filename : string) (version : Z) : M (option FileEntry) :=
  gets (fun w =>
    find (fun e => same_key user_id filename version e && negb (fe_deleted e)) (files w)).

(** [session.get(FileEntry, id)] *)
Definition get_file_entry_by_id (id : Z) : M (option FileEntry) :=
  gets (fun w => find (fun e => fe_id e =? id) (files w)).

Definition live_versions_desc (user_id : Z) (filename : string) (w : World) : list FileEntry :=
  sort_by version_desc (filter (live_match user_id filename) (files w)).

(** [entry.version if entry else 0] for the first row, version
    descending. *)
Definition latest_version (user_id : Z) (filename : string) (w : World) : Z :=
  match live_versions_desc user_id filename w with
  | entry :: _ => fe_version entry
  | [] => 0
  end.

Definition get_latest_version (user_id : Z) (filename : string) : M Z :=
  gets (latest_version user_id filename).

Definition delete_file_entry (entry_id : Z) : M bool :=
  fun w =>
    match find (fun e => fe_id e =? entry_id) (files w) with
    | None => (Ok false, w)
    | Some _ =>
        (Ok true,
         set_files (map (fun e => if fe_id e =? entry_id
                                  then mkFileEntry (fe_id e) (fe_user_id e) (fe_filename e)
                                         (fe_version e) (fe_storage_path e) (fe_checksum e)
                                         true (fe_suspected_ransomware e) (fe_corrupted e)
                                  else e) (files w)) w)
    end.

(** [l[k:]], with Python's reading of a negative start. *)
Definition slice_from {A} (k : Z) (l : list A) : list A :=
  let n := Z.of_nat (List.length l) in
  skipn (Z.to_nat (if k <? 0 then Z.max (n + k) 0 else k)) l.

(** [session.delete(e)] for each [e] of [to_remove]: the rows with these
    primary keys leave the table. *)
Definition delete_rows (to_remove : list FileEntry) (rows : list FileEntry) : list FileEntry :=
  filter (fun r => negb (existsb (fun e => fe_id e =? fe_id r) to_remove)) rows.

Definition prune_old_versions (user_id : Z) (filename : string) (keep : Z)
    : M (list (Z * string)) :=
  fun w =>
    let entries := live_versions_desc user_id filename w in
    if Z.of_nat (List.length entries) <=? keep then (Ok [], w)
    else
      let to_remove := slice_from keep entries in
      let removed := map (fun e => (fe_id e, fe_storage_path e)) to_remove in
      (Ok removed, set_files (delete_rows to_remove (files w)) w).

Definition create_snapshot (user_id : Z) (name description : option string) : M Snapshot :=
  fun w =>
    let s := mkSnapshot (next_id (map sn_id (snapshots w))) user_id name description in
    (Ok s, set_snapshots (snapshots w ++ [s]) w).

Definition add_snapshot_entry (snapshot_id file_entry_id : Z) : M SnapshotEntry :=
  fun w =>
    let se := mkSnapshotEntry (next_id (map se_id (snapshot_entries w)))
                snapshot_id file_entry_id in
    (Ok se, set_snapshot_entries (snapshot_entries w ++ [se]) w).

(** [order_by(created_at.desc()).limit(limit)]: newest first; rows are
    kept in creation order. *)
Definition get_snapshots (user_id : Z) (limit : nat) : M (list Snapshot) :=
  gets (fun w =>
    firstn limit (rev (filter (fun s => sn_user_id s =? user_id) (snapshots w)))).

Definition get_snapshot_entries (snapshot_id : Z) : M (list SnapshotEntry) :=
  gets (fun w => filter (fun se => se_snapshot_id se =? snapshot_id) (snapshot_entries w)).

Definition add_unsynced_file (user_id : Z) (local_path filename : string) : M UnsyncedFile :=
  fun w =>
    let u := mkUnsyncedFile (next_id (map uf_id (unsynced_files w)))
               user_id local_path filename 0 in
    (Ok u, set_unsynced_files (unsynced_files w ++ [u]) w).

(** [order_by(queued_at.asc()).limit(limit)], each row deleted, one
    commit: the oldest [limit] rows leave the queue and are returned. *)
Definition pop_unsynced_files (limit : nat) : M (list UnsyncedFile) :=
  fun w =>
    let rows := firstn limit (unsynced_files w) in
    (Ok rows,
     set_unsynced_files
       (filter (fun r => negb (existsb (fun x => uf_id x =? uf_id r) rows))
          (unsynced_files w)) w).

Definition enqueue_replication (file_entry_id : Z) (storage_path : string) : M ReplicationQueue :=
  fun w =>
    let rq := mkReplicationQueue (next_id (map rq_id (replication_queue w)))
                file_entry_id storage_path 0 false in
    (Ok rq, set_replication_queue (replication_queue w ++ [rq]) w).

Definition record_dr_event (user_id : option Z) (event_type : string)
    (details : option string) : M DREvent :=
  fun w =>
    let e := mkDREvent (next_id (map ev_id (drevents w))) user_id event_type details false in
    (Ok e, set_drevents (drevents w ++ [e]) w).

Definition create_otp_record (user_id : Z) (code : string) (expiry : Z) : M OTP :=
  fun w =>
    let otp := mkOTP (next_id (map otp_id (otps w))) user_id code expiry false in
    (Ok otp, set_otps (otps w ++ [otp]) w).

(** [filter_by(user_id=.., code=.., used=False)]; a [None] code compares
    with no stored code (the column is not nullable). *)
Definition otp_match (user_id : Z) (code : option string) (o : OTP) : bool :=
  match code with
  | Some c => (otp_user_id o =? user_id) && String.eqb (otp_code o) c && negb (otp_used o)
  | None => false
  end.

Definition get_valid_otp (user_id : Z) (code : option string) : M (option OTP) :=
  fun w =>
    match find (otp_match user_id code) (otps w) with
    | None => (Ok None, w)
    | Some otp => if otp_expiry otp <? now w then (Ok None, w) else (Ok (Some otp), w)
    end.

Definition mark_otp_used (id : Z) : M bool :=
  fun w =>
    match find (fun o => otp_id o =? id) (otps w) with
    | None => (Ok false, w)
    | Some _ =>
        (Ok true,
         set_otps (map (fun o => if otp_id o =? id
                                 then mkOTP (otp_id o) (otp_user_id o) (otp_code o)
                                        (otp_expiry o) true
                                 else o) (otps w)) w)
    end.

(* ================================================================== *)
(** ** backend/alerts.py *)

(** [alerts.send_alert(chat_id, text)] as the callers use it.
    backend/alerts.py defines the [AlertManager] class and its
    [send_message] (which returns [False] without a bot and on a
    [TelegramError]) but no module-level [send_alert]; what a call does
    is therefore read from the world: it answers [True] or [False], or it
    raises. *)
Definition send_alert (chat_id : option string) (text : string) : M bool :=
  fun w =>
    match alert_channel w chat_id text with
    | AlertSent => (Ok true, w)
    | AlertNotSent => (Ok false, w)
    | AlertRaises => (Raise AlertError, w)
    end.

(** [os.path.dirname] (POSIX). *)
Fixpoint rstrip_sep (s : string) : string :=
  match s with
  | EmptyString => EmptyString
  | String c rest =>
      let r := rstrip_sep rest in
      if (Ascii.eqb c "/"%char && String.eqb r "")%bool then EmptyString else String c r
  end.

Fixpoint dirname_aux (s head acc : string) : string :=
  match s with
  | EmptyString => head
  | String c rest =>
      if Ascii.eqb c "/"%char then dirname_aux rest (head ++ acc ++ "/") EmptyString
      else dirname_aux rest head (acc ++ String c EmptyString)
  end.

Definition dirname (p : string) : string :=
  let head := dirname_aux p EmptyString EmptyString in
  if String.eqb (rstrip_sep head) "" then head else rstrip_sep head.

(* ================================================================== *)
(** ** The backend, over the encryption boundary

    [encrypt] and [decrypt] stand for Fernet under the stored key
    (backend/encryption.py): [decrypt] answers [None] where Fernet raises
    [InvalidToken].  [sha256_hex] is [hashlib.sha256(..).hexdigest()]. *)

Section Backend.

Variable encrypt : bytes -> bytes.
Variable decrypt : bytes -> option bytes.
Variable sha256_hex : bytes -> string.

(** *** backend/encryption.py *)

Definition encrypt_file (input_path output_path : string) : M unit :=
  data <- read_file input_path ;;
  write_file output_path (encrypt data).

Definition decrypt_file (input_path output_path : string) : M unit :=
  data <- read_file input_path ;;
  match decrypt data with
  | Some decrypted => write_file output_path decrypted
  | None => raise InvalidToken
  end.

(** *** backend/storage_client.py *)

(** [getattr(settings, "LOCAL_STORAGE_PATH", "./nas_storage")]: the
    settings module defines no such name. *)
Definition PRIMARY_STORAGE : string := "./nas_storage".

Definition _user_dir (user_id : Z) : string :=
  path_join PRIMARY_STORAGE ("user_" ++ str_of_Z user_id).

Definition _storage_filename (filename : string) (version : Z) : string :=
  replace_sep filename ++ ".v" ++ str_of_Z version ++ ".enc".

Definition upload_dest (user_id : Z) (filename : string) (version : Z) : string :=
  path_join (_user_dir user_id) (_storage_filename filename version).

Definition upload_file (user_id : Z) (filename : string) (version : Z)
    (local_encrypted_path : string) : M string :=
  let dest_path := upload_dest user_id filename version in
  try_except
    (copy2 local_encrypted_path dest_path ;;
     add_log (Some user_id) "upload_success"
       (Some ("Uploaded " ++ filename ++ " v" ++ str_of_Z version ++ " -> " ++ dest_path)) ;;
     ret dest_path)
    (fun e =>
       add_log (Some user_id) "upload_exception"
         (Some ("Failed to copy to primary storage: " ++ exn_text e)) ;;
       record_dr_event (Some user_id) "upload_failed_local"
         (Some (filename ++ " v" ++ str_of_Z version ++ " upload failed: " ++ exn_text e)) ;;
       raise e).

Definition download_file (storage_path local_target_path : string) : M unit :=
  ex <- path_exists storage_path ;;
  if negb ex then raise (FileNotFoundError ("Storage path not found: " ++ storage_path))
  else copy2 storage_path local_target_path.

Definition fetch_blob (storage_path : string) : M bytes :=
  ex <- path_exists storage_path ;;
  if negb ex then raise (FileNotFoundError ("Storage path not found: " ++ storage_path))
  else read_file storage_path.

(** [os.remove] when the path exists; [True] either way. *)
Definition delete_blob (storage_path : string) : M bool :=
  fun w => (Ok true, set_fs (fs_remove storage_path (fs w)) w).

(** *** backend/backup_manager.py *)

(** [getattr(settings, "MAX_VERSIONS_PER_FILE", 3)]: the settings module
    names its setting [MAX_VERSIONS], so the fallback is what is used. *)
Definition MAX_VERSIONS : Z := 3.

Definition _sha256_of_file (path : string) : M string :=
  data <- read_file path ;; ret (sha256_hex data).

Definition _safe_basename (path : string) : string := basename path.

(** [for entry_id, spath in removed:] with its [try]/[except]. *)
Definition delete_pruned_blobs (user_id : Z) (removed : list (Z * string)) : M unit :=
  for_each removed
    (fun r =>
       try_except (delete_blob (snd r) ;; ret tt)
         (fun _ =>
            add_log (Some user_id) "prune_warning"
              (Some ("Failed to delete blob " ++ snd r ++ " during prune")) ;;
            ret tt)).

Definition perform_manual_backup (user_id : Z) (file_path : string) : M FileEntry :=
  user <- get_user user_id ;;
  match user with
  | None => raise (ValueError "User not found")
  | Some user =>
    ex <- path_exists file_path ;;
    if negb ex then
      let msg := "Backup failed: source not found: " ++ file_path in
      add_log (Some user_id) "backup_failed" (Some msg) ;;
      raise (FileNotFoundError msg)
    else
      let fname := _safe_basename file_path in
      latest <- get_latest_version user_id fname ;;
      let version := latest + 1 in
      tmpdir <- mkdtemp "fyp_enc_" ;;
      try_finally
        (let enc_path := path_join tmpdir (fname ++ ".enc") in
         encrypt_file file_path enc_path ;;
         checksum <- _sha256_of_file enc_path ;;
         storage_path <-
           try_except (upload_file user_id fname version enc_path)
             (fun e =>
                add_log (Some user_id) "upload_failed"
                  (Some (fname ++ " v" ++ str_of_Z version ++ " upload failed: " ++ exn_text e)) ;;
                add_unsynced_file user_id file_path fname ;;
                record_dr_event (Some user_id) "upload_failed"
                  (Some (fname ++ " v" ++ str_of_Z version ++ " upload failed: " ++ exn_text e)) ;;
                raise e) ;;
         fe <- add_file_entry user_id fname version storage_path (Some checksum) ;;
         snap <- create_snapshot user_id
                   (Some (fname ++ "-v" ++ str_of_Z version))
                   (Some ("Auto snapshot for " ++ fname ++ ":v" ++ str_of_Z version)) ;;
         add_snapshot_entry (sn_id snap) (fe_id fe) ;;
         enqueue_replication (fe_id fe) storage_path ;;
         removed <- prune_old_versions user_id fname MAX_VERSIONS ;;
         delete_pruned_blobs user_id removed ;;
         add_log (Some user_id) "backup"
           (Some (fname ++ " v" ++ str_of_Z version ++ " backed up -> " ++ storage_path)) ;;
         try_except
           (send_alert (u_telegram_chat_id user)
              ("Backup complete: " ++ fname ++ " (v" ++ str_of_Z version ++ ")") ;;
            ret tt)
           (fun _ =>
              add_log (Some user_id) "alert_failed"
                (Some ("Telegram alert failed for " ++ fname ++ " v" ++ str_of_Z version)) ;;
              ret tt) ;;
         ret fe)
        (rmtree tmpdir)
  end.

(** *** backend/restore_manager.py and backend/otp.py *)

(** [{"ok": .., "message": ..}], with the code [otp.request] adds in
    debug mode. *)
Record Reply := mkReply {
  ok : bool;
  message : string;
  reply_code : option string
}.

Definition reply (o : bool) (m : string) : Reply := mkReply o m None.

Definition OTP_EXPIRY_SECONDS : Z := 300.

(** [os.getenv("DEBUG_SHOW_OTP", "True")] *)
Definition DEBUG_SHOW_OTP : bool := true.

(** [''.join(str(random.randint(0, 9)) for _ in range(length))] *)
Definition _make_otp_code : M string := gets random_code.
Definition _generate_code : M string := gets random_code.

(** [download_file] is tried first, then [fetch_blob]; the other names
    probed with [getattr] are not defined by storage_client. *)
Definition _storage_download_to_temp (storage_path : string) : M string :=
  tmpdir <- mkdtemp "fyp_restore_" ;;
  let local_path := path_join tmpdir (replace_sep (basename storage_path) ++ ".enc") in
  try_except
    (download_file storage_path local_path ;; ret local_path)
    (fun _ =>
       try_except
         (blob <- fetch_blob storage_path ;;
          write_file local_path blob ;;
          ret local_path)
         (fun _ =>
            raise (RuntimeError "No compatible storage_client download API found (tried download_file/fetch_blob/get_blob)."))).

Definition start_restore_request (user_id : Z) (filename : string) : M Reply :=
  user <- get_user user_id ;;
  match user with
  | None => ret (reply false "User not found")
  | Some user =>
    code <- _make_otp_code ;;
    t <- gets now ;;
    let expiry := t + OTP_EXPIRY_SECONDS in
    otp <- create_otp_record user_id code expiry ;;
    let chat_id := u_telegram_chat_id user in
    let msg := "Your OTP for restoring '" ++ filename ++ "' is: " ++ code
               ++ " This code expires in " ++ str_of_Z (OTP_EXPIRY_SECONDS / 60) ++ " minutes." in
    sent <- send_alert chat_id msg ;;
    add_log (Some user_id) "otp_sent"
      (Some ("OTP id=" ++ str_of_Z (otp_id otp) ++ " for " ++ filename
             ++ ", sent=" ++ str_of_bool sent)) ;;
    record_dr_event (Some user_id) "otp_issued"
      (Some ("OTP " ++ str_of_Z (otp_id otp) ++ " issued for " ++ filename
             ++ ", expires " ++ str_of_Z expiry)) ;;
    if negb sent
    then ret (reply false "Failed to send OTP via Telegram; check configuration.")
    else ret (reply true "OTP sent via Telegram. Check your messages.")
  end.

Definition perform_restore (user_id : Z) (filename : string) (version : option Z)
    (target_path : string) (otp_code : option string) : M Reply :=
  try_except
    (user <- get_user user_id ;;
     match user with
     | None => ret (reply false "User not found")
     | Some user =>
       otp_rec <- get_valid_otp user_id otp_code ;;
       match otp_rec with
       | None =>
           add_log (Some user_id) "restore_failed_otp" (Some ("OTP invalid for " ++ filename)) ;;
           ret (reply false "OTP invalid or expired")
       | Some otp_rec =>
         mark_otp_used (otp_id otp_rec) ;;
         found <-
           match version with
           | None =>
               entries <- get_file_entries user_id (Some filename) ;;
               ret (match entries with
                    | [] => inl "No backups found for this file"
                    | entry :: _ => inr entry
                    end)
           | Some v =>
               entry <- get_file_entry user_id filename v ;;
               ret (match entry with
                    | None => inl ("Requested version " ++ str_of_Z v ++ " not found")
                    | Some entry => inr entry
                    end)
           end ;;
         match found with
         | inl m => ret (reply false m)
         | inr entry =>
           let storage_path := fe_storage_path entry in
           add_log (Some user_id) "restore_start"
             (Some ("Restore " ++ filename ++ " v" ++ str_of_Z (fe_version entry)
                    ++ " to " ++ target_path)) ;;
           downloaded <-
             try_except
               (enc_local <- _storage_download_to_temp storage_path ;; ret (Some enc_local))
               (fun e =>
                  add_log (Some user_id) "restore_download_failed"
                    (Some (storage_path ++ ": " ++ exn_text e)) ;;
                  record_dr_event (Some user_id) "restore_failed"
                    (Some ("Download failed for " ++ storage_path ++ ": " ++ exn_text e)) ;;
                  ret None) ;;
           match downloaded with
           | None => ret (reply false "Failed to download backup from storage")
           | Some enc_local =>
             decrypted <-
               try_finally
                 (try_except
                    (decrypt_file enc_local target_path ;; ret true)
                    (fun e =>
                       add_log (Some user_id) "restore_decrypt_failed"
                         (Some (filename ++ " v" ++ str_of_Z (fe_version entry)
                                ++ ": " ++ exn_text e)) ;;
                       record_dr_event (Some user_id) "restore_failed"
                         (Some ("Decryption failed for " ++ filename ++ " v"
                                ++ str_of_Z (fe_version entry) ++ ": " ++ exn_text e)) ;;
                       ret false))
                 (rmtree (dirname enc_local)) ;;
             if negb decrypted
             then ret (reply false "Failed to decrypt backup (possible corruption or wrong key)")
             else
               add_log (Some user_id) "restore_success"
                 (Some (filename ++ " v" ++ str_of_Z (fe_version entry)
                        ++ " restored to " ++ target_path)) ;;
               record_dr_event (Some user_id) "restore_performed"
                 (Some (filename ++ " v" ++ str_of_Z (fe_version entry)
                        ++ " restored to " ++ target_path)) ;;
               try_except
                 (send_alert (u_telegram_chat_id user)
                    ("Restore completed: " ++ filename ++ " (v"
                     ++ str_of_Z (fe_version entry) ++ ") to " ++ target_path) ;;
                  ret tt)
                 (fun _ =>
                    add_log (Some user_id) "alert_failed"
                      (Some ("Failed to send restore completion alert for " ++ filename)) ;;
                    ret tt) ;;
               ret (reply true "Restore completed successfully")
           end
         end
       end
     end)
    (fun e =>
       add_log (Some user_id) "restore_unexpected_error"
         (Some (filename ++ ": " ++ exn_text e)) ;;
       record_dr_event (Some user_id) "restore_failed_unexpected"
         (Some (filename ++ ": " ++ exn_text e)) ;;
       ret (reply false "Unexpected error during restore")).

(** One item of the [restored] list and of the [failed] list. *)
Record Restored := mkRestored {
  rs_filename : string;
  rs_version : Z;
  rs_target : string
}.

Inductive Failed :=
| FileEntryMissing (entry_id : Z)
| FileFailed (filename : string) (version : Z) (reason : string).

Record SnapshotReply := mkSnapshotReply {
  sr_ok : bool;
  sr_message : option string;
  sr_restored : list Restored;
  sr_failed : list Failed
}.

Definition snapshot_refused (m : string) : SnapshotReply :=
  mkSnapshotReply false (Some m) [] [].

(** The body of [for se in entries:] with the two result lists it
    appends to.  (The placeholder query
    [db.get_file_entry(None, None, None)] matches no row and its result
    is overwritten at once.) *)
Definition restore_snapshot_entry (user_id : Z) (target_folder : string)
    (se : SnapshotEntry) (acc : list Restored * list Failed)
    : M (list Restored * list Failed) :=
  let (successes, failures) := acc in
  fe <- get_file_entry_by_id (se_file_entry_id se) ;;
  match fe with
  | None => ret (successes, (failures ++ [FileEntryMissing (se_file_entry_id se)])%list)
  | Some fe =>
    let tgt := path_join target_folder (fe_filename fe) in
    try_except
      (enc_local <- _storage_download_to_temp (fe_storage_path fe) ;;
       decrypt_file enc_local tgt ;;
       modify (rmtree (dirname enc_local)) ;;
       add_log (Some user_id) "snapshot_restore_file"
         (Some ("Restored " ++ fe_filename fe ++ " (v" ++ str_of_Z (fe_version fe)
                ++ ") to " ++ tgt)) ;;
       ret ((successes ++ [mkRestored (fe_filename fe) (fe_version fe) tgt])%list, failures))
      (fun e =>
         add_log (Some user_id) "snapshot_restore_failed"
           (Some (fe_filename fe ++ " v" ++ str_of_Z (fe_version fe) ++ ": " ++ exn_text e)) ;;
         ret (successes,
              (failures ++ [FileFailed (fe_filename fe) (fe_version fe) (exn_text e)])%list))
  end.

Fixpoint restore_snapshot_entries (user_id : Z) (target_folder : string)
    (entries : list SnapshotEntry) (acc : list Restored * list Failed)
    : M (list Restored * list Failed) :=
  match entries with
  | [] => ret acc
  | se :: rest =>
      acc' <- restore_snapshot_entry user_id target_folder se acc ;;
      restore_snapshot_entries user_id target_folder rest acc'
  end.

(** The code check made once, up front: [Some m] is the refusal. *)
Definition snapshot_otp_gate (user_id : Z) (otp_code : option string) : M (option string) :=
  required <- gets REQUIRE_OTP_FOR_SNAPSHOT_RESTORE ;;
  if required then
    if negb (truthy otp_code) then ret (Some "OTP required for snapshot restore")
    else
      otp_rec <- get_valid_otp user_id otp_code ;;
      match otp_rec with
      | None => ret (Some "OTP invalid or expired")
      | Some otp_rec => mark_otp_used (otp_id otp_rec) ;; ret None
      end
  else ret None.

Definition snapshot_restore_details (snapshot_id : Z) (successes : list Restored)
    (failures : list Failed) : string :=
  "Snapshot " ++ str_of_Z snapshot_id ++ " restored: success="
  ++ str_of_Z (Z.of_nat (List.length successes)) ++ " fail="
  ++ str_of_Z (Z.of_nat (List.length failures)).

Definition restore_snapshot (user_id snapshot_id : Z) (target_folder : string)
    (otp_code : option string) : M SnapshotReply :=
  try_except
    (user <- get_user user_id ;;
     match user with
     | None => ret (snapshot_refused "User not found")
     | Some user =>
       refusal <- snapshot_otp_gate user_id otp_code ;;
       match refusal with
       | Some m => ret (snapshot_refused m)
       | None =>
         entries <- get_snapshot_entries snapshot_id ;;
         match entries with
         | [] => ret (snapshot_refused "Snapshot not found or has no entries")
         | _ =>
           res <- restore_snapshot_entries user_id target_folder entries ([], []) ;;
           let (successes, failures) := res : list Restored * list Failed in
           record_dr_event (Some user_id) "snapshot_restore"
             (Some (snapshot_restore_details snapshot_id successes failures)) ;;
           try_except
             (send_alert (u_telegram_chat_id user)
                ("Snapshot restore completed: "
                 ++ str_of_Z (Z.of_nat (List.length successes)) ++ " files restored, "
                 ++ str_of_Z (Z.of_nat (List.length failures)) ++ " failures") ;;
              ret tt)
             (fun _ => ret tt) ;;
           ret (mkSnapshotReply true None successes failures)
         end
       end
     end)
    (fun e =>
       add_log (Some user_id) "snapshot_restore_unexpected" (Some (exn_text e)) ;;
       record_dr_event (Some user_id) "snapshot_restore_failed_unexpected"
         (Some (exn_text e)) ;;
       ret (snapshot_refused "Unexpected error during snapshot restore")).

(** backend/otp.py *)
Definition request (user_id : Z) (purpose : string) : M Reply :=
  try_except
    (user <- get_user user_id ;;
     match user with
     | None => ret (reply false "User not found")
     | Some user =>
       code <- _generate_code ;;
       t <- gets now ;;
       let expiry := t + OTP_EXPIRY_SECONDS in
       otp <- create_otp_record user_id code expiry ;;
       let msg := "OTP for " ++ purpose ++ " Code: " ++ code ++ " Valid for "
                  ++ str_of_Z (OTP_EXPIRY_SECONDS / 60) ++ " minutes." in
       sent <- try_except (send_alert (u_telegram_chat_id user) msg)
                 (fun e =>
                    add_log (Some user_id) "otp_alert_error" (Some (exn_text e)) ;;
                    ret false) ;;
       add_log (Some user_id) "otp_requested"
         (Some ("OTP " ++ str_of_Z (otp_id otp) ++ " for " ++ purpose
                ++ ", sent=" ++ str_of_bool sent)) ;;
       record_dr_event (Some user_id) "otp_issued"
         (Some ("OTP " ++ str_of_Z (otp_id otp) ++ " issued for " ++ purpose
                ++ ", expires=" ++ str_of_Z expiry)) ;;
       if negb sent then ret (reply false "Failed to deliver OTP via Telegram.")
       else if DEBUG_SHOW_OTP
            then ret (mkReply true "OTP sent via Telegram" (Some code))
            else ret (reply true "OTP sent via Telegram")
     end)
    (fun e =>
       add_log (Some user_id) "otp_request_error" (Some (exn_text e)) ;;
       record_dr_event (Some user_id) "otp_request_failed" (Some (exn_text e)) ;;
       ret (reply false "Unexpected error while generating OTP")).

Definition verify (user_id : Z) (code : string) (purpose : string) : M Reply :=
  try_except
    (otp <- get_valid_otp user_id (Some code) ;;
     match otp with
     | None =>
         add_log (Some user_id) "otp_invalid"
           (Some ("Purpose=" ++ purpose ++ ", code=" ++ code)) ;;
         ret (reply false "Invalid or expired OTP")
     | Some otp =>
         mark_otp_used (otp_id otp) ;;
         add_log (Some user_id) "otp_verified"
           (Some ("Purpose=" ++ purpose ++ ", OTP " ++ str_of_Z (otp_id otp) ++ " used")) ;;
         record_dr_event (Some user_id) "otp_used"
           (Some ("OTP " ++ str_of_Z (otp_id otp) ++ " used for " ++ purpose)) ;;
         ret (reply true "OTP verified successfully")
     end)
    (fun e =>
       add_log (Some user_id) "otp_verify_error" (Some (exn_text e)) ;;
       record_dr_event (Some user_id) "otp_verify_failed" (Some (exn_text e)) ;;
       ret (reply false "Unexpected error while verifying OTP")).

(** *** backend/disaster_recovery.py *)

(** [_safe_alert] as the handlers call it, with a numeric user id. *)
Definition _safe_alert (user_id : Z) (text : string) : M bool :=
  try_except
    (user <- get_user user_id ;;
     let chat := match user with
                 | Some user => u_telegram_chat_id user
                 | None => None
                 end in
     sent <- (if truthy chat then send_alert chat text else ret false) ;;
     add_log None "alert_sent"
       (Some ("to=" ++ match chat with Some c => c | None => "None" end
              ++ " text=" ++ String.substring 0 120 text
              ++ " sent=" ++ str_of_bool sent)) ;;
     ret sent)
    (fun e => add_log None "alert_exception" (Some (exn_text e)) ;; ret false).

Definition str_of_version (v : option Z) : string :=
  match v with Some v => str_of_Z v | None => "None" end.

(** The event details are [json.dumps] of the filename, the version and
    the time; they are rendered here without quotes and without the
    time.  Alert texts are kept up to their emoji. *)
Definition handle_corruption_detected (user_id : Z) (filename : string)
    (last_known_good_version : option Z) : M unit :=
  try_except
    (record_dr_event (Some user_id) "corruption_detected"
       (Some ("filename: " ++ filename ++ ", last_good_version: "
              ++ str_of_version last_known_good_version)) ;;
     add_log (Some user_id) "corruption_detected"
       (Some (filename ++ " last_good=" ++ str_of_version last_known_good_version)) ;;
     match last_known_good_version with
     | Some v =>
         try_except
           (res <- perform_restore user_id filename (Some v) filename None ;;
            if ok res then
              record_dr_event (Some user_id) "auto_restore_success"
                (Some (filename ++ " restored to last_good_version " ++ str_of_Z v)) ;;
              _safe_alert user_id
                ("Auto-restore completed for " ++ filename ++ " (v" ++ str_of_Z v
                 ++ "). Check file integrity.") ;;
              ret tt
            else
              record_dr_event (Some user_id) "auto_restore_failed"
                (Some (filename ++ " auto-restore failed: " ++ message res)) ;;
              _safe_alert user_id
                ("Auto-restore failed for " ++ filename ++ ". Manual intervention required.") ;;
              ret tt)
           (fun e =>
              record_dr_event (Some user_id) "auto_restore_exception" (Some (exn_text e)) ;;
              _safe_alert user_id ("Auto-restore exception for " ++ filename ++ ". See logs.") ;;
              ret tt)
     | None =>
         _safe_alert user_id
           ("Corruption detected for " ++ filename ++ " but no previous good version found.") ;;
         ret tt
     end)
    (fun e => add_log (Some user_id) "handle_corruption_error" (Some (exn_text e)) ;; ret tt).

(** The body of [for u in unsynced:] in [_unsynced_uploader_loop]. *)
Definition _unsynced_uploader_item (u : UnsyncedFile) : M unit :=
  try_except
    (let user_id := uf_user_id u in
     let fname := uf_filename u in
     latest <- get_latest_version user_id fname ;;
     let version := latest + 1 in
     storage_path <- upload_file user_id fname version (uf_local_path u) ;;
     fe <- add_file_entry user_id fname version storage_path None ;;
     snap <- create_snapshot user_id
               (Some (fname ++ "-v" ++ str_of_Z version ++ "-recover"))
               (Some "Recovered unsynced upload") ;;
     add_snapshot_entry (sn_id snap) (fe_id fe) ;;
     enqueue_replication (fe_id fe) storage_path ;;
     add_log (Some user_id) "unsynced_upload_success"
       (Some (uf_local_path u ++ " -> " ++ storage_path)) ;;
     ret tt)
    (fun e =>
       try_except
         (add_unsynced_file (uf_user_id u) (uf_local_path u) (uf_filename u) ;; ret tt)
         (fun _ => ret tt) ;;
       add_log (Some (uf_user_id u)) "unsynced_upload_failed" (Some (exn_text e)) ;;
       record_dr_event (Some (uf_user_id u)) "unsynced_upload_failed" (Some (exn_text e)) ;;
       ret tt).

(** One trip round [while True:] in [_unsynced_uploader_loop]: pop a
    batch of at most 20, then the [for] loop ([time.sleep] changes
    nothing here). *)
Definition _unsynced_uploader_pass : M unit :=
  unsynced <- pop_unsynced_files 20 ;;
  for_each unsynced _unsynced_uploader_item.

(** The worker as a machine that can be observed (or stopped) between
    any two database commits of interest: it is either about to poll,
    or inside the [for] loop holding the rest of the popped batch in
    memory. *)
Inductive Worker :=
| Polling
| Uploading (batch : list UnsyncedFile).

Definition worker_step (c : World * Worker) : World * Worker :=
  match c with
  | (w, Polling) =>
      match pop_unsynced_files 20 w with
      | (Ok rows, w') => (w', Uploading rows)
      | (Raise _, w') => (w', Polling)
      end
  | (w, Uploading []) => (w, Polling)
  | (w, Uploading (u :: rest)) => (snd (_unsynced_uploader_item u w), Uploading rest)
  end.

Inductive worker_reach (c0 : World * Worker) : World * Worker -> Prop :=
| reach_start : worker_reach c0 c0
| reach_step c : worker_reach c0 c -> worker_reach c0 (worker_step c).

End Backend.

(* ================================================================== *)
(** ** Scenarios

    A stand-in cipher (a one-byte header), a stand-in digest, and small
    worlds on which the operations are run. *)

Definition toy_encrypt (b : bytes) : bytes := Byte.x01 :: b.

Definition toy_decrypt (b : bytes) : option bytes :=
  match b with
  | Byte.x01 :: r => Some r
  | _ => None
  end.

Definition toy_sha256 (b : bytes) : string := str_of_Z (Z.of_nat (List.length b)).

Definition alice : User := mkUser 1 "alice@example.org" "pw" (Some "chat-1").
Definition bob : User := mkUser 2 "bob@example.org" "pw" (Some "chat-2").

(** Two users, a file of Alice's on disk, nothing backed up yet. *)
Definition w_fresh : World :=
  mkWorld [alice; bob] [] [] [] [] [] [] [] []
    [("/home/alice/report.docx", list_byte_of_string "hello")]
    0 1000 (fun _ => false) (fun _ _ => AlertSent) true "123456".

(** What a call answers and the world it leaves. *)
Definition outcome {A} (m : M A) (w : World) : Result A := fst (m w).
Definition after {A} (m : M A) (w : World) : World := snd (m w).

(** The call returned a reply with [ok = True]. *)
Definition accepted (x : Result Reply) : bool :=
  match x with
  | Ok r => ok r
  | Raise _ => false
  end.

(** The call returned a reply with [ok = False] and this message. *)
Definition refusal (x : Result Reply) : option string :=
  match x with
  | Ok r => if ok r then None else Some (message r)
  | Raise _ => None
  end.

(** *** One-time codes: the reading with a strict expiry *)

(** Some stored code of the user matches, is unused, and the clock is
    strictly before its expiry. *)
Definition otp_strictly_valid (w : World) (user_id : Z) (code : string) : Prop :=
  exists o, In o (otps w) /\ otp_user_id o = user_id /\ otp_code o = code
            /\ otp_used o = false /\ now w < otp_expiry o.

Definition verify_accepts (w : World) (user_id : Z) (code : string) : Prop :=
  accepted (outcome (verify user_id code "restore") w) = true.

(** Alice holds one unused code that expires at this very second. *)
Definition w_code_at_expiry : World :=
  set_otps [mkOTP 1 1 "123456" 1000 false] w_fresh.

(** Alice holds one unused code with time to spare. *)
Definition w_code_valid : World :=
  set_otps [mkOTP 1 1 "123456" 1300 false] w_fresh.

(** *** Pruning: the reading with a soft delete *)

(** Every row whose locator the prune step returns is still in the
    table, with its [deleted] flag set. *)
Definition prune_soft_deletes (w : World) (user_id : Z) (filename : string) (keep : Z) : Prop :=
  match outcome (prune_old_versions user_id filename keep) w with
  | Ok removed =>
      forall r, In r removed ->
        exists e, In e (files (after (prune_old_versions user_id filename keep) w))
                  /\ fe_id e = fst r /\ fe_deleted e = true
  | Raise _ => False
  end.

Definition report_v (id version : Z) : FileEntry :=
  mkFileEntry id 1 "report.docx" version
    ("./nas_storage/user_1/report.docx.v" ++ str_of_Z version ++ ".enc")
    (Some "6") false false false.

(** Alice's report.docx has just been registered a fourth time. *)
Definition w_four_versions : World :=
  set_files [report_v 1 1; report_v 2 2; report_v 3 3; report_v 4 4] w_fresh.

(** *** Sequential backups of one file *)

(** [a; a+1; ...], [n] numbers. *)
Fixpoint count_from (a : Z) (n : nat) : list Z :=
  match n with
  | O => []
  | S n => a :: count_from (a + 1) n
  end.

(** A run of successful backups of [(user_id, filename)], one after the
    other, with the versions they were given.  Between two backups the
    world may change in any way that leaves the file table alone (the
    source is edited, time passes, codes are issued). *)
Inductive backup_run (encrypt : bytes -> bytes) (sha256_hex : bytes -> string)
    (user_id : Z) (filename : string) : World -> list Z -> World -> Prop :=
| run_done w : backup_run encrypt sha256_hex user_id filename w [] w
| run_backup w path fe w1 w1' vs w2 :
    basename path = filename ->
    perform_manual_backup encrypt sha256_hex user_id path w = (Ok fe, w1) ->
    files w1' = files w1 ->
    backup_run encrypt sha256_hex user_id filename w1' vs w2 ->
    backup_run encrypt sha256_hex user_id filename w (fe_version fe :: vs) w2.

(** The world after [n] backups of Alice's report.docx in a row. *)
Fixpoint backed_up (n : nat) : World :=
  match n with
  | O => w_fresh
  | S n => after (perform_manual_backup toy_encrypt toy_sha256 1 "/home/alice/report.docx")
             (backed_up n)
  end.

(** *** Upload failure *)

(** Where [perform_manual_backup] writes the encrypted copy before the
    upload: [<mkdtemp>/<basename>.enc]. *)
Definition backup_tmp_path (w : World) (file_path : string) : string :=
  path_join ("/tmp/" ++ "fyp_enc_" ++ str_of_Z (tmp_counter w))
    (basename file_path ++ ".enc").

(** [w_fresh] with the primary Blob Store refusing every write. *)
Definition w_primary_down : World :=
  mkWorld [alice; bob] [] [] [] [] [] [] [] []
    [("/home/alice/report.docx", list_byte_of_string "hello")]
    0 1000 (fun p => String.prefix "./nas_storage" p) (fun _ _ => AlertSent) true "123456".

(** *** The crash-recovery worker against a direct backup *)

Definition without_checksum (e : FileEntry) : FileEntry :=
  mkFileEntry (fe_id e) (fe_user_id e) (fe_filename e) (fe_version e)
    (fe_storage_path e) None (fe_deleted e) (fe_suspected_ransomware e) (fe_corrupted e).

(** The reading in which the worker replays the whole pipeline: after
    it has processed the item, the file table, the snapshot links, the
    replication queue and the blobs of the registered entries are those a
    direct backup of the same path leaves. *)
Definition uploader_replays_backup (encrypt : bytes -> bytes) (sha256_hex : bytes -> string)
    (w : World) (u : UnsyncedFile) : Prop :=
  let ww := after (_unsynced_uploader_item u) w in
  let wb := after (perform_manual_backup encrypt sha256_hex (uf_user_id u) (uf_local_path u)) w in
  files ww = files wb
  /\ snapshot_entries ww = snapshot_entries wb
  /\ replication_queue ww = replication_queue wb
  /\ forall e, In e (files ww) ->
       fs_lookup (fe_storage_path e) (fs ww) = fs_lookup (fe_storage_path e) (fs wb).

(** The pending upload of Alice's report.docx, as popped from the
    queue. *)
Definition pending_report : UnsyncedFile :=
  mkUnsyncedFile 1 1 "/home/alice/report.docx" "report.docx" 0.

(** *** Notification failures and automated restores *)

(** [w_fresh] with a notification channel that raises. *)
Definition w_alerts_raise : World :=
  mkWorld [alice; bob] [] [] [] [] [] [] [] []
    [("/home/alice/report.docx", list_byte_of_string "hello")]
    0 1000 (fun _ => false) (fun _ _ => AlertRaises) true "123456".

(** Alice's report.docx backed up once, then damaged on disk. *)
Definition w_corrupted : World :=
  set_fs (fs_put "report.docx" (list_byte_of_string "garbage") (fs (backed_up 1)))
    (backed_up 1).

Definition event_types (w : World) : list string := map ev_event_type (drevents w).

(** *** Snapshot restore *)

Definition doc (id owner : Z) (name : string) : FileEntry :=
  mkFileEntry id owner name 1
    ("./nas_storage/user_" ++ str_of_Z owner ++ "/" ++ name ++ ".v1.enc")
    None false false false.

(** Alice's snapshot 1 groups a.txt, b.txt and c.txt; the blob of b.txt
    is missing from the store.  Alice holds a valid code. *)
Definition w_snapshot3 : World :=
  mkWorld [alice; bob]
    [doc 1 1 "a.txt"; doc 2 1 "b.txt"; doc 3 1 "c.txt"]
    [mkSnapshot 1 1 (Some "set") None]
    [mkSnapshotEntry 1 1 1; mkSnapshotEntry 2 1 2; mkSnapshotEntry 3 1 3]
    [mkOTP 1 1 "123456" 1300 false]
    [] [] [] []
    [("./nas_storage/user_1/a.txt.v1.enc", toy_encrypt (list_byte_of_string "A"));
     ("./nas_storage/user_1/c.txt.v1.enc", toy_encrypt (list_byte_of_string "C"))]
    0 1000 (fun _ => false) (fun _ _ => AlertSent) true "654321".

(** Snapshot 1 is Bob's and groups Bob's secret.txt; Alice holds a valid
    code of her own. *)
Definition w_bobs_snapshot : World :=
  mkWorld [alice; bob]
    [doc 1 2 "secret.txt"]
    [mkSnapshot 1 2 (Some "bob-set") None]
    [mkSnapshotEntry 1 1 1]
    [mkOTP 1 1 "123456" 1300 false]
    [] [] [] []
    [("./nas_storage/user_2/secret.txt.v1.enc", toy_encrypt (list_byte_of_string "bob's"))]
    0 1000 (fun _ => false) (fun _ _ => AlertSent) true "654321".

(** The snapshot [snapshot_id] handed to another owner. *)
Definition set_snapshot_owner (snapshot_id owner : Z) (w : World) : World :=
  set_snapshots
    (map (fun s => if sn_id s =? snapshot_id
                   then mkSnapshot (sn_id s) owner (sn_name s) (sn_description s)
                   else s) (snapshots w)) w.

(** A computation that neither reads nor writes the snapshot table. *)
Definition ignores_snapshots {A} (m : M A) : Prop :=
  forall s w, m (set_snapshots s w) = (fst (m w), set_snapshots s (snd (m w))).

(** [w_bobs_snapshot] with the snapshot-code policy switched off and no
    code stored. *)
Definition w_bobs_snapshot_open : World :=
  mkWorld [alice; bob]
    [doc 1 2 "secret.txt"]
    [mkSnapshot 1 2 (Some "bob-set") None]
    [mkSnapshotEntry 1 1 1]
    []
    [] [] [] []
    [("./nas_storage/user_2/secret.txt.v1.enc", toy_encrypt (list_byte_of_string "bob's"))]
    0 1000 (fun _ => false) (fun _ _ => AlertSent) false "654321".

(** *** The crash-recovery worker as a machine *)

(** What the worker holds in memory only. *)
Definition in_flight (st : Worker) : list UnsyncedFile :=
  match st with
  | Polling => []
  | Uploading batch => batch
  end.

(** The obligation of item [u] is in the queue. *)
Definition queued (u : UnsyncedFile) (w : World) : Prop :=
  exists r, In r (unsynced_files w)
            /\ uf_user_id r = uf_user_id u
            /\ uf_local_path r = uf_local_path u
            /\ uf_filename r = uf_filename u.

(** A FileEntry for the file of item [u] has been registered since
    [w0]. *)
Definition registered_since (w0 : World) (u : UnsyncedFile) (w : World) : Prop :=
  exists fe, In fe (files w) /\ ~ In fe (files w0)
             /\ fe_user_id fe = uf_user_id u /\ fe_filename fe = uf_filename u.

(** The reading in which an item leaves the queue only once its result
    is recorded: in every state the worker reaches from [w0], every item
    queued in [w0] is in the queue or registered. *)
Definition never_lost (w0 : World) : Prop :=
  forall w st u,
    worker_reach (w0, Polling) (w, st) ->
    In u (unsynced_files w0) ->
    queued u w \/ registered_since w0 u w.

(** Alice's report.docx waits in the queue. *)
Definition w_pending : World := set_unsynced_files [pending_report] w_fresh.

(** What is conserved, step after step: queued rows, items in flight
    and registered entries add up to what there was in [w0], and the
    queue keeps distinct primary keys. *)
Definition obligations_conserved (w0 : World) (c : World * Worker) : Prop :=
  (List.length (unsynced_files (fst c)) + List.length (in_flight (snd c))
   + List.length (files (fst c))
   = List.length (unsynced_files w0) + List.length (files w0))%nat
  /\ NoDup (map uf_id (unsynced_files (fst c))).


(* ================================================================== *)
(** ** More of the backend: users, flags, replication, DR handlers *)

From Stdlib Require Import DecimalPos DecimalZ.

Definition set_users (x : list User) (w : World) : World :=
  mkWorld x (files w) (snapshots w) (snapshot_entries w) (otps w) (logs w)
    (drevents w) (replication_queue w) (unsynced_files w) (fs w)
    (tmp_counter w) (now w) (unwritable w) (alert_channel w)
    (REQUIRE_OTP_FOR_SNAPSHOT_RESTORE w) (random_code w).

(** *** backend/db.py *)

Definition create_user (email password_hash : string) (telegram_chat_id : option string)
    : M User :=
  fun w =>
    match find (fun u => String.eqb (u_email u) email) (users w) with
    | Some _ => (Raise (ValueError "User already exists"), w)
    | None =>
        let user := mkUser (next_id (map u_id (users w))) email password_hash
                      telegram_chat_id in
        (Ok user, set_users (users w ++ [user]) w)
    end.

Definition get_user_by_email (email : string) : M (option User) :=
  gets (fun w => find (fun u => String.eqb (u_email u) email) (users w)).

Definition set_user_telegram_chat_id (user_id : Z) (chat_id : string) : M bool :=
  fun w =>
    match find (fun u => u_id u =? user_id) (users w) with
    | None => (Ok false, w)
    | Some _ =>
        (Ok true,
         set_users (map (fun u => if u_id u =? user_id
                                  then mkUser (u_id u) (u_email u) (u_password_hash u)
                                         (Some chat_id)
                                  else u) (users w)) w)
    end.

Definition with_corrupted (e : FileEntry) : FileEntry :=
  mkFileEntry (fe_id e) (fe_user_id e) (fe_filename e) (fe_version e)
    (fe_storage_path e) (fe_checksum e) (fe_deleted e) (fe_suspected_ransomware e) true.

Definition with_suspected (e : FileEntry) : FileEntry :=
  mkFileEntry (fe_id e) (fe_user_id e) (fe_filename e) (fe_version e)
    (fe_storage_path e) (fe_checksum e) (fe_deleted e) true (fe_corrupted e).

Definition mark_file_corrupted (file_entry_id : Z) : M bool :=
  fun w =>
    match find (fun e => fe_id e =? file_entry_id) (files w) with
    | None => (Ok false, w)
    | Some _ =>
        (Ok true,
         set_files (map (fun e => if fe_id e =? file_entry_id then with_corrupted e else e)
                      (files w)) w)
    end.

Definition mark_file_suspected_ransom (file_entry_id : Z) : M bool :=
  fun w =>
    match find (fun e => fe_id e =? file_entry_id) (files w) with
    | None => (Ok false, w)
    | Some _ =>
        (Ok true,
         set_files (map (fun e => if fe_id e =? file_entry_id then with_suspected e else e)
                      (files w)) w)
    end.

(** [filter_by(replicated=False).order_by(created_at.asc()).limit(limit)];
    nothing is removed. *)
Definition pop_replication_candidates (limit : nat) : M (list ReplicationQueue) :=
  gets (fun w => firstn limit (filter (fun r => negb (rq_replicated r)) (replication_queue w))).

(** The row model carries no [last_attempt_at]; the two updates below
    also stamp it, and nothing reads it. *)
Definition mark_replicated (replication_id : Z) : M bool :=
  fun w =>
    match find (fun r => rq_id r =? replication_id) (replication_queue w) with
    | None => (Ok false, w)
    | Some _ =>
        (Ok true,
         set_replication_queue
           (map (fun r => if rq_id r =? replication_id
                          then mkReplicationQueue (rq_id r) (rq_file_entry_id r)
                                 (rq_storage_path r) (rq_attempted r) true
                          else r) (replication_queue w)) w)
    end.

Definition record_replication_attempt (replication_id : Z) : M unit :=
  fun w =>
    match find (fun r => rq_id r =? replication_id) (replication_queue w) with
    | None => (Ok tt, w)
    | Some _ =>
        (Ok tt,
         set_replication_queue
           (map (fun r => if rq_id r =? replication_id
                          then mkReplicationQueue (rq_id r) (rq_file_entry_id r)
                                 (rq_storage_path r) (rq_attempted r + 1) (rq_replicated r)
                          else r) (replication_queue w)) w)
    end.

(** *** Paths as [pathlib] reads them *)

Fixpoint split_sep (s acc : string) : list string :=
  match s with
  | EmptyString => [acc]
  | String c rest =>
      if Ascii.eqb c "/"%char then acc :: split_sep rest EmptyString
      else split_sep rest (acc ++ String c EmptyString)
  end.

(** [Path(p).parts] without the root: the components between slashes,
    empty ones and ["."] dropped. *)
Definition path_parts (p : string) : list string :=
  filter (fun c => negb (String.eqb c "") && negb (String.eqb c "."))
    (split_sep p EmptyString).

(** [Path(p).name] *)
Definition path_name (p : string) : string := last (path_parts p) "".

Section Replication.

(** [getattr(settings, "SECONDARY_STORAGE_PATH", None)]: the settings
    module as shipped defines no such name, so the value is [None] there;
    it is kept as a parameter.  [SECONDARY_SFTP] is likewise absent from
    the settings and is taken as [None]: [_replicate_to_sftp] then
    returns [False] at once. *)
Variable SECONDARY_STORAGE : option string.

Definition secondary_dest (sec storage_path : string) : string :=
  let user_dir :=
    match find (String.prefix "user_") (path_parts storage_path) with
    | Some user_seg => path_join sec user_seg
    | None => sec
    end in
  path_join user_dir (path_name storage_path).

(** [shutil.copy2] refuses to copy a file onto itself
    ([SameFileError], an [OSError]); the handler turns that into
    [False] like any other failure. *)
Definition _replicate_to_local_secondary (storage_path : string) : M bool :=
  match SECONDARY_STORAGE with
  | Some sec =>
      if truthy SECONDARY_STORAGE then
        try_except
          (let dest := secondary_dest sec storage_path in
           (if String.eqb storage_path dest
            then raise (OSError (storage_path ++ " and " ++ dest ++ " are the same file"))
            else copy2 storage_path dest) ;;
           ret true)
          (fun _ => ret false)
      else ret false
  | None => ret false
  end.

Definition _replicate_to_sftp (storage_path : string) : M bool := ret false.

Definition _replicate_blob (storage_path : string) : M bool :=
  ok1 <- (if truthy SECONDARY_STORAGE then _replicate_to_local_secondary storage_path
          else ret false) ;;
  if ok1 then ret true else ret false.

(** The body of [for r in candidates:] in
    [disaster_recovery._replication_recovery_loop]. *)
Definition _replication_recovery_item (r : ReplicationQueue) : M unit :=
  try_except
    (let rid := rq_id r in
     let spath := rq_storage_path r in
     record_replication_attempt rid ;;
     ok <- try_except (_replicate_blob spath) (fun _ => ret false) ;;
     if ok then
       mark_replicated rid ;;
       add_log None "replication_success"
         (Some (spath ++ " replication_id=" ++ str_of_Z rid)) ;;
       ret tt
     else
       add_log None "replication_failed"
         (Some (spath ++ " replication_id=" ++ str_of_Z rid)) ;;
       ret tt)
    (fun e => add_log None "replication_candidate_exception" (Some (exn_text e)) ;; ret tt).

(** One trip round [while True:] in [_replication_recovery_loop]. *)
Definition _replication_recovery_pass : M unit :=
  candidates <- pop_replication_candidates 20 ;;
  for_each candidates _replication_recovery_item.

End Replication.

(** *** backend/disaster_recovery.py: handlers *)

(** The evidence dictionary: its ["files"] list ([[]] when the key is
    absent) and its ["reason"]. *)
Record Evidence := mkEvidence {
  evidence_files : list string;
  evidence_reason : string
}.

(** [json.dumps(evidence, default=str)], rendered without quotes. *)
Definition evidence_text (ev : Evidence) : string :=
  "files: [" ++ String.concat ", " (evidence_files ev) ++ "], reason: " ++ evidence_reason ev.

(** The body of [for f in files:] in [detect_and_respond_ransomware]. *)
Definition defensive_snapshot_file (user_id snapshot_id : Z) (f : string) : M unit :=
  let fname := basename f in
  entries <- get_file_entries user_id (Some fname) ;;
  match entries with
  | [] => ret tt
  | latest :: _ =>
      add_snapshot_entry snapshot_id (fe_id latest) ;;
      mark_file_suspected_ransom (fe_id latest) ;;
      ret tt
  end.

Definition ransomware_alert_text : string :=
  "Ransomware-suspected activity detected on your device. Actions taken: - Defensive snapshot created (safe copy preserved). - Suspected files flagged for investigation. - Automated restore options are available in the DR console. Please do NOT shut down your machine until you read instructions. Contact support if unsure.".

Definition detect_and_respond_ransomware (user_id : Z) (evidence : Evidence) : M unit :=
  try_except
    (let details := evidence_text evidence in
     record_dr_event (Some user_id) "ransomware_detected" (Some details) ;;
     add_log (Some user_id) "ransomware_detected" (Some details) ;;
     try_except
       (t <- gets now ;;
        snap <- create_snapshot user_id (Some "defensive-ransom-snap")
                  (Some ("Defensive snap at " ++ str_of_Z t)) ;;
        for_each (evidence_files evidence) (defensive_snapshot_file user_id (sn_id snap)) ;;
        add_log (Some user_id) "defensive_snapshot_created"
          (Some ("snapshot_id=" ++ str_of_Z (sn_id snap) ++ " for ransomware")) ;;
        ret tt)
       (fun e =>
          add_log (Some user_id) "defensive_snapshot_failed" (Some (exn_text e)) ;;
          ret tt) ;;
     _safe_alert user_id ransomware_alert_text ;;
     ret tt)
    (fun e => add_log (Some user_id) "ransomware_response_error" (Some (exn_text e)) ;; ret tt).

(** [{"ok": .., "message": ..}] or [{"ok": True, "result": res}]. *)
Record DrillReply := mkDrillReply {
  drill_ok : bool;
  drill_message : option string;
  drill_result : option SnapshotReply
}.

(** [json.dumps] of a restore summary, rendered without quotes like the
    other details. *)
Definition restored_text (r : Restored) : string :=
  "{filename: " ++ rs_filename r ++ ", version: " ++ str_of_Z (rs_version r)
  ++ ", target: " ++ rs_target r ++ "}".

Definition failed_text (f : Failed) : string :=
  match f with
  | FileEntryMissing entry_id =>
      "{entry_id: " ++ str_of_Z entry_id ++ ", reason: File entry missing}"
  | FileFailed filename version reason =>
      "{filename: " ++ filename ++ ", version: " ++ str_of_Z version
      ++ ", reason: " ++ reason ++ "}"
  end.

Definition snapshot_reply_text (res : SnapshotReply) : string :=
  if sr_ok res then
    "{ok: true, restored: [" ++ String.concat ", " (map restored_text (sr_restored res))
    ++ "], failed: [" ++ String.concat ", " (map failed_text (sr_failed res)) ++ "]}"
  else
    "{ok: false, message: "
    ++ match sr_message res with Some m => m | None => "null" end ++ "}".

Section Recovery.

Variable decrypt : bytes -> option bytes.

Definition run_dr_drill (user_id : Z) (target_restore_folder : string) : M DrillReply :=
  try_except
    (snaps <- get_snapshots user_id 10 ;;
     match snaps with
     | [] => ret (mkDrillReply false (Some "No snapshots available for user") None)
     | latest_snap :: _ =>
         add_log (Some user_id) "dr_drill_start"
           (Some ("Drill using snapshot " ++ str_of_Z (sn_id latest_snap))) ;;
         res <- restore_snapshot decrypt user_id (sn_id latest_snap)
                  target_restore_folder None ;;
         record_dr_event (Some user_id) "dr_drill_completed"
           (Some ("{snapshot_id: " ++ str_of_Z (sn_id latest_snap) ++ ", result: "
                  ++ snapshot_reply_text res ++ "}")) ;;
         ret (mkDrillReply true None (Some res))
     end)
    (fun e =>
       add_log (Some user_id) "dr_drill_exception" (Some (exn_text e)) ;;
       record_dr_event (Some user_id) "dr_drill_failed" (Some (exn_text e)) ;;
       ret (mkDrillReply false (Some "DR drill failed; see logs") None)).

Definition message_text (m : option string) : string :=
  match m with Some m => m | None => "None" end.

Definition recover_device_from_nas (user_id : Z) (restore_folder : string) : M SnapshotReply :=
  try_except
    (snaps <- get_snapshots user_id 10 ;;
     match snaps with
     | [] =>
         add_log (Some user_id) "recover_no_snapshots" (Some "No snapshots available") ;;
         ret (snapshot_refused "No snapshots available to restore")
     | latest :: _ =>
         add_log (Some user_id) "recover_start"
           (Some ("Recovering snapshot " ++ str_of_Z (sn_id latest) ++ " into "
                  ++ restore_folder)) ;;
         res <- restore_snapshot decrypt user_id (sn_id latest) restore_folder None ;;
         if sr_ok res then
           record_dr_event (Some user_id) "device_recovered"
             (Some ("Snapshot " ++ str_of_Z (sn_id latest) ++ " restored to "
                    ++ restore_folder)) ;;
           _safe_alert user_id
             ("Device recovery completed. Snapshot " ++ str_of_Z (sn_id latest)
              ++ " restored to " ++ restore_folder) ;;
           ret (mkSnapshotReply true None (sr_restored res) (sr_failed res))
         else
           record_dr_event (Some user_id) "device_recover_failed"
             (Some (str_of_Z (sn_id latest) ++ " " ++ message_text (sr_message res))) ;;
           _safe_alert user_id
             ("Device recovery failed: " ++ message_text (sr_message res)) ;;
           ret (mkSnapshotReply false (sr_message res) [] [])
     end)
    (fun e =>
       add_log (Some user_id) "recover_exception" (Some (exn_text e)) ;;
       record_dr_event (Some user_id) "device_recover_exception" (Some (exn_text e)) ;;
       ret (snapshot_refused "Unexpected error during device recovery")).

End Recovery.

(** *** The file table's constraints *)

(** The columns of [uq_user_filename_version]. *)
Definition entry_key (e : FileEntry) : Z * string * Z :=
  (fe_user_id e, fe_filename e, fe_version e).

(** Primary keys are distinct and so are the unique-constraint keys. *)
Definition store_wf (w : World) : Prop :=
  NoDup (map fe_id (files w)) /\ NoDup (map entry_key (files w)).

Definition with_deleted (e : FileEntry) : FileEntry :=
  mkFileEntry (fe_id e) (fe_user_id e) (fe_filename e) (fe_version e)
    (fe_storage_path e) (fe_checksum e) true (fe_suspected_ransomware e) (fe_corrupted e).

(** Alice's report.docx backed up three times, version 3 then flagged
    deleted. *)
Definition w_newest_flagged : World := after (delete_file_entry 3) (backed_up 3).

(** *** Restore paths *)

(** Where [_storage_download_to_temp] puts the downloaded blob:
    [<mkdtemp>/<basename>.enc]. *)
Definition restore_tmp_path (w : World) (storage_path : string) : string :=
  path_join ("/tmp/" ++ "fyp_restore_" ++ str_of_Z (tmp_counter w))
    (replace_sep (basename storage_path) ++ ".enc").

(** The live row [get_file_entry] returns for a key. *)
Definition live_entry (w : World) (user_id : Z) (filename : string) (version : Z)
    : option FileEntry :=
  find (fun e => same_key user_id filename version e && negb (fe_deleted e)) (files w).

(** The code row a check of [(user, code)] looks at. *)
Definition first_code (w : World) (user_id : Z) (code : string) : option OTP :=
  find (otp_match user_id (Some code)) (otps w).

(** [backed_up 1] with a valid code for Alice. *)
Definition w_backed_up_with_code : World :=
  set_otps [mkOTP 1 1 "123456" 1300 false] (backed_up 1).

(** The same with the blob of version 1 lost from the primary store. *)
Definition w_blob_lost : World :=
  set_fs (fs_remove "./nas_storage/user_1/report.docx.v1.enc" (fs w_backed_up_with_code))
    w_backed_up_with_code.

(** The code row [request] and [start_restore_request] store. *)
Definition issued_code (w : World) (user_id : Z) : OTP :=
  mkOTP (next_id (map otp_id (otps w))) user_id (random_code w)
    (now w + OTP_EXPIRY_SECONDS) false.

(** Alice has one snapshot with no entries and holds a valid code. *)
Definition w_empty_snapshot : World :=
  mkWorld [alice; bob] [] [mkSnapshot 1 1 (Some "empty") None] []
    [mkOTP 1 1 "123456" 1300 false]
    [] [] [] [] [] 0 1000 (fun _ => false) (fun _ _ => AlertSent) true "654321".

(** The snapshots a drill or a recovery chooses from, newest first. *)
Definition recent_snapshots (w : World) (user_id : Z) : list Snapshot :=
  firstn 10 (rev (filter (fun s => sn_user_id s =? user_id) (snapshots w))).

(** What [restore_snapshot] answers a call without a code while the
    policy is on. *)
Definition codeless_refusal (w : World) (user_id : Z) : SnapshotReply :=
  match find (fun u => u_id u =? user_id) (users w) with
  | Some _ => snapshot_refused "OTP required for snapshot restore"
  | None => snapshot_refused "User not found"
  end.

Definition code_spent (id : Z) (w : World) : Prop :=
  forall o, In o (otps w) -> otp_id o = id -> otp_used o = true.

(** The user table's constraints: primary keys and e-mail addresses are
    distinct. *)
Definition users_wf (w : World) : Prop :=
  NoDup (map u_id (users w)) /\ NoDup (map u_email (users w)).

(** *** What the ransomware response may change *)

(** A row is as it was, or has had its suspected flag set. *)
Definition flag_only (e e' : FileEntry) : Prop := e' = e \/ e' = with_suspected e.

(** The snapshot entry names a live row of the user that is flagged
    suspected. *)
Definition linked_suspect (w : World) (user_id : Z) (se : SnapshotEntry) : Prop :=
  exists e, In e (files w) /\ fe_id e = se_file_entry_id se /\ fe_user_id e = user_id
            /\ fe_deleted e = false /\ fe_suspected_ransomware e = true.

(** Two worlds that differ in the file table and the snapshot entries
    only. *)
Definition same_but_files_and_links (w w' : World) : Prop :=
  set_files [] (set_snapshot_entries [] w') = set_files [] (set_snapshot_entries [] w).

(** Alice's three documents, two of them named in the evidence. *)
Definition w_three_docs : World :=
  mkWorld [alice; bob]
    [doc 1 1 "a.txt"; doc 2 1 "b.txt"; doc 3 1 "c.txt"]
    [] [] [] [] [] [] []
    [("./nas_storage/user_1/a.txt.v1.enc", toy_encrypt (list_byte_of_string "A"))]
    0 1000 (fun _ => false) (fun _ _ => AlertSent) true "654321".

Definition evidence_ac : Evidence :=
  mkEvidence ["/home/alice/a.txt"; "/home/alice/c.txt"; "/home/alice/zzz.txt"]
    "mass_modification".

(** *** What a replication pass may change *)

(** No path that held a file has lost it. *)
Definition fs_grows (l l' : list (string * bytes)) : Prop :=
  forall p, is_some (fs_lookup p l) = true -> is_some (fs_lookup p l') = true.

(** A queue row before and after a pass over the tasks [batch]: a task
    of the batch has one more attempt and is marked replicated only if a
    copy of its blob is in the secondary store of the world [w'];
    any other row is as it was. *)
Definition replication_step (sec : option string) (batch : list Z) (w' : World)
    (r r' : ReplicationQueue) : Prop :=
  (In (rq_id r) batch ->
     rq_id r' = rq_id r /\ rq_file_entry_id r' = rq_file_entry_id r
     /\ rq_storage_path r' = rq_storage_path r
     /\ rq_attempted r' = rq_attempted r + 1
     /\ (rq_replicated r' = true ->
         exists s, sec = Some s
           /\ is_some (fs_lookup (secondary_dest s (rq_storage_path r)) (fs w')) = true))
  /\ (~ In (rq_id r) batch -> r' = r).

(** The tasks a pass picks up. *)
Definition replication_batch (w : World) : list ReplicationQueue :=
  firstn 20 (filter (fun r => negb (rq_replicated r)) (replication_queue w)).

(** Three replication tasks: the blob of the first is in the primary
    store, the blob of the second is not, the third is done. *)
Definition w_replication : World :=
  mkWorld [alice; bob] [doc 1 1 "a.txt"; doc 2 1 "b.txt"; doc 3 1 "c.txt"] [] [] [] [] []
    [mkReplicationQueue 1 1 "./nas_storage/user_1/a.txt.v1.enc" 0 false;
     mkReplicationQueue 2 2 "./nas_storage/user_1/b.txt.v1.enc" 4 false;
     mkReplicationQueue 3 3 "./nas_storage/user_1/c.txt.v1.enc" 1 true]
    []
    [("./nas_storage/user_1/a.txt.v1.enc", toy_encrypt (list_byte_of_string "A"))]
    0 1000 (fun _ => false) (fun _ _ => AlertSent) true "654321".

(** *** backend/backup_manager.py: the monitor's entry point *)

Section FileEvents.

Variable encrypt : bytes -> bytes.
Variable sha256_hex : bytes -> string.

(** [int(user_email)]: [None] where Python raises [ValueError]. *)
Variable int_of_text : string -> option Z.

(** The user is looked up by e-mail, then by numeric id.  A numeric id
    that names no user leaves [user] at [None], and [user.id] then raises
    outside every handler (an [AttributeError], carried here as a
    [RuntimeError] with its text). *)
Definition handle_file_event (user_email file_path event_type : string) : M unit :=
  by_email <- get_user_by_email user_email ;;
  resolved <-
    match by_email with
    | Some user => ret (Some (Some user))
    | None =>
        match int_of_text user_email with
        | Some uid => user <- get_user uid ;; ret (Some user)
        | None =>
            add_log None "handle_event_error"
              (Some ("user not found for event on " ++ file_path)) ;;
            ret None
        end
    end ;;
  match resolved with
  | None => ret tt
  | Some None => raise (RuntimeError "'NoneType' object has no attribute 'id'")
  | Some (Some user) =>
      let user_id := u_id user in
      try_except
        (if String.eqb event_type "created" || String.eqb event_type "modified" then
           try_except
             (perform_manual_backup encrypt sha256_hex user_id file_path ;; ret tt)
             (fun e =>
                add_log (Some user_id) "backup_error"
                  (Some ("Backup failed for " ++ file_path ++ ": " ++ exn_text e)) ;;
                ret tt)
         else if String.eqb event_type "deleted" then
           add_log (Some user_id) "file_deleted_event" (Some file_path) ;;
           send_alert (u_telegram_chat_id user) ("File deleted: " ++ file_path) ;;
           entries <- get_file_entries user_id (Some (basename file_path)) ;;
           match entries with
           | [] => ret tt
           | _ :: _ =>
               record_dr_event (Some user_id) "auto_restore_attempt"
                 (Some ("Auto-restore last version of " ++ file_path)) ;;
               ret tt
           end
         else ret tt)
        (fun e =>
           add_log (Some user_id) "handle_event_exception"
             (Some (file_path ++ " event " ++ event_type ++ ": " ++ exn_text e)) ;;
           ret tt)
  end.

End FileEvents.

(** Two worlds that differ in the log only. *)
Definition same_but_logs (w w' : World) : Prop := set_logs [] w' = set_logs [] w.

(** [int] on the two texts the scenarios use. *)
Definition toy_int (s : string) : option Z :=
  if String.eqb s "1" then Some 1 else if String.eqb s "9" then Some 9 else None.
(* ================================================================== *)
(** * Properties *)

Open Scope list_scope.

(** ** Sorting and slicing *)

Section Order.

Context {A : Type} (le : A -> A -> bool).

Lemma insert_by_perm (x : A) (l : list A) :
  Permutation (insert_by le x l) (x :: l).
Proof.
  induction l as [|y l IH]; simpl.
  - apply Permutation_refl.
  - destruct (le x y).
    + apply Permutation_refl.
    + eapply perm_trans; [apply perm_skip, IH | apply perm_swap].
Qed.

Lemma sort_by_perm (l : list A) : Permutation (sort_by le l) l.
Proof.
  induction l as [|x l IH]; simpl.
  - constructor.
  - eapply perm_trans; [apply insert_by_perm | apply perm_skip, IH].
Qed.

Lemma sort_by_In (l : list A) (x : A) : In x (sort_by le l) <-> In x l.
Proof.
  split; apply Permutation_in; [| apply Permutation_sym]; apply sort_by_perm.
Qed.

Lemma sort_by_length (l : list A) : List.length (sort_by le l) = List.length l.
Proof. apply Permutation_length, sort_by_perm. Qed.

End Order.

Lemma insert_version_desc_sorted (x : FileEntry) (l : list FileEntry) :
  StronglySorted newer_or_same l ->
  StronglySorted newer_or_same (insert_by version_desc x l).
Proof.
  induction 1 as [|y l Hs IH Hall]; simpl.
  - repeat constructor.
  - unfold version_desc at 1. destruct (Z.leb_spec (fe_version y) (fe_version x)) as [Hle|Hlt].
    + constructor; [constructor; assumption|].
      constructor; [exact Hle|].
      rewrite Forall_forall in *. intros z Hz. specialize (Hall z Hz).
      unfold newer_or_same in *. lia.
    + constructor; [exact IH|].
      rewrite Forall_forall in *. intros z Hz.
      apply (Permutation_in _ (insert_by_perm version_desc x l)) in Hz.
      destruct Hz as [<-|Hz]; [unfold newer_or_same; lia | auto].
Qed.

Lemma sort_version_desc_sorted (l : list FileEntry) :
  StronglySorted newer_or_same (sort_by version_desc l).
Proof.
  induction l; simpl; [constructor | apply insert_version_desc_sorted; assumption].
Qed.

Lemma sorted_firstn_skipn {A} (R : A -> A -> Prop) (n : nat) (l : list A) :
  StronglySorted R l ->
  forall k g, In k (firstn n l) -> In g (skipn n l) -> R k g.
Proof.
  intros Hs. revert n. induction Hs as [|x l Hs IH Hall]; intros n k g Hk Hg.
  - destruct n; contradiction.
  - destruct n; simpl in *; [contradiction|].
    destruct Hk as [<-|Hk].
    + rewrite Forall_forall in Hall. apply Hall.
      rewrite <- (firstn_skipn n l). apply in_or_app. now right.
    + eapply IH; eassumption.
Qed.

Lemma filter_perm {T} (keep : T -> bool) (rows rows' : list T)
    (Hp : Permutation rows rows') :
  Permutation (filter keep rows) (filter keep rows').
Proof.
  induction Hp as [|x l l' _ IH|x y l|l l' l'' _ IH1 _ IH2]; simpl.
  - constructor.
  - destruct (keep x); [apply perm_skip|]; assumption.
  - destruct (keep x), (keep y); try apply Permutation_refl. apply perm_swap.
  - eapply perm_trans; eassumption.
Qed.

(** The head of the version-descending list carries the largest version. *)
Lemma sort_version_desc_head (rows : list FileEntry) :
  match sort_by version_desc rows with
  | [] => rows = []
  | e :: _ => In e rows /\ forall x, In x rows -> fe_version x <= fe_version e
  end.
Proof.
  pose proof (sort_by_perm version_desc rows) as Hp.
  pose proof (sort_version_desc_sorted rows) as Hs.
  destruct (sort_by version_desc rows) as [|e l].
  - apply Permutation_nil in Hp. exact Hp.
  - split.
    + apply (Permutation_in _ Hp). now left.
    + intros x Hx. apply (Permutation_in _ (Permutation_sym Hp)) in Hx.
      inversion Hs as [|? ? _ Hall]; subst.
      destruct Hx as [<-|Hx]; [lia|].
      rewrite Forall_forall in Hall. apply Hall, Hx.
Qed.

(* ================================================================== *)
(** ** One-time codes (backend/otp.py, db.get_valid_otp) *)

Lemma mark_used_no_match (user_id : Z) (code : option string) (id : Z) (l : list OTP) :
  (forall o, In o l -> otp_match user_id code o = true -> otp_id o = id) ->
  find (otp_match user_id code)
    (map (fun o => if otp_id o =? id
                   then mkOTP (otp_id o) (otp_user_id o) (otp_code o) (otp_expiry o) true
                   else o) l) = None.
Proof.
  induction l as [|o l IH]; intros H; simpl; [reflexivity|].
  destruct (otp_id o =? id) eqn:E.
  - replace (otp_match user_id code _) with false.
    + apply IH. intros; apply H; simpl; auto.
    + destruct code; simpl; [|reflexivity]. now rewrite andb_false_r.
  - destruct (otp_match user_id code o) eqn:Em.
    + apply Z.eqb_neq in E. exfalso. apply E, H; simpl; auto.
    + apply IH. intros; apply H; simpl; auto.
Qed.

Lemma find_some_id {A} (f : A -> bool) (l : list A) (x : A) :
  find f l = Some x -> In x l /\ f x = true.
Proof. apply find_some. Qed.

(** C4, as the code has it.  [verify] accepts exactly when the first
    stored row with this user and code and [used = false] is not past its
    expiry ([now <= expiry]: the second of expiry itself is still
    accepted); a refusal carries the invalid-or-expired message and
    leaves the codes untouched; on acceptance every row with the accepted
    id is marked used, and when the accepted row was the user's only
    unused row with this code, every later verification of the same code,
    at any time, is refused as invalid or expired. *)
Theorem verify_single_use (w : World) (user_id : Z) (code purpose : string) :
  let r := outcome (verify user_id code purpose) w in
  let w' := after (verify user_id code purpose) w in
  (accepted r = true <->
     exists o, find (otp_match user_id (Some code)) (otps w) = Some o
               /\ now w <= otp_expiry o)
  /\ (accepted r = false ->
      refusal r = Some "Invalid or expired OTP" /\ otps w' = otps w)
  /\ (forall o,
        find (otp_match user_id (Some code)) (otps w) = Some o ->
        now w <= otp_expiry o ->
        (forall o', In o' (otps w') -> otp_id o' = otp_id o -> otp_used o' = true)
        /\ (filter (otp_match user_id (Some code)) (otps w) = [o] ->
            forall t purpose',
              refusal (outcome (verify user_id code purpose') (set_now t w'))
              = Some "Invalid or expired OTP")).
Proof.
  unfold outcome, after, verify, try_except, bind, get_valid_otp.
  destruct (find (otp_match user_id (Some code)) (otps w)) as [o|] eqn:Hf.
  - destruct (Z.ltb_spec (otp_expiry o) (now w)) as [Hexp|Hok]; cbn.
    + split; [|split].
      * split; [discriminate|]. intros (o' & Ho' & Hle). inversion Ho'; subst. lia.
      * auto.
      * intros o' Ho' Hle. inversion Ho'; subst. lia.
    + unfold mark_otp_used.
      destruct (find_some_id _ _ _ Hf) as [Hin Hm].
      assert (Hid : find (fun x => otp_id x =? otp_id o) (otps w) <> None).
      { intros Hn. apply (find_none _ _ Hn) in Hin. rewrite Z.eqb_refl in Hin. discriminate. }
      destruct (find (fun x => otp_id x =? otp_id o) (otps w)) eqn:Hfid; [|congruence].
      cbn. split; [|split].
      * split; [|reflexivity]. intros _. exists o. split; [reflexivity | lia].
      * discriminate.
      * intros o' Ho' _. inversion Ho'; subst o'. split.
        -- intros x Hx Hxid. apply in_map_iff in Hx. destruct Hx as (y & <- & Hy).
           destruct (otp_id y =? otp_id o) eqn:E; [reflexivity|].
           simpl in Hxid. apply Z.eqb_neq in E. contradiction.
        -- intros Honly t purpose'.
           rewrite mark_used_no_match; [reflexivity|].
           intros x Hx Hmx.
           assert (Hxf : In x (filter (otp_match user_id (Some code)) (otps w)))
             by (apply filter_In; auto).
           rewrite Honly in Hxf. destruct Hxf as [<-|[]]. reflexivity.
  - cbn. split; [|split].
    + split; [discriminate|]. intros (o & Ho & _). discriminate.
    + auto.
    + intros o Ho. discriminate.
Qed.

(** The strict reading of C4 fails at the second of expiry: the code is
    accepted although the clock is not strictly before the expiry. *)
Lemma verify_strict_expiry_counterexample :
  ~ (verify_accepts w_code_at_expiry 1 "123456"
     <-> otp_strictly_valid w_code_at_expiry 1 "123456").
Proof.
  intros [Hacc _].
  assert (Ha : verify_accepts w_code_at_expiry 1 "123456") by reflexivity.
  destruct (Hacc Ha) as (o & Hin & _ & _ & _ & Hlt).
  simpl in Hin. destruct Hin as [<-|[]]. simpl in Hlt. lia.
Qed.

Lemma verify_single_use_witness :
  accepted (outcome (verify 1 "123456" "restore") w_code_valid) = true
  /\ forall t,
       refusal (outcome (verify 1 "123456" "restore")
                  (set_now t (after (verify 1 "123456" "restore") w_code_valid)))
       = Some "Invalid or expired OTP".
Proof.
  pose proof (verify_single_use w_code_valid 1 "123456" "restore") as (Hacc & _ & Hused).
  split.
  - apply Hacc. exists (mkOTP 1 1 "123456" 1300 false). split; [reflexivity | simpl; lia].
  - intros t.
    destruct (Hused (mkOTP 1 1 "123456" 1300 false)) as [_ Hreplay];
      [reflexivity | simpl; lia |].
    apply (Hreplay eq_refl t "restore").
Defined.

(* ================================================================== *)
(** ** Retention (db.prune_old_versions) *)

(** Rows that survive a filter keep distinct keys. *)
Lemma NoDup_map_filter {K T} (key : T -> K) (keep : T -> bool) (rows : list T)
    (Hnd : NoDup (map key rows)) :
  NoDup (map key (filter keep rows)).
Proof.
  induction rows as [|x rows IH]; simpl in *; [constructor|].
  inversion Hnd as [|? ? Hn Hd]; subst.
  destruct (keep x); simpl; [constructor|]; auto.
  intros Hin. apply Hn. apply in_map_iff in Hin. destruct Hin as (y & Hy & Hin).
  apply filter_In in Hin. apply in_map_iff. exists y. tauto.
Qed.

Lemma NoDup_map_inj {A B} (f : A -> B) (l : list A) (a b : A) :
  NoDup (map f l) -> In a l -> In b l -> f a = f b -> a = b.
Proof.
  induction l as [|x l IH]; simpl; intros H Ha Hb Hab; [contradiction|].
  inversion H as [|? ? Hn Hd]; subst.
  destruct Ha as [->|Ha], Hb as [->|Hb]; auto.
  - exfalso. apply Hn. rewrite Hab. now apply in_map.
  - exfalso. apply Hn. rewrite <- Hab. now apply in_map.
Qed.

Lemma NoDup_map_app_disjoint {A B} (f : A -> B) (l1 l2 : list A) (a b : A) :
  NoDup (map f (l1 ++ l2)) -> In a l1 -> In b l2 -> f a <> f b.
Proof.
  induction l1 as [|x l1 IH]; simpl; intros H Ha Hb; [contradiction|].
  inversion H as [|? ? Hn Hd]; subst.
  destruct Ha as [->|Ha]; [|auto].
  intros Hab. apply Hn. rewrite Hab. apply in_map, in_or_app. now right.
Qed.

Lemma gone_by_id (gone : list FileEntry) (e : FileEntry) :
  existsb (fun g => fe_id g =? fe_id e) gone = true <->
  exists g, In g gone /\ fe_id g = fe_id e.
Proof.
  rewrite existsb_exists. split; intros (g & Hg & E); exists g; split; auto.
  - now apply Z.eqb_eq.
  - now apply Z.eqb_eq.
Qed.

Lemma delete_rows_In (gone rows : list FileEntry) (e : FileEntry) :
  In e (delete_rows gone rows) <->
  In e rows /\ ~ exists g, In g gone /\ fe_id g = fe_id e.
Proof.
  unfold delete_rows. rewrite filter_In, negb_true_iff, <- gone_by_id.
  destruct (existsb _ gone); intuition congruence.
Qed.

Lemma filter_comm {A} (p q : A -> bool) (l : list A) :
  filter p (filter q l) = filter q (filter p l).
Proof.
  induction l as [|x l IH]; simpl; [reflexivity|].
  destruct (p x) eqn:Ep, (q x) eqn:Eq; simpl; rewrite ?Ep, ?Eq, IH; reflexivity.
Qed.

Lemma filter_all {A} (p : A -> bool) (l : list A) :
  (forall x, In x l -> p x = true) -> filter p l = l.
Proof.
  induction l as [|x l IH]; simpl; intros H; [reflexivity|].
  rewrite (H x (or_introl eq_refl)), IH; auto.
Qed.

Lemma filter_none {A} (p : A -> bool) (l : list A) :
  (forall x, In x l -> p x = false) -> filter p l = [].
Proof.
  induction l as [|x l IH]; simpl; intros H; [reflexivity|].
  rewrite (H x (or_introl eq_refl)), IH; auto.
Qed.

(** What pruning leaves, for any way of splitting the live rows into
    those kept and those removed. *)
Lemma delete_rows_keeps (user_id : Z) (filename : string)
    (rows kept gone : list FileEntry) :
  NoDup (map fe_id rows) ->
  Permutation (kept ++ gone) (filter (live_match user_id filename) rows) ->
  Permutation (filter (live_match user_id filename) (delete_rows gone rows)) kept.
Proof.
  intros Hnd Hp. unfold delete_rows. rewrite filter_comm.
  eapply perm_trans; [apply filter_perm, Permutation_sym, Hp|].
  assert (Hnd' : NoDup (map fe_id (kept ++ gone))).
  { eapply Permutation_NoDup; [apply Permutation_map, Permutation_sym, Hp|].
    now apply NoDup_map_filter. }
  rewrite filter_app, filter_all, filter_none, app_nil_r; [apply Permutation_refl| |].
  - intros g Hg. apply negb_false_iff, gone_by_id. now exists g.
  - intros k Hk. apply negb_true_iff.
    destruct (existsb (fun g => fe_id g =? fe_id k) gone) eqn:E; [|reflexivity].
    apply gone_by_id in E. destruct E as (g & Hg & E).
    exfalso. exact (NoDup_map_app_disjoint fe_id kept gone k g Hnd' Hk Hg (eq_sym E)).
Qed.

(** C2, as the code has it.  With retention [keep >= 0], the prune step
    splits the non-deleted rows of [(user, filename)], listed by version
    descending, into the first [keep] and the rest: the rows that stay
    live are the first [keep] (the highest versions: no removed row has a
    higher version than a kept one); the rest are deleted from the table
    outright (no row with their id remains, so none is retained with a
    [deleted] flag); every other row is left exactly as it was; and what
    is returned is the (id, storage locator) pair of each removed row, in
    that order. *)
Theorem prune_old_versions_spec (w : World) (user_id : Z) (filename : string) (keep : Z) :
  0 <= keep ->
  NoDup (map fe_id (files w)) ->
  let entries := live_versions_desc user_id filename w in
  let kept := firstn (Z.to_nat keep) entries in
  let gone := skipn (Z.to_nat keep) entries in
  let w' := after (prune_old_versions user_id filename keep) w in
  outcome (prune_old_versions user_id filename keep) w
    = Ok (map (fun e => (fe_id e, fe_storage_path e)) gone)
  /\ Permutation (filter (live_match user_id filename) (files w')) kept
  /\ (forall k g, In k kept -> In g gone -> fe_version g <= fe_version k)
  /\ (forall e, In e (files w') <-> In e (files w) /\ ~ In e gone)
  /\ (forall g, In g gone -> ~ exists e, In e (files w') /\ fe_id e = fe_id g).
Proof.
  intros Hk Hnd entries kept gone w'.
  assert (Hperm : Permutation (kept ++ gone) (filter (live_match user_id filename) (files w))).
  { unfold kept, gone. rewrite firstn_skipn. apply sort_by_perm. }
  assert (Hsorted : forall k g, In k kept -> In g gone -> fe_version g <= fe_version k).
  { intros k g. apply (sorted_firstn_skipn newer_or_same), sort_version_desc_sorted. }
  assert (Hgone_rows : forall g, In g gone -> In g (files w)).
  { intros g Hg.
    assert (Hin : In g (kept ++ gone)) by (apply in_or_app; now right).
    apply (Permutation_in _ Hperm), filter_In in Hin. tauto. }
  unfold w', outcome, after, prune_old_versions. fold entries.
  destruct (Z.leb_spec (Z.of_nat (List.length entries)) keep) as [Hshort|Hlong]; cbn.
  - assert (Hg : gone = []) by (apply skipn_all2; lia).
    assert (Hkp : kept = entries) by (apply firstn_all2; lia).
    rewrite Hg in *. rewrite Hkp in *. rewrite app_nil_r in Hperm.
    repeat split; auto.
    + now apply Permutation_sym.
    + tauto.
  - assert (Hs : slice_from keep entries = gone).
    { unfold slice_from, gone. destruct (Z.ltb_spec keep 0); [lia | reflexivity]. }
    rewrite Hs. repeat split; auto.
    + now apply delete_rows_keeps.
    + apply delete_rows_In in H. tauto.
    + apply delete_rows_In in H. destruct H as [_ Hn]. intros Hg. apply Hn. now exists e.
    + intros [He Hn]. apply delete_rows_In. split; [exact He|].
      intros (g & Hg & E). apply Hn.
      rewrite (NoDup_map_inj fe_id (files w) e g Hnd He (Hgone_rows g Hg) (eq_sym E)).
      exact Hg.
    + intros g Hg (e & He & E). apply delete_rows_In in He.
      destruct He as [_ Hn]. apply Hn. exists g. auto.
Qed.

(** The soft-delete reading of C2 fails: after the fourth version of
    report.docx is registered and pruned with retention 3, version 1's
    locator is returned but no row carries its id any more. *)
Lemma prune_soft_delete_counterexample :
  ~ prune_soft_deletes w_four_versions 1 "report.docx" 3.
Proof.
  unfold prune_soft_deletes. cbn. intros H.
  destruct (H (1, "./nas_storage/user_1/report.docx.v1.enc") (or_introl eq_refl))
    as (e & Hin & Hid & _).
  cbn in Hin, Hid. destruct Hin as [<-|[<-|[<-|[]]]]; discriminate.
Qed.

Lemma prune_old_versions_spec_witness :
  outcome (prune_old_versions 1 "report.docx" 3) w_four_versions
    = Ok [(1, "./nas_storage/user_1/report.docx.v1.enc")]
  /\ ~ exists e,
         In e (files (after (prune_old_versions 1 "report.docx" 3) w_four_versions))
         /\ fe_id e = 1.
Proof.
  assert (H0 : 0 <= 3) by lia.
  assert (Hnd : NoDup (map fe_id (files w_four_versions))).
  { simpl. repeat constructor; simpl; intuition discriminate. }
  destruct (prune_old_versions_spec w_four_versions 1 "report.docx" 3 H0 Hnd)
    as (Hout & _ & _ & _ & Hgone).
  split.
  - exact Hout.
  - apply (Hgone (report_v 1 1)). vm_compute. auto.
Defined.

(* ================================================================== *)
(** ** Running the backup pipeline *)

Arguments str_of_Z : simpl never.
Arguments path_join : simpl never.
Arguments basename : simpl never.
Arguments dirname : simpl never.
Arguments upload_dest : simpl never.
Arguments live_versions_desc : simpl never.
Arguments latest_version : simpl never.
Arguments next_id : simpl never.
Arguments String.append : simpl never.
Arguments rmtree : simpl never.
Arguments delete_pruned_blobs : simpl never.
Arguments prune_old_versions : simpl never.
Arguments existsb : simpl never.
Arguments slice_from : simpl never.
Arguments delete_rows : simpl never.

Lemma fs_lookup_put p b l : fs_lookup p (fs_put p b l) = Some b.
Proof. unfold fs_put. simpl. now rewrite String.eqb_refl. Qed.

Lemma set_files_same w : set_files (files w) w = w.
Proof. now destruct w. Qed.

Lemma set_fs_same w : set_fs (fs w) w = w.
Proof. now destruct w. Qed.

Lemma delete_rows_nil rows : delete_rows [] rows = rows.
Proof. unfold delete_rows. apply filter_all. reflexivity. Qed.

(** The prune step in one equation, for a retention that is not
    negative. *)
Lemma prune_old_versions_run (user_id : Z) (filename : string) (keep : Z) (w : World) :
  0 <= keep ->
  let gone := skipn (Z.to_nat keep) (live_versions_desc user_id filename w) in
  prune_old_versions user_id filename keep w
  = (Ok (map (fun e => (fe_id e, fe_storage_path e)) gone),
     set_files (delete_rows gone (files w)) w).
Proof.
  intros Hk gone. unfold prune_old_versions.
  destruct (Z.leb_spec (Z.of_nat (List.length (live_versions_desc user_id filename w))) keep).
  - assert (Hg : gone = []) by (apply skipn_all2; lia).
    rewrite Hg, delete_rows_nil, set_files_same. reflexivity.
  - unfold slice_from. destruct (Z.ltb_spec keep 0); [lia | reflexivity].
Qed.

(** Deleting the pruned blobs never fails and touches the file system
    only. *)
Lemma delete_pruned_blobs_run uid removed w :
  exists fs', delete_pruned_blobs uid removed w = (Ok tt, set_fs fs' w).
Proof.
  unfold delete_pruned_blobs.
  match goal with |- context [for_each _ ?b] => set (body := b) end.
  assert (Hbody : forall r w, body r w = (Ok tt, set_fs (fs_remove (snd r) (fs w)) w))
    by reflexivity.
  revert w. induction removed as [|r removed IH]; intros w; cbn [for_each].
  - exists (fs w). now rewrite set_fs_same.
  - unfold bind. rewrite Hbody.
    destruct (IH (set_fs (fs_remove (snd r) (fs w)) w)) as (fs' & ->).
    exists fs'. destruct w; reflexivity.
Qed.

(** What is already known of the tests a run meets. *)
Ltac use_known H :=
  repeat match goal with
         | E : find ?f ?l = _ |- _ =>
             lazymatch type of H with context [find f l] => rewrite E in H end
         | E : fs_lookup ?p ?l = _ |- _ =>
             lazymatch type of H with context [fs_lookup p l] => rewrite E in H end
         | E : unwritable ?w ?p = _ |- _ =>
             lazymatch type of H with context [unwritable w p] => rewrite E in H end
         | E : existsb ?f ?l = _ |- _ =>
             lazymatch type of H with context [existsb f l] => rewrite E in H end
         | E : alert_channel ?w ?c ?m = _ |- _ =>
             lazymatch type of H with context [alert_channel w c m] => rewrite E in H end
         end.

(** Case analysis on the tests a run meets, one at a time. *)
Ltac reduce_run H :=
  repeat progress (cbn in H; rewrite ?String.eqb_refl in H; use_known H).

Ltac crunch H :=
  reduce_run H;
  repeat (match type of H with
          | context [prune_old_versions ?u ?f ?k ?w] =>
              rewrite (prune_old_versions_run u f k w) in H by (unfold MAX_VERSIONS; lia)
          | context [delete_pruned_blobs ?u ?r ?w] =>
              let fs' := fresh "fs'" in
              let Hl := fresh "Hl" in
              destruct (delete_pruned_blobs_run u r w) as (fs' & Hl);
              rewrite Hl in H; clear Hl
          | context [if ?c then _ else _] => destruct c eqn:?
          | context [match ?x with _ => _ end] =>
              lazymatch x with
              | context [match _ with _ => _ end] => fail
              | _ => destruct x eqn:?
              end
          end; try discriminate; reduce_run H).

Ltac unfold_run H :=
  unfold perform_manual_backup, _unsynced_uploader_item, bind, get_user, gets,
    path_exists, get_latest_version,
    mkdtemp, try_finally, encrypt_file, _sha256_of_file, upload_file, copy2, bind,
    read_file, write_file, try_except, ret, raise, add_log, add_unsynced_file,
    record_dr_event, add_file_entry, create_snapshot, add_snapshot_entry,
    enqueue_replication, send_alert, _safe_basename in H.

Section BackupProperties.

Variable encrypt : bytes -> bytes.
Variable sha256_hex : bytes -> string.

(** What a backup that returns has done to the Entity Store. *)
Lemma backup_ok_inv w uid path fe w' :
  perform_manual_backup encrypt sha256_hex uid path w = (Ok fe, w') ->
  let fname := basename path in
  let v := latest_version uid fname w + 1 in
  let dest := upload_dest uid fname v in
  exists data,
    fs_lookup path (fs w) = Some data
    /\ unwritable w dest = false
    /\ existsb (same_key uid fname v) (files w) = false
    /\ fe = mkFileEntry (next_id (map fe_id (files w))) uid fname v dest
              (Some (sha256_hex (encrypt data))) false false false
    /\ files w' = files (after (prune_old_versions uid fname MAX_VERSIONS)
                           (set_files (files w ++ [fe]) w))
    /\ map sn_id (snapshots w') = map sn_id (snapshots w) ++ [next_id (map sn_id (snapshots w))]
    /\ snapshot_entries w'
       = snapshot_entries w
         ++ [mkSnapshotEntry (next_id (map se_id (snapshot_entries w)))
               (next_id (map sn_id (snapshots w))) (fe_id fe)]
    /\ replication_queue w'
       = replication_queue w
         ++ [mkReplicationQueue (next_id (map rq_id (replication_queue w)))
               (fe_id fe) dest 0 false]
    /\ unsynced_files w' = unsynced_files w
    /\ drevents w' = drevents w.
Proof.
  intros H fname v dest.
  unfold_run H. crunch H.
  all: inversion H; subst; clear H.
  all: eexists; split; [reflexivity|].
  all: unfold after; rewrite prune_old_versions_run by (unfold MAX_VERSIONS; lia).
  all: unfold rmtree; cbn.
  all: rewrite ?map_app.
  all: repeat split; try assumption; try reflexivity.
Qed.

(** *** Version allocation *)

Lemma next_id_gt (l : list Z) (x : Z) : In x l -> x < next_id l.
Proof.
  unfold next_id. induction l as [|y l IH]; cbn [fold_right In]; [contradiction|].
  intros [->|H]; [lia|]. specialize (IH H). lia.
Qed.

Lemma latest_version_files u f w1 w2 :
  files w1 = files w2 -> latest_version u f w1 = latest_version u f w2.
Proof. intros H. unfold latest_version, live_versions_desc. now rewrite H. Qed.

Lemma latest_version_upper u f w x :
  In x (files w) -> live_match u f x = true -> fe_version x <= latest_version u f w.
Proof.
  intros Hx Hl. unfold latest_version, live_versions_desc.
  pose proof (sort_version_desc_head (filter (live_match u f) (files w))) as Hh.
  assert (Hin : In x (filter (live_match u f) (files w))) by (apply filter_In; auto).
  destruct (sort_by version_desc (filter (live_match u f) (files w))).
  - rewrite Hh in Hin. contradiction.
  - now apply Hh.
Qed.

Lemma latest_version_eq u f w e :
  In e (files w) -> live_match u f e = true ->
  (forall x, In x (files w) -> live_match u f x = true -> fe_version x <= fe_version e) ->
  latest_version u f w = fe_version e.
Proof.
  intros He Hl Hmax.
  pose proof (latest_version_upper u f w e He Hl) as Hup.
  unfold latest_version, live_versions_desc in *.
  pose proof (sort_version_desc_head (filter (live_match u f) (files w))) as Hh.
  destruct (sort_by version_desc (filter (live_match u f) (files w))) as [|e0 l].
  - assert (Hin : In e (filter (live_match u f) (files w))) by (apply filter_In; auto).
    rewrite Hh in Hin. contradiction.
  - destruct Hh as [Hin _]. apply filter_In in Hin. destruct Hin as [Hin Hl0].
    specialize (Hmax e0 Hin Hl0). lia.
Qed.

Lemma In_skipn {A} (n : nat) (l : list A) (x : A) : In x (skipn n l) -> In x l.
Proof. intros H. rewrite <- (firstn_skipn n l). apply in_or_app. now right. Qed.

(** The row just registered with version [latest + 1] heads the
    version-descending list, and the rest of that list is the old live
    rows. *)
Lemma newest_heads_list u f (rows : list FileEntry) (fe : FileEntry) :
  live_match u f fe = true ->
  (forall x, In x rows -> live_match u f x = true -> fe_version x < fe_version fe) ->
  exists rest,
    sort_by version_desc (filter (live_match u f) (rows ++ [fe])) = fe :: rest
    /\ forall x, In x rest -> In x rows.
Proof.
  intros Hl Hlt.
  assert (Hf : filter (live_match u f) (rows ++ [fe]) = filter (live_match u f) rows ++ [fe]).
  { rewrite filter_app. simpl. now rewrite Hl. }
  rewrite Hf.
  pose proof (sort_version_desc_head (filter (live_match u f) rows ++ [fe])) as Hh.
  pose proof (sort_by_perm version_desc (filter (live_match u f) rows ++ [fe])) as Hp.
  destruct (sort_by version_desc (filter (live_match u f) rows ++ [fe])) as [|e0 rest].
  - destruct (filter (live_match u f) rows); discriminate.
  - destruct Hh as [Hin Hmax].
    assert (He0 : e0 = fe).
    { apply in_app_or in Hin. destruct Hin as [Hin|[->|[]]]; [|reflexivity].
      apply filter_In in Hin. destruct Hin as [Hin Hl0].
      specialize (Hlt e0 Hin Hl0).
      assert (Hfe : In fe (filter (live_match u f) rows ++ [fe]))
        by (apply in_or_app; right; now left).
      specialize (Hmax fe Hfe). lia. }
    subst e0. exists rest. split; [reflexivity|].
    assert (Hp' : Permutation rest (filter (live_match u f) rows)).
    { apply Permutation_cons_inv with (a := fe).
      eapply perm_trans; [exact Hp|]. apply Permutation_sym, Permutation_cons_append. }
    intros x Hx. apply (Permutation_in _ Hp'), filter_In in Hx. tauto.
Qed.

(** A backup that returns gave its entry the version [latest + 1], and
    that version is the latest afterwards, whatever the prune step
    removed. *)
Lemma backup_allocates w uid path fe w' :
  perform_manual_backup encrypt sha256_hex uid path w = (Ok fe, w') ->
  fe_version fe = latest_version uid (basename path) w + 1
  /\ latest_version uid (basename path) w' = fe_version fe.
Proof.
  intros H. apply backup_ok_inv in H.
  destruct H as (data & _ & _ & _ & Hfe & Hfiles & _).
  set (fname := basename path) in *.
  set (v := latest_version uid fname w + 1) in *.
  assert (Hv : fe_version fe = v) by (rewrite Hfe; reflexivity).
  split; [exact Hv|].
  assert (Hlive : live_match uid fname fe = true).
  { rewrite Hfe. unfold live_match. cbn. now rewrite Z.eqb_refl, String.eqb_refl. }
  assert (Hold : forall x, In x (files w) -> live_match uid fname x = true ->
                           fe_version x < fe_version fe).
  { intros x Hx Hl. pose proof (latest_version_upper uid fname w x Hx Hl). lia. }
  unfold after in Hfiles.
  rewrite prune_old_versions_run in Hfiles by (unfold MAX_VERSIONS; lia).
  cbn in Hfiles. unfold live_versions_desc in Hfiles. cbn in Hfiles.
  destruct (newest_heads_list uid fname (files w) fe Hlive Hold) as (rest & Hsort & Hrest).
  unfold sort_by in Hsort. rewrite Hsort in Hfiles.
  apply latest_version_eq; [| exact Hlive |].
  - rewrite Hfiles. apply delete_rows_In. split.
    + apply in_or_app. right. now left.
    + intros (g & Hg & E).
      assert (Hgw : In g (files w)).
      { apply Hrest. change (In g (skipn 2 rest)) in Hg. eapply In_skipn. exact Hg. }
      pose proof (next_id_gt (map fe_id (files w)) (fe_id g) (in_map fe_id _ _ Hgw)) as Hlt.
      rewrite Hfe in E. cbn in E. lia.
  - intros x Hx Hl. rewrite Hfiles in Hx. apply delete_rows_In in Hx.
    destruct Hx as [Hx _]. apply in_app_or in Hx.
    destruct Hx as [Hx|[<-|[]]]; [|lia].
    specialize (Hold x Hx Hl). lia.
Qed.

Lemma count_from_ge (a : Z) (n : nat) (x : Z) : In x (count_from a n) -> a <= x.
Proof.
  revert a. induction n as [|n IH]; simpl; intros a H; [contradiction|].
  destruct H as [<-|H]; [lia|]. specialize (IH _ H). lia.
Qed.

Lemma count_from_NoDup (a : Z) (n : nat) : NoDup (count_from a n).
Proof.
  revert a. induction n as [|n IH]; simpl; intros a; constructor; [|apply IH].
  intros H. apply count_from_ge in H. lia.
Qed.

Lemma backup_run_versions uid fname w vs w' :
  backup_run encrypt sha256_hex uid fname w vs w' ->
  vs = count_from (latest_version uid fname w + 1) (List.length vs).
Proof.
  induction 1 as [w | w path fe w1 w1' vs w2 Hb Hrun Hsame _ IH]; [reflexivity|].
  apply backup_allocates in Hrun. rewrite Hb in Hrun. destruct Hrun as [Hv Hlatest].
  simpl. rewrite <- Hv. f_equal.
  rewrite IH at 1. f_equal.
  rewrite (latest_version_files uid fname w1' w1 Hsame). lia.
Qed.


(** *** Upload failure *)

(** C5.  When the user exists, the source is readable and its
    encrypted copy has been written, and the put into the primary Blob
    Store then fails (the destination cannot be written), the backup
    raises to its caller, has appended one PendingUpload row for the
    source file, has appended a DREvent of type upload_failed as the last
    event, and has created no FileEntry. *)
Theorem backup_upload_failure w uid path user data :
  find (fun u => u_id u =? uid) (users w) = Some user ->
  fs_lookup path (fs w) = Some data ->
  unwritable w (backup_tmp_path w path) = false ->
  unwritable w (upload_dest uid (basename path)
                  (latest_version uid (basename path) w + 1)) = true ->
  let w' := after (perform_manual_backup encrypt sha256_hex uid path) w in
  (exists e, outcome (perform_manual_backup encrypt sha256_hex uid path) w = Raise e)
  /\ unsynced_files w'
     = unsynced_files w
       ++ [mkUnsyncedFile (next_id (map uf_id (unsynced_files w))) uid path (basename path) 0]
  /\ (exists earlier ev,
        drevents w' = earlier ++ [ev]
        /\ ev_event_type ev = "upload_failed"%string /\ ev_user_id ev = Some uid)
  /\ files w' = files w.
Proof.
  unfold backup_tmp_path. intros Hu Hd Htmp Hdest. unfold after, outcome.
  destruct (perform_manual_backup encrypt sha256_hex uid path w) as [r w1] eqn:H.
  unfold_run H. crunch H.
  inversion H; subst; clear H. unfold rmtree; cbn.
  repeat split.
  - eexists; reflexivity.
  - eexists _, _. split; [reflexivity|]. split; reflexivity.
Qed.

(** *** The crash-recovery worker, one item *)

(** The item whose upload and registration go through. *)
Lemma uploader_item_ok w u data :
  let uid := uf_user_id u in
  let fname := uf_filename u in
  let v := latest_version uid fname w + 1 in
  let dest := upload_dest uid fname v in
  fs_lookup (uf_local_path u) (fs w) = Some data ->
  unwritable w dest = false ->
  existsb (same_key uid fname v) (files w) = false ->
  let ww := after (_unsynced_uploader_item u) w in
  files ww = files w ++ [mkFileEntry (next_id (map fe_id (files w))) uid fname v dest
                           None false false false]
  /\ map sn_id (snapshots ww) = map sn_id (snapshots w) ++ [next_id (map sn_id (snapshots w))]
  /\ snapshot_entries ww
     = snapshot_entries w
       ++ [mkSnapshotEntry (next_id (map se_id (snapshot_entries w)))
             (next_id (map sn_id (snapshots w))) (next_id (map fe_id (files w)))]
  /\ replication_queue ww
     = replication_queue w
       ++ [mkReplicationQueue (next_id (map rq_id (replication_queue w)))
             (next_id (map fe_id (files w))) dest 0 false]
  /\ unsynced_files ww = unsynced_files w
  /\ fs_lookup dest (fs ww) = Some data.
Proof.
  intros uid fname v dest Hd Hw Hk. subst dest v fname uid. unfold after.
  destruct (_unsynced_uploader_item u w) as [r w1] eqn:H.
  unfold_run H. crunch H.
  inversion H; subst; clear H. cbn. rewrite ?map_app, ?String.eqb_refl.
  repeat split.
Qed.

(** C3, as the code has it.  Take a PendingUpload item whose filename is
    the base name of its local path, and a world from which a direct
    backup of that path for that user returns the entry [fe].  Processing
    the item registers one FileEntry that is [fe] with no checksum
    recorded (same id, user, filename, version and storage locator),
    links it to a new snapshot and enqueues its replication exactly as the
    direct backup does, leaves the PendingUpload queue as the direct
    backup does, and has put a blob at the entry's locator. *)
Theorem uploader_item_registers_like_backup w u fe wb :
  uf_filename u = basename (uf_local_path u) ->
  perform_manual_backup encrypt sha256_hex (uf_user_id u) (uf_local_path u) w = (Ok fe, wb) ->
  let ww := after (_unsynced_uploader_item u) w in
  files ww = files w ++ [without_checksum fe]
  /\ map sn_id (snapshots ww) = map sn_id (snapshots wb)
  /\ snapshot_entries ww = snapshot_entries wb
  /\ replication_queue ww = replication_queue wb
  /\ unsynced_files ww = unsynced_files wb
  /\ exists blob, fs_lookup (fe_storage_path fe) (fs ww) = Some blob.
Proof.
  intros Hname Hb ww. apply backup_ok_inv in Hb. rewrite <- Hname in Hb.
  destruct Hb as (data & Hd & Hw & Hk & Hfe & _ & Hsn & Hse & Hrq & Hun & _).
  destruct (uploader_item_ok w u data Hd Hw Hk) as (Hf' & Hsn' & Hse' & Hrq' & Hun' & Hblob).
  fold ww in Hf', Hsn', Hse', Hrq', Hun', Hblob.
  rewrite Hf', Hsn', Hse', Hrq', Hun', Hsn, Hse, Hrq, Hun, Hfe. cbn.
  repeat split. exists data. exact Hblob.
Qed.

End BackupProperties.

(** The put fails with the primary store down: Alice's backup raises,
    queues the file and records the event. *)
Lemma backup_upload_failure_witness :
  (exists e, outcome (perform_manual_backup toy_encrypt toy_sha256 1 "/home/alice/report.docx")
               w_primary_down = Raise e)
  /\ files (after (perform_manual_backup toy_encrypt toy_sha256 1 "/home/alice/report.docx")
              w_primary_down) = []
  /\ unsynced_files (after (perform_manual_backup toy_encrypt toy_sha256 1
                              "/home/alice/report.docx") w_primary_down)
     = [mkUnsyncedFile 1 1 "/home/alice/report.docx" "report.docx" 0].
Proof.
  assert (Hu : find (fun u => u_id u =? 1) (users w_primary_down) = Some alice) by reflexivity.
  assert (Hd : fs_lookup "/home/alice/report.docx" (fs w_primary_down)
               = Some (list_byte_of_string "hello")) by reflexivity.
  assert (Ht : unwritable w_primary_down
                 (backup_tmp_path w_primary_down "/home/alice/report.docx") = false)
    by reflexivity.
  assert (Hp : unwritable w_primary_down
                 (upload_dest 1 (basename "/home/alice/report.docx")
                    (latest_version 1 (basename "/home/alice/report.docx") w_primary_down + 1))
               = true) by reflexivity.
  destruct (backup_upload_failure toy_encrypt toy_sha256 w_primary_down 1
              "/home/alice/report.docx" alice _ Hu Hd Ht Hp) as (Hr & Hq & _ & Hf).
  split; [exact Hr|]. split; [exact Hf | exact Hq].
Defined.

Lemma backed_up_step (n : nat) (fe : FileEntry) :
  outcome (perform_manual_backup toy_encrypt toy_sha256 1 "/home/alice/report.docx")
    (backed_up n) = Ok fe ->
  perform_manual_backup toy_encrypt toy_sha256 1 "/home/alice/report.docx" (backed_up n)
  = (Ok fe, backed_up (S n)).
Proof.
  unfold outcome. cbn [backed_up]. unfold after.
  destruct (perform_manual_backup toy_encrypt toy_sha256 1 "/home/alice/report.docx"
              (backed_up n)) as [r w1].
  cbn. now intros ->.
Qed.


(** The replay reading of C3 fails: with three versions of report.docx
    stored, the worker registers the fourth without a checksum and prunes
    nothing, where a direct backup records the checksum and prunes
    version 1. *)
Lemma uploader_replays_backup_counterexample :
  ~ uploader_replays_backup toy_encrypt toy_sha256 (backed_up 3) pending_report.
Proof.
  intros (Hfiles & _). vm_compute in Hfiles. discriminate.
Qed.

(** At the same input: the blob the worker stores is the source file as
    it is, not its encryption, and four live rows remain. *)
Lemma uploader_item_divergence :
  let ww := after (_unsynced_uploader_item pending_report) (backed_up 3) in
  fs_lookup "./nas_storage/user_1/report.docx.v4.enc" (fs ww)
    = Some (list_byte_of_string "hello")
  /\ map fe_checksum (files ww) = [Some "6"; Some "6"; Some "6"; None]%string
  /\ map fe_version (filter (live_match 1 "report.docx") (files ww)) = [1; 2; 3; 4].
Proof. vm_compute. repeat split. Qed.

Lemma uploader_item_registers_like_backup_witness :
  files (after (_unsynced_uploader_item pending_report) w_fresh)
    = [without_checksum (report_v 1 1)]
  /\ replication_queue (after (_unsynced_uploader_item pending_report) w_fresh)
     = replication_queue (backed_up 1).
Proof.
  assert (Hn : uf_filename pending_report = basename (uf_local_path pending_report))
    by reflexivity.
  assert (Hb : perform_manual_backup toy_encrypt toy_sha256 (uf_user_id pending_report)
                 (uf_local_path pending_report) w_fresh
               = (Ok (report_v 1 1), backed_up 1))
    by (apply (backed_up_step 0); reflexivity).
  destruct (uploader_item_registers_like_backup toy_encrypt toy_sha256 w_fresh
              pending_report (report_v 1 1) (backed_up 1) Hn Hb)
    as (Hf & _ & _ & Hrq & _).
  split; [exact Hf | exact Hrq].
Defined.

(* ================================================================== *)
(** ** Automated restore after corruption (disaster_recovery.py) *)

Section RestoreProperties.

Variable decrypt : bytes -> option bytes.

(** Without a code, [perform_restore] never gets past the code check:
    no stored code compares equal to [None]. *)
Lemma perform_restore_without_code w uid filename version target :
  exists r,
    outcome (perform_restore decrypt uid filename version target None) w = Ok r
    /\ ok r = false
    /\ fs (after (perform_restore decrypt uid filename version target None) w) = fs w.
Proof.
  unfold outcome, after, perform_restore, try_except, bind, get_user, gets, get_valid_otp.
  cbn. destruct (find (fun u => u_id u =? uid) (users w)); cbn.
  - destruct (find (otp_match uid None) (otps w)) eqn:E.
    + apply find_some in E. destruct E as [_ E]. discriminate.
    + cbn. eexists. repeat split.
  - eexists. repeat split.
Qed.

End RestoreProperties.

(** C1, at a failing input.  Alice's report.docx is backed up (version
    1, blob in place) and then found corrupted.  The handler is called
    with the known-good version 1: the restore it attempts is refused at
    the code check, the damaged file stays as it was, and the events
    recorded are corruption_detected and auto_restore_failed --- the
    code requirement is not bypassed. *)
Theorem corruption_restore_is_code_gated :
  let w' := after (handle_corruption_detected toy_decrypt 1 "report.docx" (Some 1))
              w_corrupted in
  outcome (perform_restore toy_decrypt 1 "report.docx" (Some 1) "report.docx" None)
    w_corrupted = Ok (reply false "OTP invalid or expired")
  /\ fs_lookup "report.docx" (fs w') = Some (list_byte_of_string "garbage")
  /\ event_types w' = ["corruption_detected"; "auto_restore_failed"]%string
  /\ fs_lookup "./nas_storage/user_1/report.docx.v1.enc" (fs w_corrupted)
     = Some (toy_encrypt (list_byte_of_string "hello")).
Proof. vm_compute. repeat split. Qed.

(* ================================================================== *)
(** ** Notification failures *)

(** C7, at a failing input.  With a notification channel that raises,
    [start_restore_request] lets the exception out to its caller (the
    code has been stored by then), while [otp.request] on the same world
    catches it and returns a reply. *)
Theorem start_restore_request_propagates_alert_failure :
  outcome (start_restore_request 1 "report.docx") w_alerts_raise = Raise AlertError
  /\ otps (after (start_restore_request 1 "report.docx") w_alerts_raise)
     = [mkOTP 1 1 "123456" 1300 false]
  /\ outcome (request 1 "restore") w_alerts_raise
     = Ok (reply false "Failed to deliver OTP via Telegram.")
  /\ otps (after (request 1 "restore") w_alerts_raise)
     = [mkOTP 1 1 "123456" 1300 false].
Proof. vm_compute. repeat split. Qed.

(* ================================================================== *)
(** ** Snapshot restore (restore_manager.restore_snapshot) *)

Ltac unfold_restore H :=
  unfold restore_snapshot_entry, _storage_download_to_temp, download_file, fetch_blob,
    decrypt_file, modify, get_file_entry_by_id, snapshot_otp_gate, get_valid_otp,
    mark_otp_used, get_snapshot_entries, copy2, bind, get_user, gets, path_exists, mkdtemp,
    try_finally, read_file, write_file, try_except, ret, raise, add_log,
    record_dr_event, send_alert in H.

Section SnapshotRestore.

Variable decrypt : bytes -> option bytes.

(** One trip of the loop appends one item to one of the two lists, and
    lets no exception out. *)
Lemma restore_snapshot_entry_spec uid tgt se successes failures w :
  exists successes' failures' w',
    restore_snapshot_entry decrypt uid tgt se (successes, failures) w
      = (Ok (successes', failures'), w')
    /\ files w' = files w /\ drevents w' = drevents w
    /\ ((failures' = failures
         /\ exists fe, find (fun e => fe_id e =? se_file_entry_id se) (files w) = Some fe
                       /\ successes' = successes
                            ++ [mkRestored (fe_filename fe) (fe_version fe)
                                  (path_join tgt (fe_filename fe))])
        \/ (successes' = successes /\ exists f, failures' = failures ++ [f])).
Proof.
  destruct (restore_snapshot_entry decrypt uid tgt se (successes, failures) w)
    as [r w'] eqn:H.
  unfold_restore H. crunch H.
  all: inversion H; subst; clear H; unfold rmtree; cbn.
  all: do 3 eexists; split; [reflexivity|]; split; [reflexivity|]; split; [reflexivity|].
  all: try (right; split; [reflexivity|]; eexists; reflexivity).
  all: left; split; [reflexivity|]; eexists; split; reflexivity.
Qed.

Lemma restore_snapshot_entries_spec uid tgt entries :
  forall successes failures w,
  exists successes' failures' w',
    restore_snapshot_entries decrypt uid tgt entries (successes, failures) w
      = (Ok (successes', failures'), w')
    /\ files w' = files w /\ drevents w' = drevents w
    /\ (List.length successes' + List.length failures'
        = List.length successes + List.length failures + List.length entries)%nat
    /\ (forall s, In s successes' ->
          In s successes
          \/ exists se fe,
               In se entries
               /\ find (fun e => fe_id e =? se_file_entry_id se) (files w) = Some fe
               /\ s = mkRestored (fe_filename fe) (fe_version fe)
                        (path_join tgt (fe_filename fe))).
Proof.
  induction entries as [|se entries IH]; intros successes failures w; cbn [restore_snapshot_entries].
  - exists successes, failures, w. unfold ret. repeat split; auto; cbn; lia.
  - destruct (restore_snapshot_entry_spec uid tgt se successes failures w)
      as (s1 & f1 & w1 & Hrun & Hf1 & Hd1 & Hcase).
    destruct (IH s1 f1 w1) as (s2 & f2 & w2 & Hrun2 & Hf2 & Hd2 & Hlen & Hin).
    exists s2, f2, w2. unfold bind. rewrite Hrun, Hrun2.
    split; [reflexivity|]. split; [congruence|]. split; [congruence|]. split.
    + rewrite Hlen. cbn [List.length].
      destruct Hcase as [(-> & fe & _ & ->)|(-> & f & ->)]; rewrite length_app; cbn; lia.
    + intros s Hs. destruct (Hin s Hs) as [Hs1|(se' & fe & Hse & Hfe & ->)].
      * destruct Hcase as [(_ & fe & Hfe & ->)|(-> & _)]; [|now left].
        apply in_app_or in Hs1. destruct Hs1 as [Hs1|[<-|[]]]; [now left|].
        right. exists se, fe. repeat split; auto. now left.
      * right. exists se', fe. rewrite <- Hf1. repeat split; auto. now right.
Qed.

Arguments snapshot_otp_gate : simpl never.
Arguments restore_snapshot_entries : simpl never.

(** The code check returns a verdict and touches the codes only. *)
Lemma snapshot_otp_gate_frame uid code w :
  exists o wg,
    snapshot_otp_gate uid code w = (Ok o, wg)
    /\ files wg = files w /\ drevents wg = drevents w
    /\ snapshot_entries wg = snapshot_entries w.
Proof.
  destruct (snapshot_otp_gate uid code w) as [r wg] eqn:H.
  unfold_restore H. crunch H.
  all: inversion H; subst; clear H; cbn; do 2 eexists; repeat split.
Qed.

Ltac run_restore_snapshot H uid sid tgt code w :=
  unfold restore_snapshot in H;
  unfold bind, try_except, get_user, gets, get_snapshot_entries, record_dr_event,
    send_alert, ret in H;
  cbn in H.

(** [restore_snapshot] returns a reply on every input. *)
Lemma restore_snapshot_total w uid sid tgt code :
  exists r, outcome (restore_snapshot decrypt uid sid tgt code) w = Ok r.
Proof.
  unfold outcome.
  destruct (restore_snapshot decrypt uid sid tgt code w) as [r w'] eqn:H.
  run_restore_snapshot H uid sid tgt code w.
  destruct (find (fun u => u_id u =? uid) (users w)) as [user|];
    [|inversion H; eexists; reflexivity].
  destruct (snapshot_otp_gate_frame uid code w) as (o & wg & Hg & _).
  cbn in H. rewrite Hg in H. cbn in H.
  destruct o; [inversion H; eexists; reflexivity|].
  destruct (filter (fun se => se_snapshot_id se =? sid) (snapshot_entries wg)) as [|se0 rest];
    [inversion H; eexists; reflexivity|].
  destruct (restore_snapshot_entries_spec uid tgt (se0 :: rest) [] [] wg)
    as (s & f & wl & Hl & _).
  cbn in H. rewrite Hl in H. crunch H.
  all: inversion H; eexists; reflexivity.
Qed.

(** Past the user lookup and the code check, a snapshot with entries is
    iterated to the end: every entry lands in one of the two lists, each
    restored item is the file entry a snapshot entry resolves to, written
    under the target folder, and the counts are recorded in a
    snapshot_restore event. *)
Lemma restore_snapshot_report w uid sid tgt code user :
  find (fun u => u_id u =? uid) (users w) = Some user ->
  outcome (snapshot_otp_gate uid code) w = Ok None ->
  let entries := filter (fun se => se_snapshot_id se =? sid) (snapshot_entries w) in
  entries <> [] ->
  exists successes failures,
    outcome (restore_snapshot decrypt uid sid tgt code) w
      = Ok (mkSnapshotReply true None successes failures)
    /\ (List.length successes + List.length failures = List.length entries)%nat
    /\ (forall s, In s successes ->
          exists se fe,
            In se entries
            /\ find (fun e => fe_id e =? se_file_entry_id se) (files w) = Some fe
            /\ s = mkRestored (fe_filename fe) (fe_version fe)
                     (path_join tgt (fe_filename fe)))
    /\ exists earlier ev,
         drevents (after (restore_snapshot decrypt uid sid tgt code) w) = earlier ++ [ev]
         /\ ev_event_type ev = "snapshot_restore"%string
         /\ ev_user_id ev = Some uid
         /\ ev_details ev = Some (snapshot_restore_details sid successes failures).
Proof.
  intros Hu Hgate entries Hne. unfold outcome, after in *.
  destruct (restore_snapshot decrypt uid sid tgt code w) as [r w'] eqn:H.
  run_restore_snapshot H uid sid tgt code w. rewrite Hu in H.
  destruct (snapshot_otp_gate_frame uid code w) as (o & wg & Hg & Hfg & Hdg & Hsg).
  rewrite Hg in Hgate. cbn in Hgate. inversion Hgate; subst o.
  cbn in H. rewrite Hg in H. cbn in H. rewrite Hsg in H. fold entries in H.
  destruct (restore_snapshot_entries_spec uid tgt entries [] [] wg)
    as (s & f & wl & Hl & Hfl & Hdl & Hlen & Hin).
  destruct entries as [|se0 rest] eqn:He; [contradiction|].
  rewrite Hl in H. crunch H.
  all: inversion H; subst; clear H; cbn.
  all: exists s, f; split; [reflexivity|]; split; [exact Hlen|]; split.
  all: try (intros x Hx; destruct (Hin x Hx) as [[]|(se & fe & Hse & Hfe & ->)];
            exists se, fe; rewrite <- Hfg; auto).
  all: eexists _, _; repeat split.
Qed.

End SnapshotRestore.



(* ================================================================== *)
(** ** Snapshot ownership *)

Section Ownership.

Variable decrypt : bytes -> option bytes.

Lemma ign_ret {A} (a : A) : ignores_snapshots (ret a).
Proof. intros s w. reflexivity. Qed.

Lemma ign_raise {A} (e : exn) : ignores_snapshots (@raise A e).
Proof. intros s w. reflexivity. Qed.

Lemma ign_bind {A B} (m : M A) (k : A -> M B) :
  ignores_snapshots m -> (forall a, ignores_snapshots (k a)) -> ignores_snapshots (bind m k).
Proof.
  intros Hm Hk s w. unfold bind. rewrite Hm.
  destruct (m w) as [[a|e] w1]; cbn; [apply Hk | reflexivity].
Qed.

Lemma ign_try_except {A} (m : M A) (h : exn -> M A) :
  ignores_snapshots m -> (forall e, ignores_snapshots (h e)) ->
  ignores_snapshots (try_except m h).
Proof.
  intros Hm Hh s w. unfold try_except. rewrite Hm.
  destruct (m w) as [[a|e] w1]; cbn; [reflexivity | apply Hh].
Qed.

Lemma ign_gets {A} (f : World -> A) :
  (forall s w, f (set_snapshots s w) = f w) -> ignores_snapshots (gets f).
Proof. intros Hf s w. unfold gets. cbn. now rewrite Hf. Qed.

Lemma ign_modify (f : World -> World) :
  (forall s w, f (set_snapshots s w) = set_snapshots s (f w)) -> ignores_snapshots (modify f).
Proof. intros Hf s w. unfold modify. cbn. now rewrite Hf. Qed.

(** The primitives of the restore path: case analysis on what they
    read, none of which is the snapshot table. *)
Ltac ign_prim :=
  intros s w; cbv beta delta [get_valid_otp mark_otp_used add_log record_dr_event send_alert
    mkdtemp read_file write_file path_exists gets]; cbn;
  repeat match goal with
         | |- context [match ?x with _ => _ end] => destruct x
         end; reflexivity.

Lemma ign_get_valid_otp uid code : ignores_snapshots (get_valid_otp uid code).
Proof. ign_prim. Qed.

Lemma ign_mark_otp_used id : ignores_snapshots (mark_otp_used id).
Proof. ign_prim. Qed.

Lemma ign_add_log u a d : ignores_snapshots (add_log u a d).
Proof. ign_prim. Qed.

Lemma ign_record_dr_event u t d : ignores_snapshots (record_dr_event u t d).
Proof. ign_prim. Qed.

Lemma ign_send_alert c m : ignores_snapshots (send_alert c m).
Proof. ign_prim. Qed.

Lemma ign_mkdtemp p : ignores_snapshots (mkdtemp p).
Proof. ign_prim. Qed.

Lemma ign_read_file p : ignores_snapshots (read_file p).
Proof. ign_prim. Qed.

Lemma ign_write_file p b : ignores_snapshots (write_file p b).
Proof. ign_prim. Qed.

Lemma ign_path_exists p : ignores_snapshots (path_exists p).
Proof. ign_prim. Qed.

Create HintDb ign.
#[local] Hint Resolve ign_ret ign_raise ign_get_valid_otp ign_mark_otp_used ign_add_log
  ign_record_dr_event ign_send_alert ign_mkdtemp ign_read_file ign_write_file
  ign_path_exists : ign.

(** Composite computations: follow their structure. *)
Ltac ign :=
  repeat first
    [ progress intros
    | solve [auto with ign]
    | apply ign_bind
    | apply ign_try_except
    | apply ign_gets; reflexivity
    | apply ign_modify; reflexivity
    | match goal with
      | |- ignores_snapshots (match ?x with _ => _ end) => destruct x
      | |- ignores_snapshots (if ?x then _ else _) => destruct x
      end ].

Lemma ign_download_to_temp sp : ignores_snapshots (_storage_download_to_temp sp).
Proof.
  unfold _storage_download_to_temp, download_file, fetch_blob, copy2. ign.
Qed.

Lemma ign_restore_snapshot_entry uid tgt se acc :
  ignores_snapshots (restore_snapshot_entry decrypt uid tgt se acc).
Proof.
  unfold restore_snapshot_entry, get_file_entry_by_id, decrypt_file. destruct acc.
  pose proof ign_download_to_temp. ign.
Qed.

Lemma ign_restore_snapshot_entries uid tgt entries :
  forall acc, ignores_snapshots (restore_snapshot_entries decrypt uid tgt entries acc).
Proof.
  induction entries as [|se entries IH]; intros acc; cbn [restore_snapshot_entries].
  - apply ign_ret.
  - apply ign_bind; [apply ign_restore_snapshot_entry | exact IH].
Qed.

Lemma ign_restore_snapshot uid sid tgt code :
  ignores_snapshots (restore_snapshot decrypt uid sid tgt code).
Proof.
  unfold restore_snapshot, snapshot_otp_gate, get_user, get_snapshot_entries.
  pose proof ign_restore_snapshot_entries. ign.
Qed.

End Ownership.

Lemma set_snapshots_same w : set_snapshots (snapshots w) w = w.
Proof. now destruct w. Qed.

Lemma ignores_snapshots_keeps {A} (m : M A) (w : World) :
  ignores_snapshots m -> snapshots (snd (m w)) = snapshots w.
Proof.
  intros H. specialize (H (snapshots w) w). rewrite set_snapshots_same in H.
  apply (f_equal snd) in H. cbn in H. rewrite H at 1. reflexivity.
Qed.


(* ================================================================== *)
(** ** The crash-recovery worker (disaster_recovery._unsynced_uploader_loop) *)

(** With distinct primary keys, popping removes the rows it returns and
    no other. *)
Lemma pop_removes_batch (n : nat) (q : list UnsyncedFile) :
  NoDup (map uf_id q) ->
  filter (fun r => negb (existsb (fun x => uf_id x =? uf_id r) (firstn n q))) q = skipn n q.
Proof.
  revert n. induction q as [|x q IH]; intros n Hnd; [now destruct n|].
  destruct n as [|n]; [apply filter_all; reflexivity|].
  inversion Hnd as [|? ? Hx Hq]; subst.
  cbn [firstn skipn filter].
  assert (Hself : existsb (fun y => uf_id y =? uf_id x) (x :: firstn n q) = true)
    by (unfold existsb; now rewrite Z.eqb_refl).
  rewrite Hself. cbn [negb].
  rewrite <- (IH n Hq). apply filter_ext_in. intros r Hr.
  change (existsb (fun y => uf_id y =? uf_id r) (x :: firstn n q))
    with ((uf_id x =? uf_id r) || existsb (fun y => uf_id y =? uf_id r) (firstn n q))%bool.
  destruct (Z.eqb_spec (uf_id x) (uf_id r)) as [E|_]; [|reflexivity].
  exfalso. apply Hx. rewrite E. now apply in_map.
Qed.

Lemma next_id_fresh (l : list Z) : ~ In (next_id l) l.
Proof. intros H. apply next_id_gt in H. lia. Qed.

(** Processing one popped item ends in one of two ways: a FileEntry for
    its user and filename is registered and the queue is left alone, or
    a PendingUpload row with its user, path and filename is appended and
    the file table is left alone. *)
Lemma uploader_item_outcome (u : UnsyncedFile) (w : World) :
  let w' := after (_unsynced_uploader_item u) w in
  (unsynced_files w' = unsynced_files w
   /\ exists fe, files w' = files w ++ [fe]
                 /\ fe_user_id fe = uf_user_id u /\ fe_filename fe = uf_filename u
                 /\ fe_id fe = next_id (map fe_id (files w)))
  \/ (files w' = files w
      /\ unsynced_files w'
         = unsynced_files w
           ++ [mkUnsyncedFile (next_id (map uf_id (unsynced_files w)))
                 (uf_user_id u) (uf_local_path u) (uf_filename u) 0]).
Proof.
  unfold after. destruct (_unsynced_uploader_item u w) as [r w1] eqn:H.
  unfold_run H. crunch H.
  all: inversion H; subst; clear H; cbn.
  all: try (right; split; reflexivity).
  left. split; [reflexivity|]. eexists. repeat split.
Qed.


Lemma worker_step_conserves (w0 : World) (c : World * Worker) :
  obligations_conserved w0 c -> obligations_conserved w0 (worker_step c).
Proof.
  destruct c as [w [|[|u rest]]]; unfold obligations_conserved; cbn [fst snd in_flight].
  - intros [Hcount Hnd]. unfold worker_step, pop_unsynced_files. cbn [fst snd in_flight].
    cbn [unsynced_files files set_unsynced_files]. split.
    + rewrite pop_removes_batch by exact Hnd. rewrite <- Hcount.
      pose proof (f_equal (@List.length _) (firstn_skipn 20 (unsynced_files w))) as Hlen.
      rewrite length_app in Hlen. cbn [List.length] in *. lia.
    + now apply NoDup_map_filter.
  - intros H. exact H.
  - intros [Hcount Hnd]. unfold worker_step. cbn [fst snd in_flight].
    pose proof (uploader_item_outcome u w) as Hitem. unfold after in Hitem.
    destruct Hitem as [(Hq & fe & Hf & _)|(Hf & Hq)]; rewrite Hq, Hf.
    + split; [|exact Hnd]. rewrite length_app. cbn [List.length] in *. lia.
    + split.
      * rewrite length_app. cbn [List.length] in *. lia.
      * rewrite map_app. cbn [map uf_id].
        apply NoDup_app; [exact Hnd | repeat constructor; intros [] |].
        intros x Hx [<-|[]]. exact (next_id_fresh _ Hx).
Qed.

(** C9, as the code has it.  An item leaves the queue when it is
    popped, before it is processed, and is then held by the worker in
    memory until its turn.  Processing it ends with a FileEntry
    registered for it or with a PendingUpload row re-enqueued for it; so
    in every state the worker reaches, the queued rows, the items in
    flight and the registered entries together account for every
    obligation there was at the start --- none is lost and none is
    duplicated, as long as the worker is not stopped with items in
    flight. *)
Theorem worker_conserves_obligations :
  (forall u w,
     let w' := after (_unsynced_uploader_item u) w in
     (unsynced_files w' = unsynced_files w
      /\ exists fe, files w' = files w ++ [fe]
                    /\ fe_user_id fe = uf_user_id u /\ fe_filename fe = uf_filename u
                    /\ fe_id fe = next_id (map fe_id (files w)))
     \/ (files w' = files w
         /\ unsynced_files w'
            = unsynced_files w
              ++ [mkUnsyncedFile (next_id (map uf_id (unsynced_files w)))
                    (uf_user_id u) (uf_local_path u) (uf_filename u) 0]))
  /\ (forall w0 c,
        NoDup (map uf_id (unsynced_files w0)) ->
        worker_reach (w0, Polling) c ->
        obligations_conserved w0 c).
Proof.
  split; [exact uploader_item_outcome|].
  intros w0 c Hnd Hreach. induction Hreach as [|c _ IH].
  - split; [cbn; lia | exact Hnd].
  - apply worker_step_conserves, IH.
Qed.

(** The reading of C9 in which nothing leaves the queue before its
    result is recorded fails: right after the pop, Alice's pending
    report.docx is neither queued nor registered. *)
Lemma never_lost_counterexample : ~ never_lost w_pending.
Proof.
  intros H.
  specialize (H (fst (worker_step (w_pending, Polling)))
                (snd (worker_step (w_pending, Polling)))
                pending_report
                (reach_step _ _ (reach_start _))
                (or_introl eq_refl)).
  destruct H as [(r & Hin & _)|(fe & Hin & _)]; vm_compute in Hin; exact Hin.
Qed.

Lemma worker_conserves_obligations_witness :
  obligations_conserved w_pending (worker_step (worker_step (w_pending, Polling)))
  /\ map fe_version (files (fst (worker_step (worker_step (w_pending, Polling))))) = [1].
Proof.
  destruct worker_conserves_obligations as [_ Hinv].
  assert (Hnd : NoDup (map uf_id (unsynced_files w_pending)))
    by (simpl; repeat constructor; intros []).
  split; [|reflexivity].
  apply (Hinv w_pending _ Hnd). apply reach_step, reach_step, reach_start.
Defined.

(* ================================================================== *)
(** * Further properties of the backend *)

(** ** The primary Blob Store (backend/storage_client.py) *)

Lemma fs_lookup_remove_same (p : string) (l : list (string * bytes)) :
  fs_lookup p (fs_remove p l) = None.
Proof.
  unfold fs_remove. induction l as [|[q b] l IH]; simpl; [reflexivity|].
  destruct (String.eqb_spec q p) as [->|Hne]; simpl; [exact IH|].
  destruct (String.eqb_spec q p); [contradiction | exact IH].
Qed.

Lemma fs_lookup_remove_other (p q : string) (l : list (string * bytes)) :
  q <> p -> fs_lookup q (fs_remove p l) = fs_lookup q l.
Proof.
  intros Hne. unfold fs_remove. induction l as [|[r b] l IH]; simpl; [reflexivity|].
  destruct (String.eqb_spec r p) as [->|Hrp]; simpl.
  - destruct (String.eqb_spec p q); [congruence | exact IH].
  - destruct (String.eqb_spec r q); [reflexivity | exact IH].
Qed.

Lemma fs_lookup_put_other (p q : string) (b : bytes) (l : list (string * bytes)) :
  q <> p -> fs_lookup q (fs_put p b l) = fs_lookup q l.
Proof.
  intros Hne. unfold fs_put. simpl.
  destruct (String.eqb_spec p q); [congruence|]. now apply fs_lookup_remove_other.
Qed.

Lemma fs_remove_twice (p : string) (l : list (string * bytes)) :
  fs_remove p (fs_remove p l) = fs_remove p l.
Proof.
  unfold fs_remove. apply filter_all. intros x Hx. apply filter_In in Hx. tauto.
Qed.




(** ** Locators *)

Lemma append_cancel_l (a x y : string) : (a ++ x = a ++ y)%string -> x = y.
Proof. induction a as [|c a IH]; simpl; intros H; [exact H|]. inversion H. auto. Qed.

Lemma string_length_append (a b : string) :
  String.length (a ++ b) = (String.length a + String.length b)%nat.
Proof. induction a as [|c a IH]; simpl; [reflexivity|]. now rewrite IH. Qed.

Lemma append_cancel_r (s x y : string) : (x ++ s = y ++ s)%string -> x = y.
Proof.
  revert y. induction x as [|c x IH]; intros [|d y] H.
  - reflexivity.
  - exfalso. apply (f_equal String.length) in H.
    change (String.length s = S (String.length (y ++ s))) in H.
    rewrite string_length_append in H. lia.
  - exfalso. apply (f_equal String.length) in H.
    change (S (String.length (x ++ s)) = String.length s) in H.
    rewrite string_length_append in H. lia.
  - change (String c (x ++ s) = String d (y ++ s))%string in H.
    inversion H. f_equal. auto.
Qed.

Lemma str_of_Z_inj (a b : Z) : str_of_Z a = str_of_Z b -> a = b.
Proof.
  unfold str_of_Z. intros H.
  assert (Hn : forall z, Z.to_int z <> Decimal.Pos Decimal.Nil
                         /\ Z.to_int z <> Decimal.Neg Decimal.Nil).
  { intros [|p|p]; simpl; split; try discriminate; intros E; inversion E as [E'];
      exact (DecimalPos.Unsigned.to_uint_nonnil p E'). }
  apply DecimalZ.to_int_inj.
  assert (Ha := NilZero.isi (Z.to_int a) (proj1 (Hn a)) (proj2 (Hn a))).
  assert (Hb := NilZero.isi (Z.to_int b) (proj1 (Hn b)) (proj2 (Hn b))).
  rewrite H in Ha. congruence.
Qed.

Lemma storage_filename_no_leading_sep (f : string) (v : Z) :
  starts_with_sep (_storage_filename f v) = false.
Proof.
  unfold _storage_filename. destruct f as [|c f]; [reflexivity|].
  simpl. destruct (Ascii.eqb c "/"%char) eqn:E; [reflexivity | exact E].
Qed.

(** X3.  For one user and one filename the locator determines the
    version: two versions of a file are never stored at the same
    path, so an upload cannot overwrite the blob of another version of
    the same file. *)
Theorem upload_dest_version_injective (uid : Z) (f : string) (v1 v2 : Z) :
  v1 <> v2 -> upload_dest uid f v1 <> upload_dest uid f v2.
Proof.
  intros Hne H. apply Hne. revert H.
  unfold upload_dest, path_join.
  rewrite !storage_filename_no_leading_sep.
  intros H.
  assert (Hb : _storage_filename f v1 = _storage_filename f v2).
  { destruct ((_user_dir uid =? "")%string || ends_with_sep (_user_dir uid))%bool.
    - now apply append_cancel_l in H.
    - now apply append_cancel_l, append_cancel_l in H. }
  unfold _storage_filename in Hb.
  apply append_cancel_l, append_cancel_l, append_cancel_r in Hb.
  now apply str_of_Z_inj.
Qed.

Lemma upload_dest_version_injective_witness :
  String.eqb (upload_dest 1 "report.docx" 1) (upload_dest 1 "report.docx" 2) = false.
Proof.
  apply String.eqb_neq. apply (upload_dest_version_injective 1 "report.docx" 1 2). lia.
Defined.

(** ** The file table (backend/db.py) *)

Lemma same_key_iff (uid : Z) (f : string) (v : Z) (e : FileEntry) :
  same_key uid f v e = true <-> entry_key e = (uid, f, v).
Proof.
  unfold same_key, entry_key. rewrite !andb_true_iff, !Z.eqb_eq, String.eqb_eq.
  split; [intros [[-> ->] ->]; reflexivity | intros H; inversion H; auto].
Qed.

Lemma key_free_iff (uid : Z) (f : string) (v : Z) (rows : list FileEntry) :
  existsb (same_key uid f v) rows = false <-> ~ In (uid, f, v) (map entry_key rows).
Proof.
  split.
  - intros H Hin. apply in_map_iff in Hin. destruct Hin as (e & Hk & He).
    assert (Ht : existsb (same_key uid f v) rows = true)
      by (apply existsb_exists; exists e; split; [exact He | now apply same_key_iff]).
    congruence.
  - intros H. destruct (existsb (same_key uid f v) rows) eqn:E; [|reflexivity].
    apply existsb_exists in E. destruct E as (e & He & Hk). apply same_key_iff in Hk.
    exfalso. apply H. rewrite <- Hk. now apply in_map.
Qed.

Lemma NoDup_snoc {A} (l : list A) (x : A) : NoDup l -> ~ In x l -> NoDup (l ++ [x]).
Proof.
  intros Hl Hx. apply NoDup_app; [exact Hl | repeat constructor; intros [] |].
  intros y Hy [<-|[]]. contradiction.
Qed.

Lemma find_snoc_fresh {A} (p : A -> bool) (l : list A) (x : A) :
  (forall y, In y l -> p y = false) -> p x = true -> find p (l ++ [x]) = Some x.
Proof.
  induction l as [|y l IH]; simpl; intros Hl Hx; [now rewrite Hx|].
  rewrite (Hl y (or_introl eq_refl)). apply IH; auto.
Qed.

(** X4.  On a file table with distinct ids and distinct
    (user, filename, version) keys, [add_file_entry] refuses a key that
    is taken with [IntegrityError] and changes nothing; for a free key it
    appends one live row that [get_file_entry] then returns, and ids and
    keys stay distinct. *)
Theorem add_file_entry_keeps_keys (w : World) (uid : Z) (f : string) (v : Z)
    (sp : string) (ck : option string) :
  store_wf w ->
  let r := outcome (add_file_entry uid f v sp ck) w in
  let w' := after (add_file_entry uid f v sp ck) w in
  (In (uid, f, v) (map entry_key (files w)) -> r = Raise IntegrityError /\ w' = w)
  /\ (~ In (uid, f, v) (map entry_key (files w)) ->
      exists fe,
        r = Ok fe /\ files w' = files w ++ [fe]
        /\ entry_key fe = (uid, f, v) /\ fe_deleted fe = false
        /\ fe_storage_path fe = sp /\ fe_checksum fe = ck
        /\ store_wf w'
        /\ outcome (get_file_entry uid f v) w' = Ok (Some fe)).
Proof.
  intros [Hid Hkey]. unfold outcome, after, add_file_entry. split.
  - intros Hin.
    destruct (existsb (same_key uid f v) (files w)) eqn:E; [split; reflexivity|].
    apply key_free_iff in E. contradiction.
  - intros Hfree. pose proof (proj2 (key_free_iff uid f v (files w)) Hfree) as E.
    rewrite E. cbn [fst snd]. eexists. split; [reflexivity|]. unfold store_wf. cbn.
    repeat split.
    + rewrite map_app. apply NoDup_snoc; [exact Hid | apply next_id_fresh].
    + rewrite map_app. apply NoDup_snoc; [exact Hkey | exact Hfree].
    + unfold get_file_entry, gets. cbn. f_equal. f_equal. apply find_snoc_fresh.
      * intros y Hy. apply andb_false_iff. left.
        destruct (same_key uid f v y) eqn:Ek; [|reflexivity].
        apply same_key_iff in Ek. exfalso. apply Hfree. rewrite <- Ek. now apply in_map.
      * unfold same_key. cbn. now rewrite !Z.eqb_refl, String.eqb_refl.
Qed.

Lemma add_file_entry_keeps_keys_witness :
  store_wf (after (add_file_entry 1 "report.docx" 5 "somewhere" None) (backed_up 3))
  /\ outcome (add_file_entry 1 "report.docx" 3 "somewhere" None) (backed_up 3)
     = Raise IntegrityError.
Proof.
  assert (Hwf : store_wf (backed_up 3)).
  { split; vm_compute; repeat constructor; simpl; intuition discriminate. }
  destruct (add_file_entry_keeps_keys (backed_up 3) 1 "report.docx" 5 "somewhere" None Hwf)
    as [_ Hfree].
  destruct (add_file_entry_keeps_keys (backed_up 3) 1 "report.docx" 3 "somewhere" None Hwf)
    as [Htaken _].
  split.
  - destruct Hfree as (fe & _ & _ & _ & _ & _ & _ & Hwf' & _); [|exact Hwf'].
    vm_compute. intuition discriminate.
  - apply Htaken. vm_compute. auto.
Defined.

(** X7.  [delete_file_entry] is a soft delete: for a known id the row
    stays in the table with only its [deleted] flag set, every other row
    is untouched, and the version is no longer returned by
    [get_file_entry]; for an unknown id it answers [False] and changes
    nothing. *)
Theorem delete_file_entry_soft (w : World) (id : Z) :
  store_wf w ->
  let r := outcome (delete_file_entry id) w in
  let w' := after (delete_file_entry id) w in
  (~ In id (map fe_id (files w)) -> r = Ok false /\ w' = w)
  /\ (forall e, In e (files w) -> fe_id e = id ->
        r = Ok true
        /\ In (with_deleted e) (files w')
        /\ List.length (files w') = List.length (files w)
        /\ (forall x, In x (files w) -> fe_id x <> id -> In x (files w'))
        /\ outcome (get_file_entry (fe_user_id e) (fe_filename e) (fe_version e)) w'
           = Ok None).
Proof.
  intros [Hid Hkey]. unfold outcome, after, delete_file_entry. split.
  - intros Hno.
    destruct (find (fun e => fe_id e =? id) (files w)) as [e|] eqn:E; [|split; reflexivity].
    apply find_some in E. destruct E as [He Heq]. apply Z.eqb_eq in Heq.
    exfalso. apply Hno. rewrite <- Heq. now apply in_map.
  - intros e He Heid.
    destruct (find (fun e => fe_id e =? id) (files w)) as [e0|] eqn:E.
    2:{ apply (find_none _ _ E) in He. apply Z.eqb_neq in He. contradiction. }
    cbn [fst snd]. cbn. split; [reflexivity|]. split; [|split; [|split]].
    + apply in_map_iff. exists e. split; [|exact He].
      rewrite (proj2 (Z.eqb_eq _ _) Heid). reflexivity.
    + apply length_map.
    + intros x Hx Hne. apply in_map_iff. exists x. split; [|exact Hx].
      now rewrite (proj2 (Z.eqb_neq _ _) Hne).
    + unfold get_file_entry, gets. cbn. f_equal.
      match goal with |- find ?p ?l = None => destruct (find p l) as [y|] eqn:Ef end;
        [|reflexivity].
      exfalso. apply find_some in Ef. destruct Ef as [Hy Hp].
      apply andb_true_iff in Hp. destruct Hp as [Hk Hd].
      apply in_map_iff in Hy. destruct Hy as (x & <- & Hx).
      destruct (Z.eqb_spec (fe_id x) id) as [Hxid|Hxid]; [discriminate|].
      apply same_key_iff in Hk.
      assert (Hxe : x = e).
      { apply (NoDup_map_inj entry_key (files w)); auto. }
      congruence.
Qed.

Lemma delete_file_entry_soft_witness :
  outcome (delete_file_entry 3) (backed_up 3) = Ok true
  /\ outcome (get_file_entry 1 "report.docx" 3) w_newest_flagged = Ok None
  /\ List.length (files w_newest_flagged) = 3%nat.
Proof.
  assert (Hwf : store_wf (backed_up 3)).
  { split; vm_compute; repeat constructor; simpl; intuition discriminate. }
  destruct (delete_file_entry_soft (backed_up 3) 3 Hwf) as [_ Hknown].
  destruct (Hknown (report_v 3 3)) as (Hr & _ & Hlen & _ & Hget);
    [vm_compute; auto | reflexivity |].
  split; [exact Hr|]. split; [exact Hget | exact Hlen].
Defined.

(** ** Backups and the file table *)

Lemma path_join_head (c : ascii) (a b : string) :
  starts_with_sep b = false -> exists r, path_join (String c a) b = String c r.
Proof.
  intros H. unfold path_join. rewrite H.
  destruct ((String c a =? "")%string || ends_with_sep (String c a))%bool;
    eexists; reflexivity.
Qed.

(** Locators live under [./nas_storage]. *)
Lemma upload_dest_head (uid : Z) (f : string) (v : Z) :
  exists r, upload_dest uid f v = String "."%char r.
Proof.
  unfold upload_dest, _user_dir, PRIMARY_STORAGE.
  destruct (path_join_head "."%char "/nas_storage" ("user_" ++ str_of_Z uid) eq_refl)
    as (r1 & ->).
  apply path_join_head, storage_filename_no_leading_sep.
Qed.

Lemma fs_lookup_filter (keep : string -> bool) (p : string) (l : list (string * bytes)) :
  keep p = true -> fs_lookup p (filter (fun kv => keep (fst kv)) l) = fs_lookup p l.
Proof.
  intros Hp. induction l as [|[q b] l IH]; simpl; [reflexivity|].
  destruct (keep q) eqn:Hq; simpl.
  - now rewrite IH.
  - destruct (String.eqb_spec q p) as [->|_]; [congruence | exact IH].
Qed.

(** Removing a temporary directory leaves the blobs alone. *)
Lemma rmtree_keeps_blob (n : Z) (pre : string) (uid : Z) (f : string) (v : Z) (w : World) :
  fs_lookup (upload_dest uid f v) (fs (rmtree ("/tmp/" ++ pre ++ str_of_Z n) w))
  = fs_lookup (upload_dest uid f v) (fs w).
Proof.
  unfold rmtree. cbn [fs set_fs].
  apply (fs_lookup_filter (fun p => negb (String.prefix (("/tmp/" ++ pre ++ str_of_Z n) ++ "/") p))).
  destruct (upload_dest_head uid f v) as (r & ->). reflexivity.
Qed.

Section BackupStore.

Variable encrypt : bytes -> bytes.
Variable sha256_hex : bytes -> string.

(** The file table after a backup that returns: the new row heads the
    version-descending list of its file, and what is deleted is what lies
    beyond the third place of that list. *)
Lemma backup_files_shape w uid path fe w' :
  perform_manual_backup encrypt sha256_hex uid path w = (Ok fe, w') ->
  let fname := basename path in
  exists rest,
    sort_by version_desc (filter (live_match uid fname) (files w ++ [fe])) = fe :: rest
    /\ (forall x, In x rest -> In x (files w) /\ live_match uid fname x = true)
    /\ files w' = delete_rows (skipn 2 rest) (files w ++ [fe])
    /\ fe_id fe = next_id (map fe_id (files w))
    /\ ~ In (entry_key fe) (map entry_key (files w))
    /\ live_match uid fname fe = true.
Proof.
  intros H fname. apply backup_ok_inv in H. fold fname in H.
  destruct H as (data & _ & _ & Hk & Hfe & Hfiles & _).
  set (v := latest_version uid fname w + 1) in *.
  assert (Hlive : live_match uid fname fe = true).
  { rewrite Hfe. unfold live_match. cbn. now rewrite Z.eqb_refl, String.eqb_refl. }
  assert (Hold : forall x, In x (files w) -> live_match uid fname x = true ->
                           fe_version x < fe_version fe).
  { intros x Hx Hl. pose proof (latest_version_upper uid fname w x Hx Hl).
    rewrite Hfe. cbn. lia. }
  destruct (newest_heads_list uid fname (files w) fe Hlive Hold) as (rest & Hsort & Hrest).
  exists rest. split; [exact Hsort|]. split; [|split; [|split; [|split]]].
  - intros x Hx. split; [now apply Hrest|].
    assert (Hin : In x (sort_by version_desc (filter (live_match uid fname) (files w ++ [fe]))))
      by (rewrite Hsort; now right).
    apply sort_by_In, filter_In in Hin. tauto.
  - unfold after in Hfiles.
    rewrite prune_old_versions_run in Hfiles by (unfold MAX_VERSIONS; lia).
    cbn in Hfiles. unfold live_versions_desc in Hfiles. cbn in Hfiles.
    unfold sort_by in Hsort. rewrite Hsort in Hfiles. exact Hfiles.
  - rewrite Hfe. reflexivity.
  - apply key_free_iff in Hk. rewrite Hfe. exact Hk.
  - exact Hlive.
Qed.

(** X5.  After a backup that returns: the new entry is in the table; at
    most [MAX_VERSIONS] (three) live rows of the file remain; every row
    of the table was there before or is the new one, unaltered; and on a
    table with distinct ids and distinct keys, ids and keys stay distinct
    and the rows of other files, and rows flagged deleted, are all
    kept. *)
Theorem backup_keeps_store w uid path fe w' :
  perform_manual_backup encrypt sha256_hex uid path w = (Ok fe, w') ->
  In fe (files w')
  /\ (List.length (filter (live_match uid (basename path)) (files w')) <= 3)%nat
  /\ (forall e, In e (files w') -> In e (files w) \/ e = fe)
  /\ (store_wf w ->
      store_wf w'
      /\ forall e, In e (files w) -> live_match uid (basename path) e = false ->
                   In e (files w')).
Proof.
  intros H. apply backup_files_shape in H.
  destruct H as (rest & Hsort & Hrest & Hfiles & Hid & Hkey & Hlive).
  set (fname := basename path) in *.
  assert (Hgone : forall g, In g (skipn 2 rest) -> In g (files w) /\ live_match uid fname g = true)
    by (intros g Hg; apply Hrest; eapply In_skipn; exact Hg).
  unfold store_wf. rewrite Hfiles. split; [|split; [|split]].
  - apply delete_rows_In. split; [apply in_or_app; right; now left|].
    intros (g & Hg & E). apply Hgone in Hg. destruct Hg as [Hg _].
    pose proof (next_id_gt (map fe_id (files w)) (fe_id g) (in_map fe_id _ _ Hg)). lia.
  - unfold delete_rows. rewrite filter_comm.
    pose proof (sort_by_perm version_desc (filter (live_match uid fname) (files w ++ [fe])))
      as Hp.
    rewrite Hsort in Hp.
    rewrite <- (Permutation_length (filter_perm _ _ _ Hp)).
    change (fe :: rest) with ([fe] ++ rest).
    rewrite <- (firstn_skipn 2 rest) at 1.
    rewrite !filter_app, !length_app.
    rewrite (filter_none _ (skipn 2 rest)).
    + pose proof (filter_length_le
                    (fun r => negb (existsb (fun e => fe_id e =? fe_id r) (skipn 2 rest)))
                    [fe]) as H1.
      pose proof (filter_length_le
                    (fun r => negb (existsb (fun e => fe_id e =? fe_id r) (skipn 2 rest)))
                    (firstn 2 rest)) as H2.
      pose proof (firstn_le_length 2 rest) as H3.
      cbn [List.length] in *. lia.
    + intros g Hg. apply negb_false_iff, gone_by_id. now exists g.
  - intros e He. apply delete_rows_In in He. destruct He as [He _].
    apply in_app_or in He. destruct He as [He|[<-|[]]]; auto.
  - intros [Hids Hkeys]. split; [split|].
    + unfold delete_rows. apply NoDup_map_filter. rewrite map_app.
      apply NoDup_snoc; [exact Hids|]. cbn. rewrite Hid. apply next_id_fresh.
    + unfold delete_rows. apply NoDup_map_filter. rewrite map_app.
      apply NoDup_snoc; [exact Hkeys | exact Hkey].
    + intros e He Hnl. apply delete_rows_In. split; [apply in_or_app; now left|].
      intros (g & Hg & E). apply Hgone in Hg. destruct Hg as [Hg Hgl].
      assert (Hge : g = e) by (apply (NoDup_map_inj fe_id (files w)); auto).
      congruence.
Qed.

(** X6.  When a row of the table --- live or flagged deleted ---
    already carries the version [latest + 1] the backup is about to hand
    out, the blob is put first and the registration then fails: the
    backup raises [IntegrityError], the file table and the PendingUpload
    queue are as before, and the locator now holds the new encrypted
    bytes. *)
Theorem backup_version_collision w uid path user data :
  find (fun u => u_id u =? uid) (users w) = Some user ->
  fs_lookup path (fs w) = Some data ->
  unwritable w (backup_tmp_path w path) = false ->
  let v := latest_version uid (basename path) w + 1 in
  unwritable w (upload_dest uid (basename path) v) = false ->
  In (uid, basename path, v) (map entry_key (files w)) ->
  let w' := after (perform_manual_backup encrypt sha256_hex uid path) w in
  outcome (perform_manual_backup encrypt sha256_hex uid path) w = Raise IntegrityError
  /\ files w' = files w
  /\ unsynced_files w' = unsynced_files w
  /\ fs_lookup (upload_dest uid (basename path) v) (fs w') = Some (encrypt data).
Proof.
  intros Hu Hd Htmp v Hdest Hin. subst v. unfold backup_tmp_path in Htmp.
  assert (Hk : existsb (same_key uid (basename path)
                          (latest_version uid (basename path) w + 1)) (files w) = true).
  { destruct (existsb _ (files w)) eqn:E; [reflexivity|].
    apply key_free_iff in E. contradiction. }
  unfold after, outcome.
  destruct (perform_manual_backup encrypt sha256_hex uid path w) as [r w1] eqn:H.
  unfold_run H. crunch H.
  inversion H; subst; clear H. cbn [fst snd].
  split; [reflexivity|]. rewrite rmtree_keeps_blob. unfold rmtree. cbn.
  rewrite String.eqb_refl. repeat split.
Qed.

End BackupStore.

Lemma backup_keeps_store_witness :
  store_wf (backed_up 4)
  /\ List.length (filter (live_match 1 "report.docx") (files (backed_up 4))) = 3%nat.
Proof.
  assert (Hb : perform_manual_backup toy_encrypt toy_sha256 1 "/home/alice/report.docx"
                 (backed_up 3) = (Ok (report_v 4 4), backed_up 4))
    by (apply (backed_up_step 3); reflexivity).
  assert (Hwf : store_wf (backed_up 3)).
  { split; vm_compute; repeat constructor; simpl; intuition discriminate. }
  destruct (backup_keeps_store toy_encrypt toy_sha256 _ _ _ _ _ Hb) as (_ & _ & _ & Hkeep).
  split; [exact (proj1 (Hkeep Hwf)) | reflexivity].
Defined.

(** After version 3 is flagged deleted the next backup computes version
    3 again and collides with the flagged row. *)
Lemma backup_version_collision_witness :
  outcome (perform_manual_backup toy_encrypt toy_sha256 1 "/home/alice/report.docx")
    w_newest_flagged = Raise IntegrityError
  /\ files (after (perform_manual_backup toy_encrypt toy_sha256 1 "/home/alice/report.docx")
              w_newest_flagged) = files w_newest_flagged.
Proof.
  assert (Hu : find (fun u => u_id u =? 1) (users w_newest_flagged) = Some alice)
    by reflexivity.
  assert (Hd : fs_lookup "/home/alice/report.docx" (fs w_newest_flagged)
               = Some (list_byte_of_string "hello")) by reflexivity.
  assert (Ht : unwritable w_newest_flagged
                 (backup_tmp_path w_newest_flagged "/home/alice/report.docx") = false)
    by reflexivity.
  assert (Hw : unwritable w_newest_flagged
                 (upload_dest 1 (basename "/home/alice/report.docx")
                    (latest_version 1 (basename "/home/alice/report.docx") w_newest_flagged + 1))
               = false) by reflexivity.
  assert (Hin : In (1, basename "/home/alice/report.docx",
                    latest_version 1 (basename "/home/alice/report.docx") w_newest_flagged + 1)
                  (map entry_key (files w_newest_flagged)))
    by (vm_compute; auto).
  destruct (backup_version_collision toy_encrypt toy_sha256 w_newest_flagged 1
              "/home/alice/report.docx" alice _ Hu Hd Ht Hw Hin) as (Hr & Hf & _).
  split; [exact Hr | exact Hf].
Defined.

(** ** Single-file restore (restore_manager.perform_restore) *)

Ltac unfold_perform_restore H :=
  unfold perform_restore, get_file_entry, get_file_entries in H; unfold_restore H.

Lemma find_by_own_id (o : OTP) (l : list OTP) :
  In o l -> exists o', find (fun x => otp_id x =? otp_id o) l = Some o'.
Proof.
  intros Hin. destruct (find (fun x => otp_id x =? otp_id o) l) eqn:E; [eauto|].
  apply (find_none _ _ E) in Hin. rewrite Z.eqb_refl in Hin. discriminate.
Qed.

Section SingleRestore.

Variable decrypt : bytes -> option bytes.

(** X8.  With a code that the check accepts, a live entry for the
    requested version, its blob in the store and decryptable, and
    temporary and target paths that can be written (the target outside
    the temporary directory), [perform_restore] answers ok, the target
    holds the decrypted bytes, the accepted code row is marked used, a
    restore_performed event is the last event, and the file table is as
    before. *)
Theorem perform_restore_success w uid f v target code user o entry blob plain :
  find (fun u => u_id u =? uid) (users w) = Some user ->
  first_code w uid code = Some o ->
  now w <= otp_expiry o ->
  live_entry w uid f v = Some entry ->
  fs_lookup (fe_storage_path entry) (fs w) = Some blob ->
  decrypt blob = Some plain ->
  unwritable w (restore_tmp_path w (fe_storage_path entry)) = false ->
  unwritable w target = false ->
  String.prefix (dirname (restore_tmp_path w (fe_storage_path entry)) ++ "/") target = false ->
  let w' := after (perform_restore decrypt uid f (Some v) target (Some code)) w in
  outcome (perform_restore decrypt uid f (Some v) target (Some code)) w
    = Ok (reply true "Restore completed successfully")
  /\ fs_lookup target (fs w') = Some plain
  /\ (forall x, In x (otps w') -> otp_id x = otp_id o -> otp_used x = true)
  /\ (exists earlier ev, drevents w' = earlier ++ [ev]
                         /\ ev_event_type ev = "restore_performed"%string)
  /\ files w' = files w.
Proof.
  unfold first_code, live_entry, restore_tmp_path.
  intros Hu Ho Hexp He Hblob Hdec Htmp Htgt Hout.
  destruct (find_by_own_id o (otps w) (proj1 (find_some _ _ Ho))) as (o' & Hoid).
  assert (Hlt : (otp_expiry o <? now w) = false) by (apply Z.ltb_ge; lia).
  unfold after, outcome.
  destruct (perform_restore decrypt uid f (Some v) target (Some code) w) as [r w1] eqn:H.
  unfold_perform_restore H. unfold rmtree in H. cbn in H. rewrite Hu in H. cbn in H.
  rewrite Ho in H.
  rewrite Hlt in H. cbn in H. rewrite Hoid in H. cbn in H. rewrite He in H.
  crunch H; try congruence.
  all: repeat match goal with
         | E : Some _ = Some _ |- _ => inversion E; subst; clear E
         end.
  all: inversion H; subst; clear H; cbn [fst snd].
  all: split; [reflexivity|]; unfold rmtree; cbn; split; [|split; [|split]]; try reflexivity.
  all: try (eexists _, _; split; reflexivity).
  all: try (intros x Hx Hid; apply in_map_iff in Hx; destruct Hx as (y & <- & Hy);
            destruct (otp_id y =? otp_id o) eqn:E; [reflexivity|];
            simpl in Hid; apply Z.eqb_neq in E; contradiction).
  all: try (rewrite Hout in *; discriminate).
  all: now rewrite String.eqb_refl.
Qed.

(** X9.  The code is spent on the attempt, not on the success: with an
    accepted code and a live entry whose blob is missing from the store,
    [perform_restore] answers "Failed to download backup from storage",
    writes nothing, records a restore_failed event --- and has marked the
    code used, so that, if it was the user's only unused row with this
    code, a second attempt with it is refused as invalid or expired. *)
Theorem perform_restore_spends_code_on_failure w uid f v target code user o entry :
  find (fun u => u_id u =? uid) (users w) = Some user ->
  first_code w uid code = Some o ->
  now w <= otp_expiry o ->
  live_entry w uid f v = Some entry ->
  fs_lookup (fe_storage_path entry) (fs w) = None ->
  let w' := after (perform_restore decrypt uid f (Some v) target (Some code)) w in
  outcome (perform_restore decrypt uid f (Some v) target (Some code)) w
    = Ok (reply false "Failed to download backup from storage")
  /\ fs w' = fs w
  /\ (exists earlier ev, drevents w' = earlier ++ [ev]
                         /\ ev_event_type ev = "restore_failed"%string)
  /\ (forall x, In x (otps w') -> otp_id x = otp_id o -> otp_used x = true)
  /\ (filter (otp_match uid (Some code)) (otps w) = [o] ->
      forall t version' target',
        outcome (perform_restore decrypt uid f version' target' (Some code)) (set_now t w')
        = Ok (reply false "OTP invalid or expired")).
Proof.
  unfold first_code, live_entry.
  intros Hu Ho Hexp He Hblob.
  destruct (find_by_own_id o (otps w) (proj1 (find_some _ _ Ho))) as (o' & Hoid).
  assert (Hlt : (otp_expiry o <? now w) = false) by (apply Z.ltb_ge; lia).
  unfold after, outcome.
  destruct (perform_restore decrypt uid f (Some v) target (Some code) w) as [r w1] eqn:H.
  unfold_perform_restore H. unfold rmtree in H. cbn in H. rewrite Hu in H. cbn in H.
  rewrite Ho in H.
  rewrite Hlt in H. cbn in H. rewrite Hoid in H. cbn in H. rewrite He in H.
  crunch H; try congruence.
  inversion H; subst; clear H; cbn [fst snd].
  split; [reflexivity|]. cbn. split; [reflexivity|]. split; [|split].
  - eexists _, _; split; reflexivity.
  - intros x Hx Hid. apply in_map_iff in Hx. destruct Hx as (y & <- & Hy).
    destruct (otp_id y =? otp_id o) eqn:E; [reflexivity|].
    simpl in Hid. apply Z.eqb_neq in E. contradiction.
  - intros Honly t version' target'.
    unfold perform_restore, try_except, bind, get_user, gets, get_valid_otp, add_log, ret.
    cbn. rewrite Hu. cbn.
    rewrite mark_used_no_match; [reflexivity|].
    intros x Hx Hmx.
    assert (Hxf : In x (filter (otp_match uid (Some code)) (otps w)))
      by (apply filter_In; auto).
    rewrite Honly in Hxf. destruct Hxf as [<-|[]]. reflexivity.
Qed.

(** X10.  A restore whose code the check rejects (no unused row of the
    user carries it, or the first such row is past its expiry, or no code
    is given) is refused with "OTP invalid or expired" and touches
    nothing but the log: files, blobs, codes and events are as before;
    for an unknown user the world is left exactly as it was. *)
Theorem perform_restore_refusal_is_inert w uid f version target code :
  (find (fun u => u_id u =? uid) (users w) = None ->
   outcome (perform_restore decrypt uid f version target code) w
     = Ok (reply false "User not found")
   /\ after (perform_restore decrypt uid f version target code) w = w)
  /\ (forall user,
        find (fun u => u_id u =? uid) (users w) = Some user ->
        outcome (get_valid_otp uid code) w = Ok None ->
        let w' := after (perform_restore decrypt uid f version target code) w in
        outcome (perform_restore decrypt uid f version target code) w
          = Ok (reply false "OTP invalid or expired")
        /\ fs w' = fs w /\ files w' = files w /\ otps w' = otps w
        /\ drevents w' = drevents w
        /\ List.length (logs w') = S (List.length (logs w))).
Proof.
  unfold outcome, after. split.
  - intros Hu. unfold perform_restore, try_except, bind, get_user, gets, ret. cbn.
    rewrite Hu. split; reflexivity.
  - intros user Hu Hg.
    unfold perform_restore, try_except, bind, get_user, gets, ret, add_log. cbn.
    rewrite Hu. cbn.
    destruct (get_valid_otp uid code w) as [[[o|]|e] wg] eqn:Eg; cbn in Hg; try discriminate.
    assert (wg = w).
    { unfold get_valid_otp in Eg.
      destruct (find (otp_match uid code) (otps w)); [destruct (_ <? _)|];
        inversion Eg; reflexivity. }
    subst wg. cbn. rewrite length_app. cbn. repeat split. lia.
Qed.

End SingleRestore.

Lemma perform_restore_success_witness :
  fs_lookup "/home/alice/restored.docx"
    (fs (after (perform_restore toy_decrypt 1 "report.docx" (Some 1)
                  "/home/alice/restored.docx" (Some "123456"%string))
           w_backed_up_with_code))
  = Some (list_byte_of_string "hello").
Proof.
  refine (proj1 (proj2 (perform_restore_success toy_decrypt w_backed_up_with_code 1
            "report.docx" 1 "/home/alice/restored.docx" "123456" alice
            (mkOTP 1 1 "123456" 1300 false) (report_v 1 1)
            (toy_encrypt (list_byte_of_string "hello")) (list_byte_of_string "hello")
            _ _ _ _ _ _ _ _ _))); try reflexivity.
  simpl. lia.
Defined.

Lemma perform_restore_spends_code_on_failure_witness :
  outcome (perform_restore toy_decrypt 1 "report.docx" (Some 1) "/home/alice/restored.docx"
             (Some "123456"%string)) w_blob_lost
  = Ok (reply false "Failed to download backup from storage")
  /\ outcome (perform_restore toy_decrypt 1 "report.docx" (Some 1)
                "/home/alice/restored.docx" (Some "123456"%string))
       (set_now 1001
          (after (perform_restore toy_decrypt 1 "report.docx" (Some 1)
                    "/home/alice/restored.docx" (Some "123456"%string)) w_blob_lost))
     = Ok (reply false "OTP invalid or expired").
Proof.
  assert (Hexp : now w_blob_lost <= otp_expiry (mkOTP 1 1 "123456" 1300 false))
    by (simpl; lia).
  destruct (perform_restore_spends_code_on_failure toy_decrypt w_blob_lost 1 "report.docx"
              1 "/home/alice/restored.docx" "123456" alice (mkOTP 1 1 "123456" 1300 false)
              (report_v 1 1) eq_refl eq_refl Hexp eq_refl eq_refl)
    as (Hr & _ & _ & _ & Hagain).
  split; [exact Hr | exact (Hagain eq_refl 1001 (Some 1) _)].
Defined.

Lemma perform_restore_refusal_is_inert_witness :
  outcome (perform_restore toy_decrypt 1 "report.docx" (Some 1) "/home/alice/restored.docx"
             (Some "000000"%string)) w_backed_up_with_code
  = Ok (reply false "OTP invalid or expired")
  /\ otps (after (perform_restore toy_decrypt 1 "report.docx" (Some 1)
                    "/home/alice/restored.docx" (Some "000000"%string))
             w_backed_up_with_code)
     = otps w_backed_up_with_code.
Proof.
  destruct (perform_restore_refusal_is_inert toy_decrypt w_backed_up_with_code 1
              "report.docx" (Some 1) "/home/alice/restored.docx" (Some "000000"%string))
    as [_ H].
  destruct (H alice eq_refl eq_refl) as (Hr & _ & _ & Ho & _).
  split; [exact Hr | exact Ho].
Defined.

(** ** Issuing and checking codes (backend/otp.py) *)

Lemma find_none_all {A} (p : A -> bool) (l : list A) :
  find p l = None -> forall x, In x l -> p x = false.
Proof. intros H x Hx. exact (find_none p l H x Hx). Qed.

Theorem request_then_verify (w : World) (uid : Z) (purpose : string) (user : User) :
  find (fun u => u_id u =? uid) (users w) = Some user ->
  first_code w uid (random_code w) = None ->
  let w1 := after (request uid purpose) w in
  (exists r, outcome (request uid purpose) w = Ok r)
  /\ otps w1 = otps w ++ [issued_code w uid]
  /\ (forall t purpose',
        t <= now w + OTP_EXPIRY_SECONDS ->
        accepted (outcome (verify uid (random_code w) purpose') (set_now t w1)) = true)
  /\ (forall t purpose',
        now w + OTP_EXPIRY_SECONDS < t ->
        refusal (outcome (verify uid (random_code w) purpose') (set_now t w1))
        = Some "Invalid or expired OTP"%string).
Proof.
  intros Hu Hnone w1. unfold first_code in Hnone.
  assert (Hotps : otps w1 = otps w ++ [issued_code w uid]
                  /\ exists r, outcome (request uid purpose) w = Ok r).
  { subst w1. unfold after, outcome.
    destruct (request uid purpose w) as [r w'] eqn:H.
    unfold request, _generate_code, create_otp_record in H. unfold_restore H. crunch H.
    all: inversion H; subst; clear H; cbn; split; [reflexivity | eexists; reflexivity]. }
  destruct Hotps as [Hotps Hret]. clearbody w1.
  assert (Hfind : find (otp_match uid (Some (random_code w))) (otps w1)
                  = Some (issued_code w uid)).
  { rewrite Hotps. apply find_snoc_fresh; [now apply find_none_all|].
    unfold otp_match, issued_code. cbn. now rewrite Z.eqb_refl, String.eqb_refl. }
  split; [exact Hret|]. split; [exact Hotps|].
  split; intros t purpose' Ht; unfold outcome;
    destruct (verify uid (random_code w) purpose' (set_now t w1)) as [r w'] eqn:H;
    unfold verify in H; unfold_restore H; cbn in H; rewrite Hfind in H; cbn in H.
  - destruct (now w + OTP_EXPIRY_SECONDS <? t) eqn:E; [apply Z.ltb_lt in E; lia|].
    crunch H. all: inversion H; subst; reflexivity.
  - destruct (now w + OTP_EXPIRY_SECONDS <? t) eqn:E; [|apply Z.ltb_ge in E; lia].
    inversion H; subst; reflexivity.
Qed.

Lemma request_then_verify_witness :
  otps (after (request 1 "restore") w_fresh) = otps w_fresh ++ [issued_code w_fresh 1]
  /\ accepted (outcome (verify 1 (random_code w_fresh) "restore")
                 (set_now (now w_fresh + 300) (after (request 1 "restore") w_fresh)))
     = true.
Proof.
  destruct (request_then_verify w_fresh 1 "restore" alice eq_refl eq_refl)
    as (_ & Ho & Hacc & _).
  split; [exact Ho | apply Hacc; unfold OTP_EXPIRY_SECONDS; lia].
Defined.

(** ** The code gate of snapshot restore and its callers *)

Section SnapshotGate.

Variable decrypt : bytes -> option bytes.

(** X12.  While the policy flag is on, [restore_snapshot] called
    without a code (or with the empty string) refuses with "OTP required
    for snapshot restore" and changes nothing at all; called with a code
    that is valid, it marks the code used before it looks at the
    snapshot, so a snapshot without entries still costs the code. *)
Theorem restore_snapshot_gate (w : World) (uid sid : Z) (tgt : string) (user : User) :
  REQUIRE_OTP_FOR_SNAPSHOT_RESTORE w = true ->
  find (fun u => u_id u =? uid) (users w) = Some user ->
  (forall code, truthy code = false ->
     restore_snapshot decrypt uid sid tgt code w
     = (Ok (snapshot_refused "OTP required for snapshot restore"), w))
  /\ (forall c o,
        truthy (Some c) = true ->
        first_code w uid c = Some o ->
        now w <= otp_expiry o ->
        filter (fun se => se_snapshot_id se =? sid) (snapshot_entries w) = [] ->
        outcome (restore_snapshot decrypt uid sid tgt (Some c)) w
        = Ok (snapshot_refused "Snapshot not found or has no entries")
        /\ code_spent (otp_id o) (after (restore_snapshot decrypt uid sid tgt (Some c)) w)
        /\ fs (after (restore_snapshot decrypt uid sid tgt (Some c)) w) = fs w).
Proof.
  intros Hreq Hu. split.
  - intros code Hcode.
    destruct (restore_snapshot decrypt uid sid tgt code w) as [r w'] eqn:H.
    unfold restore_snapshot in H. unfold_restore H. cbn in H.
    rewrite Hu in H. cbn in H. rewrite Hreq, Hcode in H. cbn in H.
    now inversion H.
  - intros c o Hc Hfirst Hexp Hnone. unfold first_code in Hfirst.
    unfold outcome, after.
    destruct (restore_snapshot decrypt uid sid tgt (Some c) w) as [r w'] eqn:H.
    unfold restore_snapshot in H. unfold_restore H. cbn in H.
    rewrite Hu in H. cbn in H. rewrite Hreq in H.
    cbn in Hc. rewrite Hc in H. cbn in H. rewrite Hfirst in H.
    destruct (otp_expiry o <? now w) eqn:E; [apply Z.ltb_lt in E; lia|].
    cbn in H.
    assert (Hin : In o (otps w)) by (apply find_some in Hfirst; tauto).
    destruct (find (fun o0 => otp_id o0 =? otp_id o) (otps w)) eqn:Hf.
    2:{ apply (find_none_all _ _ Hf) in Hin. rewrite Z.eqb_refl in Hin. discriminate. }
    cbn in H. rewrite Hnone in H. cbn in H. inversion H; subst; clear H. cbn.
    split; [reflexivity|]. split; [|reflexivity].
    intros x Hx Hid. apply in_map_iff in Hx. destruct Hx as (y & Hy & _).
    destruct (otp_id y =? otp_id o) eqn:Ey; subst x; cbn in *; [reflexivity|].
    apply Z.eqb_neq in Ey. contradiction.
Qed.

End SnapshotGate.

Lemma restore_snapshot_gate_witness :
  restore_snapshot toy_decrypt 1 1 "/home/alice/restore" None w_empty_snapshot
  = (Ok (snapshot_refused "OTP required for snapshot restore"), w_empty_snapshot)
  /\ outcome (restore_snapshot toy_decrypt 1 1 "/home/alice/restore" (Some "123456"%string))
       w_empty_snapshot
     = Ok (snapshot_refused "Snapshot not found or has no entries").
Proof.
  destruct (restore_snapshot_gate toy_decrypt w_empty_snapshot 1 1 "/home/alice/restore"
              alice eq_refl eq_refl) as [Hno Hyes].
  split; [exact (Hno None eq_refl)|].
  destruct (Hyes "123456"%string (mkOTP 1 1 "123456" 1300 false) eq_refl eq_refl)
    as [Hout _]; [cbn; lia | reflexivity | exact Hout].
Defined.

Section CodelessCallers.

Variable decrypt : bytes -> option bytes.

(** What a call without a code comes to while the policy is on. *)
Lemma restore_snapshot_codeless w uid sid tgt :
  REQUIRE_OTP_FOR_SNAPSHOT_RESTORE w = true ->
  restore_snapshot decrypt uid sid tgt None w = (Ok (codeless_refusal w uid), w).
Proof.
  intros Hreq. unfold codeless_refusal.
  destruct (restore_snapshot decrypt uid sid tgt None w) as [r w'] eqn:H.
  unfold restore_snapshot in H. unfold_restore H. cbn in H.
  destruct (find (fun u => u_id u =? uid) (users w)); cbn in H.
  - rewrite Hreq in H. cbn in H. now inversion H.
  - now inversion H.
Qed.

(** X13.  While the policy flag is on, a DR drill restores nothing:
    it calls the snapshot restore without a code, so for a user with a
    snapshot the drill answers ok=True around a refused restore ("OTP
    required for snapshot restore", or "User not found"), and no file,
    row or code is touched. *)
Theorem run_dr_drill_restores_nothing (w : World) (uid : Z) (tgt : string) :
  REQUIRE_OTP_FOR_SNAPSHOT_RESTORE w = true ->
  let w' := after (run_dr_drill decrypt uid tgt) w in
  outcome (run_dr_drill decrypt uid tgt) w
  = Ok (match recent_snapshots w uid with
        | [] => mkDrillReply false (Some "No snapshots available for user"%string) None
        | _ :: _ => mkDrillReply true None (Some (codeless_refusal w uid))
        end)
  /\ fs w' = fs w /\ files w' = files w /\ otps w' = otps w.
Proof.
  intros Hreq w'. subst w'. unfold outcome, after, recent_snapshots.
  destruct (run_dr_drill decrypt uid tgt w) as [r w1] eqn:H.
  unfold run_dr_drill, get_snapshots in H. unfold try_except, bind, gets in H.
  destruct (firstn 10 (rev (filter (fun s => sn_user_id s =? uid) (snapshots w))))
    as [|s rest].
  - cbn in H. inversion H; subst. now repeat split.
  - unfold add_log at 1 in H. rewrite restore_snapshot_codeless in H by exact Hreq.
    cbn in H. inversion H; subst. now repeat split.
Qed.

(** X14.  While the policy flag is on, [recover_device_from_nas]
    never restores anything: it too passes no code, so it always answers
    ok=False (no snapshots, unknown user, or "OTP required for snapshot
    restore") and leaves files, rows and codes as they were. *)
Theorem recover_device_is_code_gated (w : World) (uid : Z) (folder : string) :
  REQUIRE_OTP_FOR_SNAPSHOT_RESTORE w = true ->
  let w' := after (recover_device_from_nas decrypt uid folder) w in
  outcome (recover_device_from_nas decrypt uid folder) w
  = Ok (match recent_snapshots w uid with
        | [] => snapshot_refused "No snapshots available to restore"
        | _ :: _ => codeless_refusal w uid
        end)
  /\ fs w' = fs w /\ files w' = files w /\ otps w' = otps w.
Proof.
  intros Hreq w'. subst w'. unfold outcome, after, recent_snapshots.
  destruct (recover_device_from_nas decrypt uid folder w) as [r w1] eqn:H.
  unfold recover_device_from_nas, get_snapshots in H. unfold try_except, bind, gets in H.
  destruct (firstn 10 (rev (filter (fun s => sn_user_id s =? uid) (snapshots w))))
    as [|s rest].
  - cbn in H. inversion H; subst. now repeat split.
  - unfold add_log at 1 in H. rewrite restore_snapshot_codeless in H by exact Hreq.
    unfold codeless_refusal, _safe_alert in *. unfold_restore H. crunch H.
    all: inversion H; subst; cbn; now repeat split.
Qed.

End CodelessCallers.

Lemma run_dr_drill_restores_nothing_witness :
  outcome (run_dr_drill toy_decrypt 1 "/home/alice/drill") w_snapshot3
  = Ok (mkDrillReply true None
          (Some (snapshot_refused "OTP required for snapshot restore")))
  /\ fs (after (run_dr_drill toy_decrypt 1 "/home/alice/drill") w_snapshot3)
     = fs w_snapshot3.
Proof.
  destruct (run_dr_drill_restores_nothing toy_decrypt w_snapshot3 1 "/home/alice/drill"
              eq_refl) as (Hout & Hfs & _).
  split; [exact Hout | exact Hfs].
Defined.

Lemma recover_device_is_code_gated_witness :
  outcome (recover_device_from_nas toy_decrypt 1 "/home/alice/new") w_snapshot3
  = Ok (snapshot_refused "OTP required for snapshot restore")
  /\ fs (after (recover_device_from_nas toy_decrypt 1 "/home/alice/new") w_snapshot3)
     = fs w_snapshot3.
Proof.
  destruct (recover_device_is_code_gated toy_decrypt w_snapshot3 1 "/home/alice/new"
              eq_refl) as (Hout & Hfs & _).
  split; [exact Hout | exact Hfs].
Defined.

(** ** Users (backend/db.py) *)

Lemma find_snoc {A} (p : A -> bool) (l : list A) (x : A) :
  find p (l ++ [x])
  = match find p l with Some y => Some y | None => if p x then Some x else None end.
Proof.
  induction l as [|y l IH]; cbn; [reflexivity|]. destruct (p y); [reflexivity | exact IH].
Qed.

(** X15.  On a user table with distinct ids and distinct e-mail
    addresses, [create_user] refuses an address that is taken with
    [ValueError] and changes nothing; for a new address it appends one
    user with a fresh id, whom [get_user_by_email] and [get_user] then
    return, every earlier user is still found under the same id, and ids
    and addresses stay distinct. *)
Theorem create_user_keeps_emails_distinct (w : World) (email pw : string)
    (chat : option string) :
  users_wf w ->
  (In email (map u_email (users w)) ->
     create_user email pw chat w = (Raise (ValueError "User already exists"), w))
  /\ (~ In email (map u_email (users w)) ->
      exists u,
        outcome (create_user email pw chat) w = Ok u
        /\ u = mkUser (next_id (map u_id (users w))) email pw chat
        /\ let w' := after (create_user email pw chat) w in
           users w' = users w ++ [u]
           /\ users_wf w'
           /\ outcome (get_user_by_email email) w' = Ok (Some u)
           /\ outcome (get_user (u_id u)) w' = Ok (Some u)
           /\ forall uid, uid <> u_id u ->
                outcome (get_user uid) w' = outcome (get_user uid) w).
Proof.
  intros [Hid Hem]. split.
  - intros Hin. unfold create_user.
    destruct (find (fun u => String.eqb (u_email u) email) (users w)) eqn:E; [reflexivity|].
    apply in_map_iff in Hin. destruct Hin as (u & Hu & Hin).
    apply (find_none_all _ _ E) in Hin. rewrite Hu, String.eqb_refl in Hin. discriminate.
  - intros Hfree.
    assert (E : find (fun u => String.eqb (u_email u) email) (users w) = None).
    { destruct (find (fun u => String.eqb (u_email u) email) (users w)) eqn:E; [|reflexivity].
      apply find_some in E. destruct E as [Hin Heq]. apply String.eqb_eq in Heq.
      exfalso. apply Hfree. apply in_map_iff. eauto. }
    unfold outcome, after, create_user. rewrite E. cbn.
    eexists. split; [reflexivity|]. split; [reflexivity|].
    split; [reflexivity|]. split; [|split; [|split]].
    + unfold users_wf. cbn. rewrite !map_app. cbn. split; apply NoDup_snoc; auto.
      apply next_id_fresh.
    + unfold get_user_by_email, gets. cbn. f_equal.
      apply find_snoc_fresh; [exact (find_none_all _ _ E) | cbn; apply String.eqb_refl].
    + unfold get_user, gets. cbn. f_equal.
      apply find_snoc_fresh; [|cbn; apply Z.eqb_refl].
      intros y Hy. apply Z.eqb_neq. intros Heq.
      apply (next_id_fresh (map u_id (users w))). rewrite <- Heq. now apply in_map.
    + intros uid Hne. unfold get_user, gets. cbn. f_equal.
      rewrite find_snoc. cbn.
      destruct (find (fun u => u_id u =? uid) (users w)); [reflexivity|].
      destruct (next_id (map u_id (users w)) =? uid) eqn:E1; [|reflexivity].
      apply Z.eqb_eq in E1. cbn in Hne. congruence.
Qed.

Lemma create_user_keeps_emails_distinct_witness :
  create_user "alice@example.org" "x" None w_fresh
  = (Raise (ValueError "User already exists"), w_fresh)
  /\ outcome (create_user "carol@example.org" "x" None) w_fresh
     = Ok (mkUser 3 "carol@example.org" "x" None).
Proof.
  assert (Hwf : users_wf w_fresh).
  { split; cbn; repeat constructor; cbn; intuition discriminate. }
  destruct (create_user_keeps_emails_distinct w_fresh "alice@example.org" "x" None Hwf)
    as [Htaken _].
  destruct (create_user_keeps_emails_distinct w_fresh "carol@example.org" "x" None Hwf)
    as [_ Hnew].
  split; [apply Htaken; cbn; auto|].
  destruct Hnew as (u & Hout & Hu & _); [cbn; intuition discriminate|].
  rewrite Hout, Hu. reflexivity.
Defined.

(** ** The ransomware response (disaster_recovery.detect_and_respond_ransomware) *)

(** A loop whose every trip returns and keeps a reflexive, transitive
    relation returns and keeps it. *)
Lemma for_each_keeps {A} (R : World -> World -> Prop) (body : A -> M unit) :
  (forall w, R w w) ->
  (forall a b c, R a b -> R b c -> R a c) ->
  (forall x w, exists w', body x w = (Ok tt, w') /\ R w w') ->
  forall l w, exists w', for_each l body w = (Ok tt, w') /\ R w w'.
Proof.
  intros Hrefl Htrans Hbody l. induction l as [|x l IH]; intros w; cbn [for_each].
  - exists w. split; [reflexivity | apply Hrefl].
  - destruct (Hbody x w) as (w1 & H1 & R1). destruct (IH w1) as (w2 & H2 & R2).
    exists w2. unfold bind. rewrite H1. split; [exact H2 | eapply Htrans; eauto].
Qed.

Lemma get_file_entries_run uid fo w :
  exists l, get_file_entries uid fo w = (Ok l, w)
    /\ forall x, In x l ->
         In x (files w) /\ fe_user_id x = uid /\ fe_deleted x = false.
Proof.
  unfold get_file_entries, gets. eexists. split; [reflexivity|].
  intros x Hx. apply sort_by_In in Hx.
  assert (Hq : In x (filter (fun e => (fe_user_id e =? uid) && negb (fe_deleted e)) (files w))).
  { destruct fo as [f|]; [destruct (truthy (Some f))|]; try exact Hx.
    apply filter_In in Hx. tauto. }
  apply filter_In in Hq. destruct Hq as [Hin Hb].
  apply andb_true_iff in Hb. destruct Hb as [Hu Hd].
  apply Z.eqb_eq in Hu. apply negb_true_iff in Hd. auto.
Qed.

Lemma flag_only_trans a b c : flag_only a b -> flag_only b c -> flag_only a c.
Proof. unfold flag_only. intros [->| ->] [->| ->]; auto. Qed.

Lemma Forall2_flag_only_refl l : Forall2 flag_only l l.
Proof. induction l; constructor; auto. now left. Qed.

Lemma Forall2_flag_only_trans l1 : forall l2 l3,
  Forall2 flag_only l1 l2 -> Forall2 flag_only l2 l3 -> Forall2 flag_only l1 l3.
Proof.
  induction l1 as [|a l1 IH]; intros l2 l3 H12 H23; inversion H12; subst;
    inversion H23; subst; constructor; eauto using flag_only_trans.
Qed.

Lemma Forall2_flag_only_mark id l :
  Forall2 flag_only l (map (fun e => if fe_id e =? id then with_suspected e else e) l).
Proof.
  induction l as [|e l IH]; cbn; constructor; auto.
  destruct (fe_id e =? id); [now right | now left].
Qed.

Lemma Forall2_In_l {A B} (R : A -> B -> Prop) l l' x :
  Forall2 R l l' -> In x l -> exists y, In y l' /\ R x y.
Proof.
  induction 1 as [|a b l l' Hab _ IH]; intros Hin; [destruct Hin|].
  destruct Hin as [->|Hin]; [exists b; cbn; auto|].
  destruct (IH Hin) as (y & Hy & Hr). exists y; cbn; auto.
Qed.

Lemma linked_suspect_kept w w' uid se :
  Forall2 flag_only (files w) (files w') -> linked_suspect w uid se -> linked_suspect w' uid se.
Proof.
  intros Hfl (e & Hin & Hid & Hu & Hd & Hs).
  destruct (Forall2_In_l _ _ _ _ Hfl Hin) as (e' & Hin' & [->| ->]).
  - exists e. auto.
  - exists (with_suspected e). cbn. auto.
Qed.

(** One trip of [for f in files:] links and flags at most one live row
    of the user and touches nothing else. *)
Lemma defensive_snapshot_file_run uid sid f w :
  exists w', defensive_snapshot_file uid sid f w = (Ok tt, w')
    /\ same_but_files_and_links w w'
    /\ Forall2 flag_only (files w) (files w')
    /\ exists added, snapshot_entries w' = snapshot_entries w ++ added
         /\ Forall (fun se => se_snapshot_id se = sid /\ linked_suspect w' uid se) added.
Proof.
  destruct (get_file_entries_run uid (Some (basename f)) w) as (l & Hl & Hin).
  unfold defensive_snapshot_file, bind. rewrite Hl. destruct l as [|latest rest].
  - exists w. split; [reflexivity|]. split; [reflexivity|].
    split; [apply Forall2_flag_only_refl|]. exists []. now rewrite app_nil_r.
  - destruct (Hin latest (or_introl eq_refl)) as (Hlin & Hlu & Hld).
    unfold add_snapshot_entry, mark_file_suspected_ransom, ret. cbn.
    destruct (find (fun e => fe_id e =? fe_id latest) (files w)) eqn:Hf.
    2:{ apply (find_none_all _ _ Hf) in Hlin. rewrite Z.eqb_refl in Hlin. discriminate. }
    eexists. split; [reflexivity|]. split; [reflexivity|]. cbn.
    split; [apply Forall2_flag_only_mark|].
    eexists. split; [reflexivity|]. constructor; [|constructor].
    split; [reflexivity|]. exists (with_suspected latest). cbn.
    repeat split; auto. apply in_map_iff. exists latest.
    rewrite Z.eqb_refl. auto.
Qed.

Lemma defensive_loop_run uid sid l w :
  exists w', for_each l (defensive_snapshot_file uid sid) w = (Ok tt, w')
    /\ same_but_files_and_links w w'
    /\ Forall2 flag_only (files w) (files w')
    /\ exists added, snapshot_entries w' = snapshot_entries w ++ added
         /\ Forall (fun se => se_snapshot_id se = sid /\ linked_suspect w' uid se) added.
Proof.
  apply (for_each_keeps
           (fun w w' =>
              same_but_files_and_links w w'
              /\ Forall2 flag_only (files w) (files w')
              /\ exists added, snapshot_entries w' = snapshot_entries w ++ added
                   /\ Forall (fun se => se_snapshot_id se = sid /\ linked_suspect w' uid se)
                        added)).
  - intros w0. split; [reflexivity|]. split; [apply Forall2_flag_only_refl|].
    exists []. now rewrite app_nil_r.
  - intros a b c (Hf1 & Hl1 & add1 & Ha1 & Hs1) (Hf2 & Hl2 & add2 & Ha2 & Hs2).
    split; [unfold same_but_files_and_links in *; congruence|].
    split; [eapply Forall2_flag_only_trans; eauto|].
    exists (add1 ++ add2). split; [rewrite Ha2, Ha1; now rewrite app_assoc|].
    apply Forall_app. split; [|exact Hs2].
    eapply Forall_impl; [|exact Hs1]. intros se [Hsid Hlk].
    split; [exact Hsid | eapply linked_suspect_kept; eauto].
  - intros x w0. apply defensive_snapshot_file_run.
Qed.

(** X16.  The ransomware response never raises and destroys nothing:
    files on disk and codes are untouched, every row of the file table is
    still there and differs at most in its suspected flag, exactly one
    snapshot (of the user, named defensive-ransom-snap) and exactly one
    [ransomware_detected] event are added, and every snapshot entry it
    adds belongs to the new snapshot and names a live row of the user
    that is now flagged suspected. *)
Theorem ransomware_response_is_non_destructive (w : World) (uid : Z) (ev : Evidence) :
  let w' := after (detect_and_respond_ransomware uid ev) w in
  let sid := next_id (map sn_id (snapshots w)) in
  outcome (detect_and_respond_ransomware uid ev) w = Ok tt
  /\ fs w' = fs w /\ otps w' = otps w
  /\ Forall2 flag_only (files w) (files w')
  /\ (exists desc, snapshots w'
        = snapshots w ++ [mkSnapshot sid uid (Some "defensive-ransom-snap"%string) desc])
  /\ (exists added, snapshot_entries w' = snapshot_entries w ++ added
        /\ Forall (fun se => se_snapshot_id se = sid /\ linked_suspect w' uid se) added)
  /\ (exists e, drevents w' = drevents w ++ [e]
        /\ ev_event_type e = "ransomware_detected"%string /\ ev_user_id e = Some uid).
Proof.
  intros w' sid. subst w'. unfold outcome, after.
  destruct (detect_and_respond_ransomware uid ev w) as [r w'] eqn:H.
  unfold detect_and_respond_ransomware, _safe_alert in H.
  unfold try_except, bind, record_dr_event, add_log, gets, create_snapshot, get_user,
    send_alert, ret in H.
  cbn in H.
  match type of H with
  | context [for_each ?l (defensive_snapshot_file ?u ?s) ?w0] =>
      destruct (defensive_loop_run u s l w0)
        as (w2 & Hrun & Hframe & Hflags & added & Hadd & Hlinks);
      rewrite Hrun in H
  end.
  fold sid in Hlinks.
  cbn in Hflags, Hadd.
  pose proof (f_equal fs Hframe) as Hfs. pose proof (f_equal otps Hframe) as Hotps.
  pose proof (f_equal snapshots Hframe) as Hsn.
  pose proof (f_equal drevents Hframe) as Hev.
  cbn in Hfs, Hotps, Hsn, Hev.
  assert (Hlinks' : forall w3, files w3 = files w2 ->
            Forall (fun se => se_snapshot_id se = sid /\ linked_suspect w3 uid se) added).
  { intros w3 E. eapply Forall_impl; [|exact Hlinks]. intros se [Hs (e & He)].
    split; [exact Hs|]. exists e. now rewrite E. }
  crunch H.
  all: inversion H; subst r w'; clear H; cbn.
  all: rewrite Hfs, Hotps, Hsn, Hev.
  all: repeat split; eauto.
Qed.

Lemma ransomware_response_is_non_destructive_witness :
  fs (after (detect_and_respond_ransomware 1 evidence_ac) w_three_docs) = fs w_three_docs
  /\ Forall2 flag_only (files w_three_docs)
       (files (after (detect_and_respond_ransomware 1 evidence_ac) w_three_docs)).
Proof.
  destruct (ransomware_response_is_non_destructive w_three_docs 1 evidence_ac)
    as (_ & Hfs & _ & Hfl & _).
  split; [exact Hfs | exact Hfl].
Defined.

(** ** Replication passes (disaster_recovery._replication_recovery_loop) *)

Lemma Forall2_map_same {A} (R : A -> A -> Prop) (g : A -> A) (l : list A) :
  (forall x, In x l -> R x (g x)) -> Forall2 R l (map g l).
Proof.
  induction l as [|a l IH]; intros H; cbn; constructor.
  - apply H. now left.
  - apply IH. intros x Hx. apply H. now right.
Qed.

Lemma Forall2_same {A} (R : A -> A -> Prop) (l : list A) :
  (forall x, In x l -> R x x) -> Forall2 R l l.
Proof.
  intros H. rewrite <- (map_id l) at 2. now apply Forall2_map_same.
Qed.

Lemma fs_grows_refl l : fs_grows l l.
Proof. intros p H. exact H. Qed.

Lemma fs_grows_put p b l : fs_grows l (fs_put p b l).
Proof.
  intros q H. destruct (String.eqb_spec q p) as [->|Hne].
  - now rewrite fs_lookup_put.
  - now rewrite fs_lookup_put_other.
Qed.

Section ReplicationPass.

Variable SECONDARY_STORAGE : option string.

Lemma replication_item_run x w :
  (forall r, In r (replication_queue w) -> rq_id r = rq_id x ->
     rq_storage_path r = rq_storage_path x /\ rq_replicated r = false) ->
  exists w', _replication_recovery_item SECONDARY_STORAGE x w = (Ok tt, w')
    /\ files w' = files w
    /\ fs_grows (fs w) (fs w')
    /\ (SECONDARY_STORAGE = None -> fs w' = fs w)
    /\ Forall2 (replication_step SECONDARY_STORAGE [rq_id x] w')
         (replication_queue w) (replication_queue w').
Proof.
  intros Hx.
  destruct (_replication_recovery_item SECONDARY_STORAGE x w) as [r w'] eqn:H.
  unfold _replication_recovery_item, record_replication_attempt, _replicate_blob,
    _replicate_to_local_secondary, _replicate_to_sftp, mark_replicated, copy2, read_file,
    write_file, try_except, bind, ret, add_log in H.
  crunch H.
  all: inversion H; subst r w'; clear H; cbn.
  all: eexists; split; [reflexivity|]; cbn.
  all: split; [reflexivity|].
  all: split; [first [apply fs_grows_refl | apply fs_grows_put]|].
  all: split; [first [discriminate | reflexivity]|].
  all: rewrite ?map_map.
  all: first [apply Forall2_map_same | apply Forall2_same].
  all: intros r Hr; unfold replication_step; cbn [In].
  all: destruct (rq_id r =? rq_id x) eqn:E;
    try (rewrite (find_none_all _ _ ltac:(eassumption) r Hr) in E; discriminate).
  all: cbn; rewrite ?E; cbn.
  all: split; [intros Hin | intros Hn].
  all: lazymatch type of E with
       | _ = true => apply Z.eqb_eq in E; destruct (Hx r Hr E) as [Hpath Hrep]
       | _ = false => apply Z.eqb_neq in E
       end.
  all: try (exfalso; apply Hn; left; congruence).
  all: try (destruct Hin as [Hin|[]]; congruence).
  all: try reflexivity.
  all: repeat split.
  all: intros Hr'; try congruence.
  all: eexists; split; [reflexivity|].
  all: rewrite ?Hpath, ?String.eqb_refl; reflexivity.
Qed.

Lemma replication_step_compose sec x batch w1 w2 r r1 r2 :
  ~ In x batch ->
  fs_grows (fs w1) (fs w2) ->
  replication_step sec [x] w1 r r1 ->
  replication_step sec batch w2 r1 r2 ->
  replication_step sec (x :: batch) w2 r r2.
Proof.
  intros Hnx Hgrow [Ha1 Hb1] [Ha2 Hb2].
  destruct (Z.eq_dec (rq_id r) x) as [Heq|Hne].
  - destruct Ha1 as (Hid & Hfe & Hp & Hatt & Hrep); [now left|].
    assert (E : r2 = r1) by (apply Hb2; rewrite Hid, Heq; exact Hnx). subst r2.
    split; [|intros Hn; exfalso; apply Hn; now left].
    intros _. repeat split; auto.
    intros Hr. destruct (Hrep Hr) as (s & Hs & Hblob). exists s. auto.
  - assert (E : r1 = r) by (apply Hb1; intros [H|[]]; congruence). subst r1.
    split.
    + intros [H|H]; [congruence | now apply Ha2].
    + intros Hn. apply Hb2. intros H. apply Hn. now right.
Qed.

Lemma Forall2_compose {A} (R1 R2 R3 : A -> A -> Prop) (l1 : list A) : forall l2 l3,
  (forall a b c, R1 a b -> R2 b c -> R3 a c) ->
  Forall2 R1 l1 l2 -> Forall2 R2 l2 l3 -> Forall2 R3 l1 l3.
Proof.
  induction l1 as [|a l1 IH]; intros l2 l3 Hc H12 H23; inversion H12; subst;
    inversion H23; subst; constructor; eauto.
Qed.

Lemma Forall2_In_r {A B} (R : A -> B -> Prop) l l' y :
  Forall2 R l l' -> In y l' -> exists x, In x l /\ R x y.
Proof.
  induction 1 as [|a b l l' Hab _ IH]; intros Hin; [destruct Hin|].
  destruct Hin as [->|Hin]; [exists a; cbn; auto|].
  destruct (IH Hin) as (x & Hx & Hr). exists x; cbn; auto.
Qed.

Lemma replication_loop_run l : forall w,
  NoDup (map rq_id l) ->
  (forall x r, In x l -> In r (replication_queue w) -> rq_id r = rq_id x ->
     rq_storage_path r = rq_storage_path x /\ rq_replicated r = false) ->
  exists w', for_each l (_replication_recovery_item SECONDARY_STORAGE) w = (Ok tt, w')
    /\ files w' = files w
    /\ fs_grows (fs w) (fs w')
    /\ (SECONDARY_STORAGE = None -> fs w' = fs w)
    /\ Forall2 (replication_step SECONDARY_STORAGE (map rq_id l) w')
         (replication_queue w) (replication_queue w').
Proof.
  induction l as [|x l IH]; intros w Hnd Hpre; cbn [for_each map].
  - exists w. split; [reflexivity|]. split; [reflexivity|].
    split; [apply fs_grows_refl|]. split; [reflexivity|].
    apply Forall2_same. intros r _. split; [intros [] | reflexivity].
  - inversion Hnd as [|? ? Hnx Hnd']; subst.
    destruct (replication_item_run x w) as (w1 & H1 & Hf1 & Hg1 & Hn1 & Hq1).
    { intros r Hr. apply Hpre; [now left | exact Hr]. }
    destruct (IH w1 Hnd') as (w2 & H2 & Hf2 & Hg2 & Hn2 & Hq2).
    { intros y r1 Hy Hr1 Hid.
      destruct (Forall2_In_r _ _ _ _ Hq1 Hr1) as (r & Hr & [Ha Hb]).
      destruct (Z.eq_dec (rq_id r) (rq_id x)) as [Heq|Hne].
      - destruct Ha as (Hid1 & _); [now left|].
        exfalso. apply Hnx. rewrite <- Heq, <- Hid1, Hid. now apply in_map.
      - assert (E : r1 = r) by (apply Hb; intros [H|[]]; congruence). subst r1.
        apply Hpre; [now right | exact Hr | exact Hid]. }
    exists w2. unfold bind. rewrite H1.
    split; [exact H2|]. split; [congruence|].
    split; [intros p Hp; apply Hg2, Hg1, Hp|].
    split; [intros Hnone; rewrite (Hn2 Hnone); exact (Hn1 Hnone)|].
    eapply Forall2_compose; [|exact Hq1|exact Hq2].
    intros a b c Hab Hbc. eapply replication_step_compose; eauto.
Qed.

Lemma NoDup_firstn {A} (n : nat) (l : list A) : NoDup l -> NoDup (firstn n l).
Proof.
  intros H. rewrite <- (firstn_skipn n l) in H. now apply NoDup_app_remove_r in H.
Qed.

Lemma In_firstn {A} (n : nat) (l : list A) (x : A) : In x (firstn n l) -> In x l.
Proof.
  intros H. rewrite <- (firstn_skipn n l). apply in_or_app. now left.
Qed.


End ReplicationPass.


(** ** Restoring the latest version *)

Lemma insert_by_ext {A} (le1 le2 : A -> A -> bool) (x : A) (l : list A) :
  (forall y, In y l -> le1 x y = le2 x y) -> insert_by le1 x l = insert_by le2 x l.
Proof.
  induction l as [|y l IH]; intros H; cbn; [reflexivity|].
  rewrite (H y (or_introl eq_refl)). destruct (le2 x y); [reflexivity|].
  f_equal. apply IH. intros z Hz. apply H. now right.
Qed.

Lemma sort_by_ext {A} (le1 le2 : A -> A -> bool) (l : list A) :
  (forall x y, In x l -> In y l -> le1 x y = le2 x y) -> sort_by le1 l = sort_by le2 l.
Proof.
  induction l as [|x l IH]; intros H; [reflexivity|].
  change (insert_by le1 x (sort_by le1 l) = insert_by le2 x (sort_by le2 l)).
  rewrite IH by (intros a b Ha Hb; apply H; now right).
  apply insert_by_ext. intros y Hy. apply sort_by_In in Hy.
  apply H; [now left | now right].
Qed.

Lemma string_compare_refl (s : string) : String.compare s s = Eq.
Proof.
  induction s as [|c s IH]; cbn; [reflexivity|].
  unfold Ascii.compare. now rewrite N.compare_refl.
Qed.

Lemma filter_filter_as {A} (p q r : A -> bool) (l : list A) :
  (forall x, q x && p x = r x) -> filter p (filter q l) = filter r l.
Proof.
  intros H. induction l as [|x l IH]; cbn; [reflexivity|].
  rewrite <- (H x). destruct (q x); cbn; [destruct (p x)|]; now rewrite IH.
Qed.

(** For a non-empty name the listing is the live rows of the file,
    newest first. *)
Lemma get_file_entries_live uid f w :
  f <> ""%string ->
  get_file_entries uid (Some f) w = (Ok (live_versions_desc uid f w), w).
Proof.
  intros Hf. unfold get_file_entries, gets, live_versions_desc, truthy.
  destruct (String.eqb_spec f ""); [contradiction|]. cbn [negb]. cbv zeta.
  f_equal. f_equal.
  rewrite (filter_filter_as _ _ (live_match uid f)).
  - apply sort_by_ext. intros x y Hx Hy.
    apply filter_In in Hx, Hy. destruct Hx as [_ Hx], Hy as [_ Hy].
    unfold live_match in Hx, Hy. rewrite !andb_true_iff in Hx, Hy.
    destruct Hx as [[_ Hx] _], Hy as [[_ Hy] _].
    apply String.eqb_eq in Hx, Hy. unfold filename_then_version_desc.
    rewrite Hx, Hy. now rewrite string_compare_refl.
  - intros x. unfold live_match.
    destruct (fe_user_id x =? uid), (negb (fe_deleted x)), (String.eqb (fe_filename x) f);
      reflexivity.
Qed.

Lemma get_file_entry_latest uid f w e rest :
  NoDup (map entry_key (files w)) ->
  live_versions_desc uid f w = e :: rest ->
  get_file_entry uid f (fe_version e) w = (Ok (Some e), w).
Proof.
  intros Hnd Hl.
  assert (Hin : In e (live_versions_desc uid f w)) by (rewrite Hl; now left).
  unfold live_versions_desc in Hin. apply sort_by_In, filter_In in Hin.
  destruct Hin as [Hin Hlive]. unfold live_match in Hlive.
  rewrite !andb_true_iff in Hlive. destruct Hlive as [[Hu Hn] Hd].
  unfold get_file_entry, gets. f_equal. f_equal.
  destruct (find (fun x => same_key uid f (fe_version e) x && negb (fe_deleted x)) (files w))
    as [e'|] eqn:E.
  - apply find_some in E. destruct E as [Hin' Hk]. apply andb_true_iff in Hk.
    destruct Hk as [Hk _]. apply same_key_iff in Hk.
    f_equal. apply (NoDup_map_inj entry_key (files w)); auto.
    rewrite Hk. symmetry. apply same_key_iff. unfold same_key.
    now rewrite Hu, Hn, Z.eqb_refl.
  - apply (find_none_all _ _ E) in Hin. unfold same_key in Hin.
    now rewrite Hu, Hn, Hd, Z.eqb_refl in Hin.
Qed.

Section RestoreLatest.

Variable decrypt : bytes -> option bytes.

(** X18.  For a file name that is not empty, on a table with distinct
    (user, filename, version) keys and at least one live row of the
    file, a restore that names no version does exactly what a restore of
    version [get_latest_version] does: the same answer and the same
    world, whatever the code, the target and the state of the store. *)
Theorem perform_restore_latest (w : World) (uid : Z) (f tgt : string)
    (code : option string) :
  f <> ""%string ->
  NoDup (map entry_key (files w)) ->
  live_versions_desc uid f w <> [] ->
  perform_restore decrypt uid f None tgt code w
  = perform_restore decrypt uid f (Some (latest_version uid f w)) tgt code w.
Proof.
  intros Hf Hnd Hlive.
  destruct (live_versions_desc uid f w) as [|e rest] eqn:Hl; [congruence|]. clear Hlive.
  assert (Hv : latest_version uid f w = fe_version e)
    by (unfold latest_version; now rewrite Hl).
  rewrite Hv.
  assert (Hsame : forall w1, files w1 = files w ->
            get_file_entries uid (Some f) w1 = (Ok (e :: rest), w1)
            /\ get_file_entry uid f (fe_version e) w1 = (Ok (Some e), w1)).
  { intros w1 E.
    assert (Hl1 : live_versions_desc uid f w1 = e :: rest)
      by (unfold live_versions_desc in *; now rewrite E).
    split; [rewrite get_file_entries_live by exact Hf; now rewrite Hl1|].
    apply get_file_entry_latest with (rest := rest); [now rewrite E | exact Hl1]. }
  unfold perform_restore, try_except, bind, get_user, gets, get_valid_otp, mark_otp_used.
  destruct (find (fun u => u_id u =? uid) (users w)); [|reflexivity].
  destruct (find (otp_match uid code) (otps w)) as [o|]; [|reflexivity].
  destruct (otp_expiry o <? now w); [reflexivity|].
  destruct (find (fun o0 => otp_id o0 =? otp_id o) (otps w)).
  - match goal with
    | |- context [get_file_entries uid (Some f) ?w1] =>
        destruct (Hsame w1 eq_refl) as [-> ->]
    end.
    reflexivity.
  - destruct (Hsame w eq_refl) as [-> ->]. reflexivity.
Qed.

End RestoreLatest.

Lemma perform_restore_latest_witness :
  perform_restore toy_decrypt 1 "report.docx" None "/home/alice/restored.docx"
    (Some "123456"%string) w_backed_up_with_code
  = perform_restore toy_decrypt 1 "report.docx"
      (Some (latest_version 1 "report.docx" w_backed_up_with_code))
      "/home/alice/restored.docx" (Some "123456"%string) w_backed_up_with_code.
Proof.
  apply perform_restore_latest.
  - discriminate.
  - vm_compute. repeat constructor. intros [].
  - vm_compute. discriminate.
Defined.

(** ** From backup to restore *)

(** Deleting the pruned blobs touches no other path. *)
Lemma delete_pruned_blobs_keeps uid removed w :
  exists fs', delete_pruned_blobs uid removed w = (Ok tt, set_fs fs' w)
    /\ forall p, ~ In p (map snd removed) -> fs_lookup p fs' = fs_lookup p (fs w).
Proof.
  unfold delete_pruned_blobs.
  match goal with |- context [for_each _ ?b] => set (body := b) end.
  assert (Hbody : forall r w, body r w = (Ok tt, set_fs (fs_remove (snd r) (fs w)) w))
    by reflexivity.
  revert w. induction removed as [|r removed IH]; intros w; cbn [for_each].
  - exists (fs w). rewrite set_fs_same. auto.
  - unfold bind. rewrite Hbody.
    destruct (IH (set_fs (fs_remove (snd r) (fs w)) w)) as (fs' & -> & Hk).
    exists fs'. split; [destruct w; reflexivity|].
    intros p Hp. rewrite Hk by (intros Hin; apply Hp; now right).
    cbn. apply fs_lookup_remove_other. intros E. apply Hp. now left.
Qed.

Ltac crunch_blobs H :=
  reduce_run H;
  repeat (match type of H with
          | context [prune_old_versions ?u ?f ?k ?w] =>
              rewrite (prune_old_versions_run u f k w) in H by (unfold MAX_VERSIONS; lia)
          | context [delete_pruned_blobs ?u ?r ?w] =>
              let fs' := fresh "fs'" in
              let Hl := fresh "Hl" in
              let Hkeep := fresh "Hkeep" in
              destruct (delete_pruned_blobs_keeps u r w) as (fs' & Hl & Hkeep);
              rewrite Hl in H; clear Hl
          | context [if ?c then _ else _] => destruct c eqn:?
          | context [match ?x with _ => _ end] =>
              lazymatch x with
              | context [match _ with _ => _ end] => fail
              | _ => destruct x eqn:?
              end
          end; try discriminate; reduce_run H).

Section RoundTrip.

Variable encrypt : bytes -> bytes.
Variable decrypt : bytes -> option bytes.
Variable sha256_hex : bytes -> string.

(** What a backup that returns leaves outside the tables: the blob of
    the new entry is in the store unless a pruned row pointed at the same
    path. *)
Lemma backup_ok_blob w uid path fe w' :
  perform_manual_backup encrypt sha256_hex uid path w = (Ok fe, w') ->
  (forall g, In g (files w) -> live_match uid (basename path) g = true ->
             fe_storage_path g <> fe_storage_path fe) ->
  users w' = users w /\ otps w' = otps w /\ now w' = now w
  /\ unwritable w' = unwritable w /\ tmp_counter w' = tmp_counter w + 1
  /\ (exists user, find (fun u => u_id u =? uid) (users w) = Some user)
  /\ exists data, fs_lookup path (fs w) = Some data
       /\ fs_lookup (fe_storage_path fe) (fs w') = Some (encrypt data).
Proof.
  intros H Hpaths.
  destruct (backup_files_shape encrypt sha256_hex w uid path fe w' H)
    as (rest & Hsort & Hrest & _).
  unfold_run H. crunch_blobs H.
  all: inversion H; subst; clear H.
  all: cbn [fe_storage_path] in *.
  all: repeat (split; [unfold rmtree; reflexivity|]).
  all: split; [eexists; first [eassumption | reflexivity]|].
  all: exists b; split; [reflexivity|].
  all: rewrite rmtree_keeps_blob; cbn.
  all: rewrite Hkeep; [cbn; now rewrite String.eqb_refl|].
  all: rewrite map_map; cbn [snd]; intros Hin.
  all: apply in_map_iff in Hin; destruct Hin as (g & Hgp & Hg).
  all: unfold live_versions_desc in Hg; cbn in Hg.
  all: unfold sort_by in Hsort; rewrite Hsort in Hg.
  all: change (In g (skipn 2 rest)) in Hg.
  all: apply In_skipn, Hrest in Hg; destruct Hg as [Hg Hl].
  all: exact (Hpaths g Hg Hl Hgp).
Qed.

(** A restore with an accepted code of a live entry whose blob decrypts
    writes the plain bytes to the target and answers ok. *)
Lemma restore_writes_plain w uid f v target code user o entry blob plain :
  find (fun u => u_id u =? uid) (users w) = Some user ->
  find (otp_match uid (Some code)) (otps w) = Some o ->
  now w <= otp_expiry o ->
  find (fun e => same_key uid f v e && negb (fe_deleted e)) (files w) = Some entry ->
  fs_lookup (fe_storage_path entry) (fs w) = Some blob ->
  decrypt blob = Some plain ->
  unwritable w (restore_tmp_path w (fe_storage_path entry)) = false ->
  unwritable w target = false ->
  String.prefix (dirname (restore_tmp_path w (fe_storage_path entry)) ++ "/") target = false ->
  exists w',
    perform_restore decrypt uid f (Some v) target (Some code) w
    = (Ok (reply true "Restore completed successfully"), w')
    /\ fs_lookup target (fs w') = Some plain.
Proof.
  unfold restore_tmp_path.
  intros Hu Ho Hexp He Hblob Hdec Htmp Htgt Hout.
  destruct (find_by_own_id o (otps w) (proj1 (find_some _ _ Ho))) as (o' & Hoid).
  assert (Hlt : (otp_expiry o <? now w) = false) by (apply Z.ltb_ge; lia).
  destruct (perform_restore decrypt uid f (Some v) target (Some code) w) as [r w1] eqn:H.
  unfold_perform_restore H. unfold rmtree in H. cbn in H. rewrite Hu in H. cbn in H.
  rewrite Ho in H.
  rewrite Hlt in H. cbn in H. rewrite Hoid in H. cbn in H. rewrite He in H.
  crunch H; try congruence.
  all: repeat match goal with
         | E : Some _ = Some _ |- _ => inversion E; subst; clear E
         end.
  all: inversion H; subst; clear H.
  all: eexists; split; [reflexivity|]; cbn.
  all: try (rewrite Hout in *; discriminate).
  all: now rewrite String.eqb_refl.
Qed.

(** X19.  Backup then restore gives the file back.  On a file table
    with distinct ids and keys in which no live row of the file already
    points at the new locator, and with a cipher whose decryption undoes
    its encryption, a backup that returns followed by a restore of the
    version it registered, with a code the check accepts, answers ok and
    writes to the target exactly the bytes the source file held when it
    was backed up. *)
Theorem backup_then_restore w uid path fe w1 target code o data :
  (forall b, decrypt (encrypt b) = Some b) ->
  store_wf w ->
  fs_lookup path (fs w) = Some data ->
  perform_manual_backup encrypt sha256_hex uid path w = (Ok fe, w1) ->
  (forall g, In g (files w) -> live_match uid (basename path) g = true ->
             fe_storage_path g <> fe_storage_path fe) ->
  first_code w uid code = Some o ->
  now w <= otp_expiry o ->
  unwritable w (restore_tmp_path w1 (fe_storage_path fe)) = false ->
  unwritable w target = false ->
  String.prefix (dirname (restore_tmp_path w1 (fe_storage_path fe)) ++ "/") target = false ->
  let restore :=
    perform_restore decrypt uid (basename path) (Some (fe_version fe)) target (Some code) in
  outcome restore w1 = Ok (reply true "Restore completed successfully")
  /\ fs_lookup target (fs (after restore w1)) = Some data.
Proof.
  intros Hdec [Hids Hkeys] Hdata Hb Hpaths Ho Hexp Htmp Htgt Hout restore. subst restore.
  unfold first_code in Ho.
  destruct (backup_ok_blob w uid path fe w1 Hb Hpaths)
    as (Hu & Hot & Hnow & Hunw & _ & (user & Huser) & data' & Hd' & Hblob).
  assert (data' = data) by congruence. subst data'.
  destruct (backup_files_shape encrypt sha256_hex w uid path fe w1 Hb)
    as (rest & Hsort & Hrest & Hfiles & Hid & Hkey & Hlive).
  assert (Hin : In fe (files w1)).
  { rewrite Hfiles. apply delete_rows_In. split; [apply in_or_app; right; now left|].
    intros (g & Hg & E). apply In_skipn, Hrest in Hg. destruct Hg as [Hg _].
    pose proof (next_id_gt (map fe_id (files w)) (fe_id g) (in_map fe_id _ _ Hg)). lia. }
  assert (Hkeys1 : NoDup (map entry_key (files w1))).
  { rewrite Hfiles. unfold delete_rows. apply NoDup_map_filter. rewrite map_app.
    apply NoDup_snoc; [exact Hkeys | exact Hkey]. }
  unfold live_match in Hlive. rewrite !andb_true_iff in Hlive.
  destruct Hlive as [[Hfu Hfn] Hfd].
  assert (Hentry : find (fun e => same_key uid (basename path) (fe_version fe) e
                                  && negb (fe_deleted e)) (files w1) = Some fe).
  { destruct (find _ (files w1)) as [e'|] eqn:E.
    - apply find_some in E. destruct E as [Hin' Hk]. apply andb_true_iff in Hk.
      destruct Hk as [Hk _]. apply same_key_iff in Hk.
      f_equal. apply (NoDup_map_inj entry_key (files w1)); auto.
      rewrite Hk. symmetry. apply same_key_iff. unfold same_key.
      now rewrite Hfu, Hfn, Z.eqb_refl.
    - apply (find_none_all _ _ E) in Hin. unfold same_key in Hin.
      now rewrite Hfu, Hfn, Hfd, Z.eqb_refl in Hin. }
  destruct (restore_writes_plain w1 uid (basename path) (fe_version fe) target code user o
              fe (encrypt data) data) as (w2 & Hrun & Hres); auto.
  - now rewrite Hu.
  - now rewrite Hot.
  - now rewrite Hnow.
  - now rewrite Hunw.
  - now rewrite Hunw.
  - unfold outcome, after. rewrite Hrun. auto.
Qed.

End RoundTrip.

Lemma backup_then_restore_witness :
  fs_lookup "/home/alice/restored.docx"
    (fs (after (perform_restore toy_decrypt 1 "report.docx" (Some 1)
                  "/home/alice/restored.docx" (Some "123456"%string))
           (after (perform_manual_backup toy_encrypt toy_sha256 1 "/home/alice/report.docx")
              (set_otps [mkOTP 1 1 "123456" 1300 false] w_fresh))))
  = Some (list_byte_of_string "hello").
Proof.
  set (w := set_otps [mkOTP 1 1 "123456" 1300 false] w_fresh).
  destruct (perform_manual_backup toy_encrypt toy_sha256 1 "/home/alice/report.docx" w)
    as [r w1] eqn:Hb.
  assert (Hr : exists fe, r = Ok fe /\ fe_version fe = 1).
  { vm_compute in Hb. inversion Hb. eexists. split; reflexivity. }
  destruct Hr as (fe & -> & Hv).
  assert (Hw1 : after (perform_manual_backup toy_encrypt toy_sha256 1
                         "/home/alice/report.docx") w = w1)
    by (unfold after; now rewrite Hb).
  rewrite Hw1. replace (Some 1) with (Some (fe_version fe)) by (now rewrite Hv).
  change "report.docx"%string with (basename "/home/alice/report.docx").
  refine (proj2 (backup_then_restore toy_encrypt toy_decrypt toy_sha256 w 1
                   "/home/alice/report.docx" fe w1 "/home/alice/restored.docx" "123456"
                   (mkOTP 1 1 "123456" 1300 false) (list_byte_of_string "hello")
                   _ _ _ Hb _ _ _ _ _ _)).
  - intros b. reflexivity.
  - split; constructor.
  - reflexivity.
  - intros g [].
  - reflexivity.
  - cbn. lia.
  - reflexivity.
  - reflexivity.
  - vm_compute in Hb. inversion Hb. reflexivity.
Defined.

(** ** From backup to the secondary store *)

Section BackupReplication.

Variable encrypt : bytes -> bytes.
Variable sha256_hex : bytes -> string.

(** X20.  Backup then replicate.  After a backup that returns on a
    queue with nothing pending, one replication pass with a secondary
    store configured (its path for the blob writable and not the primary
    path itself) copies the new blob: the secondary path then holds the
    same encrypted bytes as the primary locator, the task the backup
    queued has one attempt and is marked replicated, and nothing is left
    pending. *)
Theorem backup_then_replicate w uid path fe w1 sec data :
  perform_manual_backup encrypt sha256_hex uid path w = (Ok fe, w1) ->
  fs_lookup path (fs w) = Some data ->
  (forall g, In g (files w) -> live_match uid (basename path) g = true ->
             fe_storage_path g <> fe_storage_path fe) ->
  forallb rq_replicated (replication_queue w) = true ->
  sec <> ""%string ->
  secondary_dest sec (fe_storage_path fe) <> fe_storage_path fe ->
  unwritable w (secondary_dest sec (fe_storage_path fe)) = false ->
  let w2 := after (_replication_recovery_pass (Some sec)) w1 in
  fs_lookup (secondary_dest sec (fe_storage_path fe)) (fs w2) = Some (encrypt data)
  /\ fs_lookup (fe_storage_path fe) (fs w2) = Some (encrypt data)
  /\ forallb rq_replicated (replication_queue w2) = true
  /\ In (mkReplicationQueue (next_id (map rq_id (replication_queue w))) (fe_id fe)
           (fe_storage_path fe) 1 true) (replication_queue w2).
Proof.
  intros Hb Hdata Hpaths Hdone Hsec Hne Hunw w2. subst w2.
  destruct (backup_ok_blob encrypt sha256_hex w uid path fe w1 Hb Hpaths)
    as (_ & _ & _ & Hunw1 & _ & _ & data' & Hd' & Hblob).
  assert (data' = data) by congruence. subst data'.
  destruct (backup_ok_inv encrypt sha256_hex w uid path fe w1 Hb)
    as (d0 & _ & _ & _ & Hfe & _ & _ & _ & Hq & _).
  assert (Hpath : fe_storage_path fe
                  = upload_dest uid (basename path)
                      (latest_version uid (basename path) w + 1))
    by (rewrite Hfe; reflexivity).
  rewrite <- Hpath in Hq.
  set (task := mkReplicationQueue (next_id (map rq_id (replication_queue w))) (fe_id fe)
                 (fe_storage_path fe) 0 false) in *.
  rewrite <- Hunw1 in Hunw.
  assert (Hbatch : replication_batch w1 = [task]).
  { unfold replication_batch. rewrite Hq, filter_app.
    rewrite filter_none; [reflexivity|].
    intros r Hr. rewrite forallb_forall in Hdone. now rewrite (Hdone r Hr). }
  assert (Hfind : find (fun r => rq_id r =? next_id (map rq_id (replication_queue w)))
                    (replication_queue w1) = Some task).
  { rewrite Hq. apply find_snoc_fresh; [|cbn; apply Z.eqb_refl].
    intros r Hr. apply Z.eqb_neq. intros E.
    apply (next_id_fresh (map rq_id (replication_queue w))). rewrite <- E. now apply in_map. }
  assert (Hsecb : String.eqb sec "" = false) by (now apply String.eqb_neq).
  assert (Hdiff : String.eqb (fe_storage_path fe) (secondary_dest sec (fe_storage_path fe))
                  = false) by (apply String.eqb_neq; congruence).
  unfold after.
  destruct (_replication_recovery_pass (Some sec) w1) as [r w2] eqn:H.
  unfold _replication_recovery_pass, pop_replication_candidates, bind, gets in H.
  change (firstn 20 (filter (fun r => negb (rq_replicated r)) (replication_queue w1)))
    with (replication_batch w1) in H.
  rewrite Hbatch in H. cbn [for_each] in H.
  unfold _replication_recovery_item, record_replication_attempt, _replicate_blob,
    _replicate_to_local_secondary, _replicate_to_sftp, mark_replicated, copy2, read_file,
    write_file, try_except, bind, ret, raise, add_log, truthy in H.
  subst task. cbn [rq_id rq_storage_path] in H.
  rewrite Hfind, Hsecb, Hdiff in H. cbn in H.
  rewrite Hblob in H. cbn in H. rewrite Hunw in H. cbn in H.
  match type of H with
  | context [match find ?f ?l with _ => _ end] => destruct (find f l) eqn:Hf2
  end.
  2:{ exfalso.
      assert (Hin : In (mkReplicationQueue (next_id (map rq_id (replication_queue w)))
                          (fe_id fe) (fe_storage_path fe) (0 + 1) false)
                      (map (fun r =>
                              if rq_id r =? next_id (map rq_id (replication_queue w))
                              then mkReplicationQueue (rq_id r) (rq_file_entry_id r)
                                     (rq_storage_path r) (rq_attempted r + 1)
                                     (rq_replicated r)
                              else r) (replication_queue w1))).
      { apply in_map_iff. eexists. split; [|rewrite Hq; apply in_or_app; right; now left].
        cbn. now rewrite Z.eqb_refl. }
      apply (find_none_all _ _ Hf2) in Hin. cbn in Hin. rewrite Z.eqb_refl in Hin.
      discriminate. }
  cbn in H. inversion H; subst r w2; clear H. cbn.
  rewrite String.eqb_refl. split; [reflexivity|].
  split.
  { destruct (String.eqb_spec (secondary_dest sec (fe_storage_path fe)) (fe_storage_path fe));
      [contradiction|].
    rewrite fs_lookup_remove_other by congruence. exact Hblob. }
  rewrite map_map, Hq. split.
  - apply forallb_forall. intros x Hx. apply in_map_iff in Hx.
    destruct Hx as (y & <- & Hy).
    destruct (rq_id y =? next_id (map rq_id (replication_queue w))) eqn:E; cbn;
      rewrite ?Z.eqb_refl, ?E; [reflexivity|].
    apply in_app_or in Hy. destruct Hy as [Hy|[<-|[]]].
    + rewrite forallb_forall in Hdone. now apply Hdone.
    + cbn in E. rewrite Z.eqb_refl in E. discriminate.
  - apply in_map_iff. eexists. split; [|apply in_or_app; right; now left].
    cbn. rewrite !Z.eqb_refl. reflexivity.
Qed.

End BackupReplication.

Lemma backup_then_replicate_witness :
  fs_lookup (secondary_dest "/mnt/replica" "./nas_storage/user_1/report.docx.v1.enc")
    (fs (after (_replication_recovery_pass (Some "/mnt/replica"%string)) (backed_up 1)))
  = Some (toy_encrypt (list_byte_of_string "hello")).
Proof.
  set (bk := perform_manual_backup toy_encrypt toy_sha256 1 "/home/alice/report.docx").
  assert (Hb : exists fe, bk w_fresh = (Ok fe, backed_up 1)
                          /\ fe_storage_path fe = "./nas_storage/user_1/report.docx.v1.enc"%string).
  { eexists. split; vm_compute; reflexivity. }
  destruct Hb as (fe & Hb & Hp). rewrite <- Hp.
  refine (proj1 (backup_then_replicate toy_encrypt toy_sha256 w_fresh 1
                   "/home/alice/report.docx" fe (backed_up 1) "/mnt/replica"
                   (list_byte_of_string "hello") Hb _ _ _ _ _ _)).
  - reflexivity.
  - intros g [].
  - reflexivity.
  - discriminate.
  - rewrite Hp. vm_compute. discriminate.
  - reflexivity.
Defined.

(** ** The restore workflow: request a code, then restore *)

(** What a restore request that returns has changed besides log and
    events: one code row. *)
Lemma start_restore_request_frame w uid f r w1 user :
  find (fun u => u_id u =? uid) (users w) = Some user ->
  start_restore_request uid f w = (Ok r, w1) ->
  otps w1 = otps w ++ [issued_code w uid]
  /\ users w1 = users w /\ files w1 = files w /\ fs w1 = fs w
  /\ unwritable w1 = unwritable w /\ tmp_counter w1 = tmp_counter w.
Proof.
  intros Hu H.
  unfold start_restore_request, _make_otp_code, create_otp_record in H.
  unfold_restore H. crunch H.
  all: inversion H; subst; clear H; cbn; repeat split.
Qed.

Section RestoreWorkflow.

Variable decrypt : bytes -> option bytes.


End RestoreWorkflow.


(** ** File events (backup_manager.handle_file_event) *)

Section FileEventProperties.

Variable encrypt : bytes -> bytes.
Variable sha256_hex : bytes -> string.
Variable int_of_text : string -> option Z.

(** X22.  For a user known by e-mail, [handle_file_event] never
    raises.  A created or modified event leaves the world a backup of the
    file leaves, up to log lines, whether the backup returns or raises; a
    deleted event changes no file row, no blob and no code (nothing is
    restored, and no backup is deleted); any other event type does
    nothing.  For an address that is unknown and is no number it logs and
    returns; for a number that names no user it raises. *)
Theorem handle_file_event_cases (w : World) (email path ev : string) :
  (forall user,
     find (fun u => String.eqb (u_email u) email) (users w) = Some user ->
     let w' := after (handle_file_event encrypt sha256_hex int_of_text email path ev) w in
     outcome (handle_file_event encrypt sha256_hex int_of_text email path ev) w = Ok tt
     /\ (ev = "created"%string \/ ev = "modified"%string ->
         same_but_logs
           (after (perform_manual_backup encrypt sha256_hex (u_id user) path) w) w')
     /\ (ev = "deleted"%string ->
         files w' = files w /\ fs w' = fs w /\ otps w' = otps w
         /\ unsynced_files w' = unsynced_files w)
     /\ (ev <> "created"%string -> ev <> "modified"%string -> ev <> "deleted"%string ->
         w' = w))
  /\ (find (fun u => String.eqb (u_email u) email) (users w) = None ->
      (int_of_text email = None ->
       outcome (handle_file_event encrypt sha256_hex int_of_text email path ev) w = Ok tt
       /\ same_but_logs w
            (after (handle_file_event encrypt sha256_hex int_of_text email path ev) w))
      /\ (forall uid, int_of_text email = Some uid ->
            find (fun u => u_id u =? uid) (users w) = None ->
            exists e,
              handle_file_event encrypt sha256_hex int_of_text email path ev w
              = (Raise e, w))).
Proof.
  split.
  - intros user Hu w'. subst w'. unfold outcome, after.
    destruct (handle_file_event encrypt sha256_hex int_of_text email path ev w)
      as [r w1] eqn:H.
    unfold handle_file_event, get_user_by_email, bind, gets, ret, try_except in H.
    rewrite Hu in H. cbn [fst snd].
    destruct (String.eqb_spec ev "created") as [Ec|Ec];
      [|destruct (String.eqb_spec ev "modified") as [Em|Em]].
    1,2: cbn [orb] in H;
      destruct (perform_manual_backup encrypt sha256_hex (u_id user) path w) as [[fe|e] wb];
      unfold add_log in H; cbn in H; inversion H; subst; clear H;
      (split; [reflexivity|]); (split; [intros _; reflexivity|]);
      (split; [intros Hd; congruence|]);
      intros; congruence.
    cbn [orb] in H.
    destruct (String.eqb_spec ev "deleted") as [Ed|Ed].
    + unfold add_log, send_alert, get_file_entries, gets, record_dr_event, bind, ret in H.
      crunch H.
      all: inversion H; subst; clear H.
      all: split; [reflexivity|]; split; [intros [C|C]; congruence|].
      all: split; [intros _; cbn; repeat split | intros; congruence].
    + inversion H; subst; clear H.
      split; [reflexivity|]. split; [intros [C|C]; congruence|].
      split; [intros; congruence | reflexivity].
  - intros Hu. split.
    + intros Hint. unfold outcome, after.
      unfold handle_file_event, get_user_by_email, bind, gets, ret, add_log.
      rewrite Hu, Hint. cbn. split; reflexivity.
    + intros uid Hint Hnone.
      unfold handle_file_event, get_user_by_email, get_user, bind, gets, ret, raise.
      rewrite Hu, Hint, Hnone. eexists. reflexivity.
Qed.

End FileEventProperties.

Lemma handle_file_event_cases_witness :
  outcome (handle_file_event toy_encrypt toy_sha256 toy_int "alice@example.org"
             "/home/alice/report.docx" "deleted") (backed_up 1) = Ok tt
  /\ files (after (handle_file_event toy_encrypt toy_sha256 toy_int "alice@example.org"
                     "/home/alice/report.docx" "deleted") (backed_up 1))
     = files (backed_up 1).
Proof.
  destruct (handle_file_event_cases toy_encrypt toy_sha256 toy_int (backed_up 1)
              "alice@example.org" "/home/alice/report.docx" "deleted") as [Hknown _].
  destruct (Hknown alice eq_refl) as (Hout & _ & Hdel & _).
  split; [exact Hout | exact (proj1 (Hdel eq_refl))].
Defined.

(** ** Backups that fail *)

Section BackupFailure.

Variable encrypt : bytes -> bytes.
Variable sha256_hex : bytes -> string.

(** X23.  A backup that raises has registered nothing, whatever made
    it fail (unknown user, missing source, a path that cannot be written,
    a version already taken): the file table, the snapshots, their
    entries and the replication queue are as before, and the
    PendingUpload queue is as before or longer by one row for this user
    and path. *)
Theorem backup_failure_registers_nothing (w : World) (uid : Z) (path : string) (e : exn) :
  outcome (perform_manual_backup encrypt sha256_hex uid path) w = Raise e ->
  let w' := after (perform_manual_backup encrypt sha256_hex uid path) w in
  files w' = files w /\ snapshots w' = snapshots w
  /\ snapshot_entries w' = snapshot_entries w
  /\ replication_queue w' = replication_queue w
  /\ (unsynced_files w' = unsynced_files w
      \/ exists u, unsynced_files w' = unsynced_files w ++ [u]
                   /\ uf_user_id u = uid /\ uf_local_path u = path).
Proof.
  intros Hout w'. subst w'. unfold outcome, after in *.
  destruct (perform_manual_backup encrypt sha256_hex uid path w) as [r w1] eqn:H.
  cbn [fst snd] in *. subst r.
  unfold_run H. crunch H.
  all: inversion H; subst; clear H.
  all: unfold rmtree; cbn.
  all: repeat (split; [reflexivity|]).
  all: first [left; reflexivity | right; eexists; repeat split].
Qed.

End BackupFailure.

Lemma backup_failure_registers_nothing_witness :
  files (after (perform_manual_backup toy_encrypt toy_sha256 1 "/home/alice/report.docx")
           w_primary_down)
  = files w_primary_down.
Proof.
  assert (H : exists e,
            outcome (perform_manual_backup toy_encrypt toy_sha256 1 "/home/alice/report.docx")
              w_primary_down = Raise e).
  { eexists. vm_compute. reflexivity. }
  destruct H as (e & H).
  exact (proj1 (backup_failure_registers_nothing toy_encrypt toy_sha256 w_primary_down 1
                  "/home/alice/report.docx" e H)).
Defined.
